(** * HU-eLearning: the adaptive video transcoding pipeline

    A shallow embedding of [src/lib/video-streaming.ts]: the media
    inspector ([FFmpegProcessor.probe]), the variant planner
    ([generateOptimalVariants]), thumbnail extraction
    ([FFmpegProcessor.generateThumbnails]), the playlist writer
    ([FFmpegProcessor.createHLSPlaylist]), the pipeline
    ([processVideoWithAdaptiveStreaming]) and the in-memory job registry
    ([VideoProcessingQueue]).

    Conventions.
    - JavaScript numbers that the code only compares, adds or bounds
      (widths, heights, bitrates, progress percentages, exit codes) are
      [Z]; numbers that it divides (durations, timestamps, the 1.5 factor
      of [maxrate]) are exact rationals [Q].  IEEE rounding is not
      modelled.
    - A promise is modelled by its settlement: [Resolved v] or
      [Rejected msg].
    - The outside world (child processes, the file system) is an oracle
      that answers each call from the history of the calls made so far. *)

From Stdlib Require Import ZArith QArith Qabs Qminmax Lia List String DecimalString Sorted.
From stdpp Require Import base option list strings gmap.

Open Scope Z_scope.
Open Scope string_scope.

(** ** Settled promises *)

Inductive outcome (A : Type) : Type :=
| Resolved (value : A)
| Rejected (message : string).
Arguments Resolved {A} value.
Arguments Rejected {A} message.

Definition is_rejected {A} (o : outcome A) : bool :=
  match o with Rejected _ => true | Resolved _ => false end.

(** Template-literal rendering of an integer, [`${n}`]. *)
Definition show_Z (n : Z) : string := NilZero.string_of_int (Z.to_int n).

(** ** Variant planner *)

Module Planner.

(** [interface VideoVariant]. *)
Record VideoVariant := {
  name : string;
  width : Z;
  height : Z;
  bitrate : Z;
  codec : string;
  profile : string;
  level : string;
  bufsize : Z;
  maxrate : Q;
  fps : Z
}.

(** One rung of the ladder, an element of [qualityConfigs]. *)
Record QualityConfig := {
  cfg_name : string;
  cfg_width : Z;
  cfg_height : Z;
  cfg_bitrate : Z;
  maxSourceHeight : Z
}.

Definition qualityConfigs : list QualityConfig :=
  [ {| cfg_name := "360p"; cfg_width := 640; cfg_height := 360;
       cfg_bitrate := 800; maxSourceHeight := 360 |};
    {| cfg_name := "480p"; cfg_width := 854; cfg_height := 480;
       cfg_bitrate := 1200; maxSourceHeight := 480 |};
    {| cfg_name := "720p"; cfg_width := 1280; cfg_height := 720;
       cfg_bitrate := 2500; maxSourceHeight := 720 |};
    {| cfg_name := "1080p"; cfg_width := 1920; cfg_height := 1080;
       cfg_bitrate := 5000; maxSourceHeight := 1080 |} ].

(** The object pushed for a rung that qualifies. *)
Definition ladder_variant (config : QualityConfig) : VideoVariant :=
  {| name := cfg_name config;
     width := cfg_width config;
     height := cfg_height config;
     bitrate := cfg_bitrate config;
     codec := "libx264";
     profile := "high";
     level := "4.0";
     bufsize := cfg_bitrate config * 2;
     maxrate := (inject_Z (cfg_bitrate config) * 1.5)%Q;
     fps := 30 |}.

(** The object pushed when no rung qualified. *)
Definition fallback_variant (w h : Z) : VideoVariant :=
  {| name := "auto";
     width := Z.min w 854;
     height := Z.min h 480;
     bitrate := 1200;
     codec := "libx264";
     profile := "high";
     level := "4.0";
     bufsize := 2400;
     maxrate := 1800%Q;
     fps := 30 |}.

(** The [forEach] over the ladder: [variants] is the array built so
    far, each qualifying rung is pushed at its end. *)
Fixpoint forEach_config (h : Z) (configs : list QualityConfig)
         (variants : list VideoVariant) : list VideoVariant :=
  match configs with
  | [] => variants
  | config :: rest =>
      if h >=? maxSourceHeight config
      then forEach_config h rest (variants ++ [ladder_variant config])
      else forEach_config h rest variants
  end.

(** [generateOptimalVariants(width, height, duration)]; the spec calls
    it [planVariants].  [duration] is not read by the body. *)
Definition generateOptimalVariants (w h : Z) (duration : Q)
  : list VideoVariant :=
  let variants := forEach_config h qualityConfigs [] in
  if (length variants =? 0)%nat
  then variants ++ [fallback_variant w h]
  else variants.

(** A plan includes the rendition of a ladder rung. *)
Definition includes_rendition (plan : list VideoVariant)
           (config : QualityConfig) : Prop :=
  ladder_variant config ∈ plan.

End Planner.

(** ** Media inspector: JavaScript values, then [FFmpegProcessor.probe] *)

Module Probe.

(** A JavaScript number: a finite rational, [NaN] or an infinity. *)
Inductive number :=
| Num (q : Q)
| NaN
| Infinity (negative : bool).

(** The values [JSON.parse] yields, and [undefined], which reading a
    missing property yields. *)
#[warnings="-register-all"]
Inductive jsval :=
| JUndefined
| JNull
| JBool (b : bool)
| JNumber (n : number)
| JString (s : string)
| JArray (items : list jsval)
| JObject (fields : list (string * jsval)).

(** A statement either completes or throws; [Throw e] carries the
    rendering [`${error}`] of what was thrown. *)
Inductive completion (A : Type) : Type :=
| Normal (a : A)
| Throw (e : string).
Arguments Normal {A} a.
Arguments Throw {A} e.

#[export] Instance completion_ret : MRet completion := @Normal.
#[export] Instance completion_bind : MBind completion :=
  fun A B f c => match c with Normal a => f a | Throw e => Throw e end.

(** The built-ins the probe calls.  [TypeError] renders the error
    raised by reading a property of [undefined] or [null], or by
    calling something that is not a function. *)
Class JsRuntime := {
  JSON_parse : string -> completion jsval;
  parseFloat : jsval -> number;
  parseInt : jsval -> number;
  js_eval : jsval -> completion jsval;
  TypeError : string -> string
}.

(** ToBoolean. *)
Definition truthy (v : jsval) : bool :=
  match v with
  | JUndefined | JNull => false
  | JBool b => b
  | JNumber (Num q) => negb (Qeq_bool q 0)
  | JNumber NaN => false
  | JNumber (Infinity _) => true
  | JString s => negb (String.eqb s "")
  | JArray _ | JObject _ => true
  end.

(** [a || b]. *)
Definition js_or (a b : jsval) : jsval := if truthy a then a else b.

Fixpoint assoc (key : string) (fields : list (string * jsval)) : jsval :=
  match fields with
  | [] => JUndefined
  | (k, v) :: rest => if String.eqb k key then v else assoc key rest
  end.

(** [v.key], for the keys the probe reads ([streams], [format],
    [codec_type], [duration], [width], [height], [bit_rate],
    [r_frame_rate], [format_name], [codec_name]): none of them is an
    inherited property of a string, number, boolean or array. *)
Definition get `{JsRuntime} (v : jsval) (key : string) : completion jsval :=
  match v with
  | JUndefined | JNull => Throw (TypeError key)
  | JObject fields => Normal (assoc key fields)
  | _ => Normal JUndefined
  end.

(** [v?.key]. *)
Definition get_optional `{JsRuntime} (v : jsval) (key : string)
  : completion jsval :=
  match v with
  | JUndefined | JNull => Normal JUndefined
  | _ => get v key
  end.

(** [v === s] for a string literal [s]. *)
Definition strict_eq_string (v : jsval) (s : string) : bool :=
  match v with JString t => String.eqb t s | _ => false end.

(** [items.find((s) => s.codec_type === kind)] on an array. *)
Fixpoint find_codec_type `{JsRuntime} (kind : string) (items : list jsval)
  : completion jsval :=
  match items with
  | [] => Normal JUndefined
  | s :: rest =>
      c ← get s "codec_type";
      if strict_eq_string c kind then Normal s
      else find_codec_type kind rest
  end.

(** [streams.find(...)]: only an array has a [find] to call. *)
Definition streams_find `{JsRuntime} (streams : jsval) (kind : string)
  : completion jsval :=
  match streams with
  | JArray items => find_codec_type kind items
  | _ => Throw (TypeError "find")
  end.

Record Codecs := { video : jsval; audio : jsval }.

(** The object [probe] resolves with. *)
Record MediaInfo := {
  duration : number;
  width : jsval;
  height : jsval;
  bitrate : number;
  fps : jsval;
  format : jsval;
  codecs : Codecs
}.

(** How the [ffprobe] child ended: the ['close'] event with its exit
    code ([null] when a signal killed it), or the ['error'] event. *)
Inductive proc_exit :=
| Close (code : option Z)
| SpawnError (message : string).

(** [`${code}`]. *)
Definition show_code (code : option Z) : string :=
  match code with Some n => show_Z n | None => "null" end.

(** [code === 0]. *)
Definition is_zero (code : option Z) : bool :=
  match code with Some 0 => true | _ => false end.

(** The body of the [try] block of the ['close'] handler.  It either
    throws, or settles the promise. *)
Definition parse_output `{JsRuntime} (output : string)
  : completion (outcome MediaInfo) :=
  data ← JSON_parse output;
  streams ← get data "streams";
  videoStream ← streams_find streams "video";
  streams' ← get data "streams";
  audioStream ← streams_find streams' "audio";
  if negb (truthy videoStream)
  then Normal (Rejected "No video stream found")
  else
    fmt1 ← get data "format";
    d ← get fmt1 "duration";
    w ← get videoStream "width";
    h ← get videoStream "height";
    fmt2 ← get data "format";
    b ← get fmt2 "bit_rate";
    r ← get videoStream "r_frame_rate";
    f ← js_eval (js_or r (JString "0/1"));
    fmt3 ← get data "format";
    n ← get fmt3 "format_name";
    vc ← get videoStream "codec_name";
    ac ← get_optional audioStream "codec_name";
    Normal (Resolved
      {| duration := parseFloat (js_or d (JNumber (Num 0)));
         width := js_or w (JNumber (Num 0));
         height := js_or h (JNumber (Num 0));
         bitrate := parseInt (js_or b (JNumber (Num 0)));
         fps := f;
         format := js_or n (JString "");
         codecs := {| video := js_or vc (JString "");
                      audio := js_or ac (JString "") |} |}).

(** [FFmpegProcessor.probe], from what the child process did:
    [output] is everything it wrote to its standard output. *)
Definition probe `{JsRuntime} (output : string) (exit : proc_exit)
  : outcome MediaInfo :=
  match exit with
  | SpawnError message => Rejected ("FFprobe error: " ++ message)
  | Close code =>
      if negb (is_zero code)
      then Rejected ("FFprobe failed with code " ++ show_code code)
      else match parse_output output with
           | Normal settled => settled
           | Throw e => Rejected ("Failed to parse FFprobe output: " ++ e)
           end
  end.

(** No element of [items] is a stream of the given kind. *)
Definition no_stream (kind : string) (items : list jsval) : Prop :=
  Forall (fun s => match s with
                   | JObject fields =>
                       strict_eq_string (assoc "codec_type" fields) kind = false
                   | _ => True
                   end) items.

(** No element of [items] is [null] (reading a property of it would
    throw). *)
Definition no_null (items : list jsval) : Prop :=
  Forall (fun s => s <> JNull /\ s <> JUndefined) items.

(** ** A sample runtime *)

(** What the sample runtime parses [sample_output] to: one video
    stream, no audio stream, a format without duration and bit rate. *)
Definition sample_data : jsval :=
  JObject
    [("streams",
      JArray [JObject [("codec_type", JString "video");
                       ("codec_name", JString "h264");
                       ("width", JNumber (Num 1280));
                       ("height", JNumber (Num 720))]]);
     ("format", JObject [("format_name", JString "mov,mp4")])].

Definition sample_output : string := "<ffprobe output for a silent clip>".

(** A runtime for the samples.  It knows the parse of [sample_output]
    only, converts only number values, and evaluates only the default
    frame rate. *)
Definition sample_runtime : JsRuntime :=
  {| JSON_parse := fun text =>
       if String.eqb text sample_output then Normal sample_data
       else Throw "SyntaxError: Unexpected token";
     parseFloat := fun v => match v with JNumber n => n | _ => NaN end;
     parseInt := fun v =>
       match v with
       | JNumber (Num q) => Num (inject_Z (Z.quot (Qnum q) (Z.pos (Qden q))))
       | JNumber n => n
       | _ => NaN
       end;
     js_eval := fun v =>
       if strict_eq_string v "0/1" then Normal (JNumber (Num 0))
       else Throw "SyntaxError";
     TypeError := fun key =>
       "TypeError: Cannot read properties of undefined (reading '"
         ++ key ++ "')" |}.

End Probe.

(** ** Asynchronous tasks over the outside world and the job registry *)

Module Async.

Export Planner.

(** What [probe] resolves with, as far as the pipeline reads it:
    [videoInfo.duration], [videoInfo.width], [videoInfo.height]. *)
Record VideoInfo := {
  info_duration : Q;
  info_width : Z;
  info_height : Z
}.

(** How a child process ended. *)
Definition proc_exit := Probe.proc_exit.
Definition show_code := Probe.show_code.
Definition is_zero := Probe.is_zero.

(** The [ffmpeg] invocations, with the arguments that vary. *)
Inductive spawn_call :=
| FfmpegVersion
| FfmpegTranscode (inputPath outputPath : string)
| FfmpegThumbnail (inputPath : string) (timestamp : Q) (outputPath : string)
| FfmpegHls (inputPath : string) (variant : VideoVariant)
            (playlistPath : string).

(** The [fs] calls. *)
Inductive fs_call :=
| Mkdir (path : string)
| WriteFile (path content : string).

(** [processVideoWithAdaptiveStreaming]'s return value. *)
Record PipelineResult := {
  hlsPlaylist : string;
  thumbnails : list string;
  preview : option string;
  variants : list VideoVariant
}.

(** The [status] union of a registry entry. *)
Inductive Status := Queued | Processing | Completed | Error.

(** The string literal each status is at run time. *)
Definition status_name (s : Status) : string :=
  match s with
  | Queued => "queued"
  | Processing => "processing"
  | Completed => "completed"
  | Error => "error"
  end.

(** A registry entry.  A field that is [None] is absent from the
    object ([progress] is, when an entry is rebuilt by spreading
    [undefined]). *)
Record Job := {
  status : Status;
  progress : option Z;
  result : option PipelineResult;
  error : option string;
  startTime : option Z
}.

(** A task: straight-line code between suspensions.  It suspends only
    on the outside world ([AwaitProbe], [AwaitSpawn], [AwaitFs]);
    reading the clock and the registry is immediate. *)
Inductive Task (A : Type) : Type :=
| Return (a : A)
| Throw (message : string)
| AwaitProbe (inputPath : string) (k : outcome VideoInfo -> Task A)
| AwaitSpawn (c : spawn_call) (k : proc_exit -> Task A)
| AwaitFs (c : fs_call) (k : option string -> Task A)
| DateNow (k : Z -> Task A)
| QueueGet (id : string) (k : option Job -> Task A)
| QueueSet (id : string) (j : Job) (k : Task A).
Arguments Return {A} a.
Arguments Throw {A} message.
Arguments AwaitProbe {A} inputPath k.
Arguments AwaitSpawn {A} c k.
Arguments AwaitFs {A} c k.
Arguments DateNow {A} k.
Arguments QueueGet {A} id k.
Arguments QueueSet {A} id j k.

Fixpoint bind {A B} (t : Task A) (f : A -> Task B) : Task B :=
  match t with
  | Return a => f a
  | Throw message => Throw message
  | AwaitProbe p k => AwaitProbe p (fun r => bind (k r) f)
  | AwaitSpawn c k => AwaitSpawn c (fun r => bind (k r) f)
  | AwaitFs c k => AwaitFs c (fun r => bind (k r) f)
  | DateNow k => DateNow (fun t => bind (k t) f)
  | QueueGet id k => QueueGet id (fun o => bind (k o) f)
  | QueueSet id j k => QueueSet id j (bind k f)
  end.

#[export] Instance Task_ret : MRet Task := @Return.
#[export] Instance Task_bind : MBind Task := fun A B f t => bind t f.

(** [try { t } catch (error) { handler(error.message) }]. *)
Fixpoint try_catch {A} (t : Task A) (handler : string -> Task A) : Task A :=
  match t with
  | Return a => Return a
  | Throw message => handler message
  | AwaitProbe p k => AwaitProbe p (fun r => try_catch (k r) handler)
  | AwaitSpawn c k => AwaitSpawn c (fun r => try_catch (k r) handler)
  | AwaitFs c k => AwaitFs c (fun r => try_catch (k r) handler)
  | DateNow k => DateNow (fun t => try_catch (k t) handler)
  | QueueGet id k => QueueGet id (fun o => try_catch (k o) handler)
  | QueueSet id j k => QueueSet id j (try_catch k handler)
  end.

(** Settling an awaited promise: its value, or a throw. *)
Definition settle {A} (o : outcome A) : Task A :=
  match o with Resolved a => Return a | Rejected message => Throw message end.

(** ** The registry's synchronous interface *)

(** [queue.get(jobId)]. *)
Definition getJobStatus (jobId : string) (queue : gmap string Job)
  : option Job := queue !! jobId.

(** [cancelJob(jobId)]: the boolean returned, and the registry after. *)
Definition cancelJob (jobId : string) (queue : gmap string Job)
  : bool * gmap string Job :=
  match queue !! jobId with
  | Some job =>
      match status job with
      | Queued => (true, delete jobId queue)
      | _ => (false, queue)
      end
  | None => (false, queue)
  end.

(** ** Running tasks *)

(** What other callers do with the registry while a task is suspended:
    cancel, poll, or (another job's task) write an entry. *)
Inductive api_call :=
| CallCancel (jobId : string)
| CallGetStatus (jobId : string)
| OtherWrite (jobId : string) (j : Job).

(** All that happened, in order. *)
Inductive event :=
| Probed (inputPath : string) (r : outcome VideoInfo)
| Spawned (c : spawn_call) (r : proc_exit)
| FsDone (c : fs_call) (r : option string)
| Stored (jobId : string) (j : Job)
| CancelCalled (jobId : string) (r : bool)
| StatusRead (jobId : string) (r : option Job).

(** The outside world answers from the history so far: how a probe
    settles, how a child exits, whether a file-system call throws
    ([Some message]), what the clock shows, and what other callers do
    during a suspension. *)
Record World := {
  ffprobe : list event -> string -> outcome VideoInfo;
  child_process : list event -> spawn_call -> proc_exit;
  file_system : list event -> fs_call -> option string;
  Date_now : list event -> Z;
  others : list event -> list api_call
}.

Record State := {
  history : list event;
  queue : gmap string Job
}.

Definition record (e : event) (s : State) : State :=
  {| history := history s ++ [e]; queue := queue s |}.

Definition store (jobId : string) (j : Job) (s : State) : State :=
  {| history := history s ++ [Stored jobId j];
     queue := <[jobId := j]> (queue s) |}.

Definition api_step (s : State) (c : api_call) : State :=
  match c with
  | CallCancel jobId =>
      {| history := history s ++ [CancelCalled jobId (cancelJob jobId (queue s)).1];
         queue := (cancelJob jobId (queue s)).2 |}
  | CallGetStatus jobId =>
      record (StatusRead jobId (getJobStatus jobId (queue s))) s
  | OtherWrite jobId j => store jobId j s
  end.

(** A suspension: the other callers take their turns. *)
Definition suspend (w : World) (s : State) : State :=
  foldl api_step s (others w (history s)).

(** Run a task to its end. *)
Fixpoint run {A} (w : World) (t : Task A) (s : State) : State * outcome A :=
  match t with
  | Return a => (s, Resolved a)
  | Throw message => (s, Rejected message)
  | AwaitProbe p k =>
      let s1 := suspend w s in
      let r := ffprobe w (history s1) p in
      run w (k r) (record (Probed p r) s1)
  | AwaitSpawn c k =>
      let s1 := suspend w s in
      let r := child_process w (history s1) c in
      run w (k r) (record (Spawned c r) s1)
  | AwaitFs c k =>
      let s1 := suspend w s in
      let r := file_system w (history s1) c in
      run w (k r) (record (FsDone c r) s1)
  | DateNow k => run w (k (Date_now w (history s))) s
  | QueueGet id k => run w (k (queue s !! id)) s
  | QueueSet id j k => run w k (store id j s)
  end.

(** Run a task up to its first suspension: the part of an [async]
    function that its caller waits for. *)
Fixpoint start {A} (w : World) (t : Task A) (s : State) : State * Task A :=
  match t with
  | DateNow k => start w (k (Date_now w (history s))) s
  | QueueGet id k => start w (k (queue s !! id)) s
  | QueueSet id j k => start w k (store id j s)
  | _ => (s, t)
  end.

End Async.

(** ** The pipeline and the job queue *)

Module Pipeline.

Export Async.

(** Node's [path.join]. *)
Class PathModule := path_join : string -> string -> string.

(** The line feed of the playlist's template literals. *)
Definition nl : string := String (Ascii.ascii_of_nat 10) EmptyString.

(** The [options] of [processVideoWithAdaptiveStreaming]; [None] is a
    property left out.  ([watermark] and [previewDuration] are never
    read.) *)
Record Options := {
  opt_generateThumbnails : option bool;
  opt_thumbnailCount : option Z;
  opt_generatePreview : option bool;
  opt_previewDuration : option Z;
  opt_onProgress : option (Z -> string -> Task unit)
}.

Section FFmpegProcessor.
Context `{PathModule}.

(** [await fs.mkdir(path, { recursive: true })]. *)
Definition fs_mkdir (path : string) : Task unit :=
  AwaitFs (Mkdir path)
    (fun r => match r with None => Return tt | Some message => Throw message end).

(** [await fs.writeFile(path, content)]. *)
Definition fs_writeFile (path content : string) : Task unit :=
  AwaitFs (WriteFile path content)
    (fun r => match r with None => Return tt | Some message => Throw message end).

(** [FFmpegProcessor.probe(inputPath)], awaited. *)
Definition probe (inputPath : string) : Task VideoInfo :=
  AwaitProbe inputPath settle.

(** [checkFFmpegAvailability]. *)
Definition checkFFmpegAvailability : Task bool :=
  AwaitSpawn FfmpegVersion
    (fun r => match r with
              | Probe.Close code => Return (is_zero code)
              | Probe.SpawnError _ => Return false
              end).

(** [FFmpegProcessor.transcode] without an [onProgress] option, as the
    pipeline calls it.  The probe it starts only feeds the progress
    callback, so its settlement is dropped. *)
Definition transcode (inputPath outputPath : string) : Task unit :=
  isAvailable ← checkFFmpegAvailability;
  if negb isAvailable
  then Throw "FFmpeg not found. Please install FFmpeg."
  else
    AwaitProbe inputPath (fun _ =>
    AwaitSpawn (FfmpegTranscode inputPath outputPath)
      (fun r => match r with
                | Probe.Close code =>
                    if is_zero code then Return tt
                    else Throw ("FFmpeg process exited with code "
                                  ++ show_code code)
                | Probe.SpawnError message =>
                    Throw ("FFmpeg spawn error: " ++ message)
                end)).

(** The [for (let i = 1; i <= count; i++)] loop of
    [generateThumbnails]; [n] counts the iterations left. *)
Fixpoint thumbnail_loop (inputPath outputDir : string) (interval : Q)
         (n : nat) (i : Z) (thumbnails : list string)
  : Task (list string) :=
  match n with
  | O => Return thumbnails
  | S n' =>
      let timestamp := (interval * inject_Z i)%Q in
      let outputPath :=
        path_join outputDir ("thumbnail_" ++ show_Z i ++ ".jpg") in
      AwaitSpawn (FfmpegThumbnail inputPath timestamp outputPath)
        (fun r => match r with
                  | Probe.Close code =>
                      if is_zero code
                      then thumbnail_loop inputPath outputDir interval n'
                             (i + 1) (thumbnails ++ [outputPath])
                      else Throw ("Thumbnail generation failed with code "
                                    ++ show_code code)
                  | Probe.SpawnError message => Throw message
                  end)
  end.

(** [FFmpegProcessor.generateThumbnails(inputPath, outputDir, count)]. *)
Definition generateThumbnails (inputPath outputDir : string) (count : Z)
  : Task (list string) :=
  info ← probe inputPath;
  let duration := info_duration info in
  let interval := (duration / inject_Z (count + 1))%Q in
  thumbnail_loop inputPath outputDir interval (Z.to_nat count) 1 [].

(** The two lines a variant adds to the master playlist.  The numbers
    are printed with all their digits, as the template literals print a
    safe integer. *)
Definition stream_inf (variant : VideoVariant) : string :=
  "#EXT-X-STREAM-INF:BANDWIDTH=" ++ show_Z (bitrate variant * 1000)
    ++ ",RESOLUTION=" ++ show_Z (width variant) ++ "x"
    ++ show_Z (height variant) ++ nl
    ++ name variant ++ "/index.m3u8" ++ nl.

(** The [for (const variant of variants)] loop of
    [createHLSPlaylist]. *)
Fixpoint hls_loop (inputPath outputDir : string)
         (variants : list VideoVariant) (masterContent : string)
  : Task string :=
  match variants with
  | [] => Return masterContent
  | variant :: rest =>
      let variantDir := path_join outputDir (name variant) in
      AwaitFs (Mkdir variantDir)
        (fun m => match m with
         | Some message => Throw message
         | None =>
             let playlistPath := path_join variantDir "index.m3u8" in
             AwaitSpawn (FfmpegHls inputPath variant playlistPath)
               (fun r => match r with
                | Probe.Close code =>
                    if is_zero code
                    then hls_loop inputPath outputDir rest
                           (masterContent ++ stream_inf variant)
                    else Throw ("HLS generation failed for "
                                  ++ name variant)
                | Probe.SpawnError message => Throw message
                end)
         end)
  end.

Definition master_header : string :=
  "#EXTM3U" ++ nl ++ "#EXT-X-VERSION:6" ++ nl.

(** [FFmpegProcessor.createHLSPlaylist(inputPath, outputDir, variants)]. *)
Definition createHLSPlaylist (inputPath outputDir : string)
           (variants : list VideoVariant) : Task string :=
  let masterPlaylistPath := path_join outputDir "master.m3u8" in
  masterContent ← hls_loop inputPath outputDir variants master_header;
  _ ← fs_writeFile masterPlaylistPath masterContent;
  Return masterPlaylistPath.

(** [options.thumbnailCount || 5]. *)
Definition thumbnailCount_or_5 (options : Options) : Z :=
  match opt_thumbnailCount options with
  | Some c => if (c =? 0)%Z then 5 else c
  | None => 5
  end.

(** [processVideoWithAdaptiveStreaming(inputPath, outputDir, options)]. *)
Definition processVideoWithAdaptiveStreaming
           (inputPath outputDir : string) (options : Options)
  : Task PipelineResult :=
  _ ← fs_mkdir outputDir;
  let onProgress :=
    default (fun _ _ => Return tt) (opt_onProgress options) in
  try_catch
    (_ ← onProgress 5 "Analyzing video";
     videoInfo ← probe inputPath;
     _ ← onProgress 10 "Planning quality variants";
     let variants :=
       generateOptimalVariants (info_width videoInfo)
         (info_height videoInfo) (info_duration videoInfo) in
     thumbnails ←
       (if negb (bool_decide (opt_generateThumbnails options = Some false))
        then
          _ ← onProgress 20 "Generating thumbnails";
          let thumbnailDir := path_join outputDir "thumbnails" in
          _ ← fs_mkdir thumbnailDir;
          generateThumbnails inputPath thumbnailDir
            (thumbnailCount_or_5 options)
        else Return []);
     preview ←
       (if bool_decide (opt_generatePreview options = Some true)
        then
          _ ← onProgress 30 "Creating preview clip";
          let previewPath := path_join outputDir "preview.mp4" in
          _ ← transcode inputPath previewPath;
          Return (Some previewPath)
        else Return None);
     _ ← onProgress 40 "Creating adaptive streaming variants";
     hlsPlaylist ← createHLSPlaylist inputPath outputDir variants;
     _ ← onProgress 100 "Processing complete";
     Return {| hlsPlaylist := hlsPlaylist;
               thumbnails := thumbnails;
               preview := preview;
               variants := variants |})
    (fun message => Throw message).

End FFmpegProcessor.

(** ** [class VideoProcessingQueue] *)

Section VideoProcessingQueue.
Context `{PathModule}.

(** [{ ...this.queue.get(jobId)!, status: s }]: spreading
    [undefined] contributes no property. *)
Definition spread (entry : option Job) (s : Status) : Job :=
  match entry with
  | Some job =>
      {| status := s; progress := progress job; result := result job;
         error := error job; startTime := startTime job |}
  | None =>
      {| status := s; progress := None; result := None;
         error := None; startTime := None |}
  end.

Definition with_progress (p : Z) (job : Job) : Job :=
  {| status := status job; progress := Some p; result := result job;
     error := error job; startTime := startTime job |}.

Definition with_result (r : PipelineResult) (job : Job) : Job :=
  {| status := status job; progress := progress job; result := Some r;
     error := error job; startTime := startTime job |}.

Definition with_error (message : string) (job : Job) : Job :=
  {| status := status job; progress := progress job; result := result job;
     error := Some message; startTime := startTime job |}.

(** The callback [processJob] passes as [onProgress]. *)
Definition job_onProgress (jobId : string) (p : Z) (stage : string)
  : Task unit :=
  QueueGet jobId (fun entry =>
  QueueSet jobId (with_progress p (spread entry Processing)) (Return tt)).

(** [processJob(jobId, inputPath, outputDir, options)]. *)
Definition processJob (jobId inputPath outputDir : string)
           (options : Options) : Task unit :=
  try_catch
    (QueueGet jobId (fun entry =>
     QueueSet jobId (spread entry Processing)
       (result ← processVideoWithAdaptiveStreaming inputPath outputDir
          {| opt_generateThumbnails := opt_generateThumbnails options;
             opt_thumbnailCount := opt_thumbnailCount options;
             opt_generatePreview := opt_generatePreview options;
             opt_previewDuration := opt_previewDuration options;
             opt_onProgress := Some (job_onProgress jobId) |};
        QueueGet jobId (fun entry' =>
        QueueSet jobId
          (with_result result (with_progress 100 (spread entry' Completed)))
          (Return tt)))))
    (fun message =>
       QueueGet jobId (fun entry =>
       QueueSet jobId (with_error message (spread entry Error))
         (Return tt))).

(** All that [addJob(jobId, ...)] sets going: the entry it stores and
    the background [processJob] with its [.catch] handler. *)
Definition addJob_task (jobId inputPath outputDir : string)
           (options : Options) : Task unit :=
  DateNow (fun now =>
  QueueSet jobId
    {| status := Queued; progress := Some 0; result := None;
       error := None; startTime := Some now |}
    (try_catch (processJob jobId inputPath outputDir options)
       (fun message =>
          QueueGet jobId (fun entry =>
          QueueSet jobId (with_error message (spread entry Error))
            (Return tt))))).

(** [addJob] as its caller sees it.  The body has no [await] and
    nothing in it throws, so the promise resolves; by then the task
    has run up to its first suspension and the rest, returned as the
    third component, goes on in the background. *)
Definition addJob (w : World) (jobId inputPath outputDir : string)
           (options : Options) (s : State)
  : State * outcome unit * Task unit :=
  let '(s', background) :=
    start w (addJob_task jobId inputPath outputDir options) s in
  (s', Resolved tt, background).

(** A job from submission to its last write. *)
Definition run_job (w : World) (jobId inputPath outputDir : string)
           (options : Options) (s : State) : State :=
  let '(s', _, background) :=
    addJob w jobId inputPath outputDir options s in
  (run w background s').1.

End VideoProcessingQueue.

(** ** Observations on a history *)

(** A child process that exited with code 0. *)
Definition exit_ok : proc_exit := Probe.Close (Some 0).

(** The events recorded between two states of one run. *)
Definition events_since (s s' : State) : list event :=
  drop (length (history s)) (history s').

(** The progress values stored for [jobId], oldest first. *)
Definition progress_trace (jobId : string) (h : list event)
  : list (option Z) :=
  flat_map (fun e => match e with
                     | Stored id j =>
                         if String.eqb id jobId then [progress j] else []
                     | _ => []
                     end) h.

(** The statuses stored for [jobId], oldest first. *)
Definition status_trace (jobId : string) (h : list event) : list Status :=
  flat_map (fun e => match e with
                     | Stored id j =>
                         if String.eqb id jobId then [status j] else []
                     | _ => []
                     end) h.

(** How the probes settled. *)
Definition probed (h : list event) : list (outcome VideoInfo) :=
  flat_map (fun e => match e with Probed _ r => [r] | _ => [] end) h.

(** The thumbnail extractions that ran: timestamp, output path, exit. *)
Definition extractions (h : list event) : list (Q * string * proc_exit) :=
  flat_map (fun e => match e with
                     | Spawned (FfmpegThumbnail _ timestamp outputPath) r =>
                         [(timestamp, outputPath, r)]
                     | _ => []
                     end) h.

(** The timestamps of the thumbnail extractions requested. *)
Definition requested_timestamps (h : list event) : list Q :=
  map (fun x => x.1.1) (extractions h).

(** The variants whose segment encode ran, each with how it ended. *)
Definition encodes (h : list event) : list (VideoVariant * proc_exit) :=
  flat_map (fun e => match e with
                     | Spawned (FfmpegHls _ variant _) r => [(variant, r)]
                     | _ => []
                     end) h.

(** The files written. *)
Definition writes (h : list event) : list (string * string) :=
  flat_map (fun e => match e with
                     | FsDone (WriteFile path content) None => [(path, content)]
                     | _ => []
                     end) h.

(** The answers other callers got from [cancelJob(jobId)]. *)
Definition cancel_answers (jobId : string) (h : list event) : list bool :=
  flat_map (fun e => match e with
                     | CancelCalled id r =>
                         if String.eqb id jobId then [r] else []
                     | _ => []
                     end) h.

(** An event of another caller. *)
Definition api_event (e : event) : Prop :=
  match e with
  | Stored _ _ | CancelCalled _ _ | StatusRead _ _ => True
  | _ => False
  end.

(** No other caller writes the entry of [jobId]: the job is not
    submitted again while it runs. *)
Definition single_writer (w : World) (jobId : string) : Prop :=
  forall h id j, OtherWrite id j ∈ others w h -> id <> jobId.

End Pipeline.

(** * Specification vocabulary *)

Import Pipeline.

(** ** Planner *)

(** A plan that is one fallback variant: within the source's own
    dimensions, within 854x480, and not a rung of the ladder. *)
Definition is_fallback_plan (w h : Z) (plan : list VideoVariant) : Prop :=
  exists v, plan = [v]
    /\ width v <= w /\ height v <= h /\ width v <= 854 /\ height v <= 480
    /\ Forall (fun config => v <> ladder_variant config) qualityConfigs.

(** ** Thumbnails *)

(** [count] timestamps [duration / (count + 1) * i], [i = 1..count]. *)
Definition spaced_timestamps (duration : Q) (count : Z) : list Q :=
  map (fun i => (duration / inject_Z (count + 1) * inject_Z (Z.of_nat i))%Q)
      (seq 1 (Z.to_nat count)).

(** The file the [i]-th extraction writes. *)
Definition thumbnail_path `{PathModule} (outputDir : string) (i : nat)
  : string :=
  path_join outputDir ("thumbnail_" ++ show_Z (Z.of_nat i) ++ ".jpg").

(** The extraction of iteration [i], ending with [r]. *)
Definition extraction_at `{PathModule} (outputDir : string) (interval : Q)
           (i : Z) (r : proc_exit) : Q * string * proc_exit :=
  ((interval * inject_Z i)%Q,
   path_join outputDir ("thumbnail_" ++ show_Z i ++ ".jpg"), r).

(** ** Manifest *)

(** The master playlist for a list of variants: the header, then each
    variant's two lines in order. *)
Definition master_playlist (variants : list VideoVariant) : string :=
  foldl (fun content variant => content ++ stream_inf variant)
        master_header variants.

(** A variant's segment encode that exited with code 0. *)
Definition encoded (variant : VideoVariant) : VideoVariant * proc_exit :=
  (variant, exit_ok).

(** ** A job in flight *)

(** The job [jobId], submitted when the history was [h0], is in flight:
    its entry is [processing] at progress [lo]; [enc] are the encodes
    and [wr] the files written since, and [seen] are events recorded
    since. *)
Record in_flight (jobId : string) (h0 : list event) (lo : Z)
       (enc : list (VideoVariant * proc_exit)) (wr : list (string * string))
       (seen : list event) (s : State) : Prop := {
  flight_entry :
    exists j, queue s !! jobId = Some j /\ status j = Processing
              /\ progress j = Some lo /\ result j = None /\ error j = None;
  flight_events :
    exists evs, history s = (h0 ++ evs)%list
      /\ (exists tr, progress_trace jobId evs = Some <$> tr
                     /\ Sorted Z.le tr /\ last tr = Some lo)
      /\ (exists n, status_trace jobId evs = Queued :: replicate (S n) Processing)
      /\ Forall (eq false) (cancel_answers jobId evs)
      /\ encodes evs = enc /\ writes evs = wr
      /\ Forall (fun e => e ∈ evs) seen
}.

(** A task that neither touches the registry, nor encodes a variant,
    nor writes a file. *)
Fixpoint quiet {A} (t : Task A) : Prop :=
  match t with
  | Return _ | Throw _ => True
  | AwaitProbe _ k => forall r, quiet (k r)
  | AwaitSpawn c k =>
      match c with FfmpegHls _ _ _ => False | _ => True end
      /\ forall r, quiet (k r)
  | AwaitFs c k =>
      match c with WriteFile _ _ => False | _ => True end
      /\ forall r, quiet (k r)
  | DateNow k => forall now, quiet (k now)
  | QueueGet _ _ | QueueSet _ _ _ => False
  end.

(** How a job ended: the events [evs] it added to the history and the
    entry [j] it left, read off the final state [s'] against the state
    [s] it was submitted in. *)
Record job_report `{PathModule} (jobId inputPath outputDir : string)
       (s s' : State) (evs : list event) (j : Job) : Prop := {
  report_history : history s' = (history s ++ evs)%list;
  report_entry : queue s' !! jobId = Some j;
  report_progress :
    exists tr, progress_trace jobId evs = Some <$> tr
               /\ Sorted Z.le tr /\ last (Some <$> tr) = Some (progress j);
  report_statuses :
    exists n, status_trace jobId evs
              = (Queued :: replicate (S n) Processing ++ [status j])%list;
  report_cancels : Forall (eq false) (cancel_answers jobId evs);
  report_end :
    (status j = Completed /\ progress j = Some 100 /\ error j = None
     /\ exists res info,
          result j = Some res
          /\ Probed inputPath (Resolved info) ∈ evs
          /\ variants res = generateOptimalVariants (info_width info)
                              (info_height info) (info_duration info)
          /\ hlsPlaylist res = path_join outputDir "master.m3u8"
          /\ encodes evs = map encoded (variants res)
          /\ writes evs = [(hlsPlaylist res, master_playlist (variants res))])
    \/ (status j = Error /\ result j = None /\ writes evs = []
        /\ exists message, error j = Some message)
}.

(** ** The spec's sentences, as they are written *)



(** Spec 4.5: [addJob] on an id whose job is queued or processing
    rejects and leaves the entry as it was. *)
Definition rejects_duplicate `{PathModule} (w : World)
           (jobId inputPath outputDir : string) (options : Options)
           (s : State) : Prop :=
  forall job, queue s !! jobId = Some job ->
    status job = Queued \/ status job = Processing ->
    is_rejected (addJob w jobId inputPath outputDir options s).1.2 = true
    /\ queue (addJob w jobId inputPath outputDir options s).1.1 !! jobId
       = Some job.

(** ** Sample inputs *)

(** [path.join] on segments that need no normalising. *)
Definition posix_join : PathModule := fun a b => a ++ "/" ++ b.

(** A world in which every call succeeds, the source is [width] x
    [height] and lasts [duration] seconds, and [calls] are what other
    callers do at each suspension. *)
Definition calm_world (duration : Q) (width height : Z)
           (calls : list api_call) : World :=
  {| ffprobe := fun _ _ =>
       Resolved {| info_duration := duration; info_width := width;
                   info_height := height |};
     child_process := fun _ _ => exit_ok;
     file_system := fun _ _ => None;
     Date_now := fun _ => 1700000000000;
     others := fun _ => calls |}.

(** The same world, except that the encode of the variant named
    [failing] exits with code 1. *)
Definition world_with_failing_encode (failing : string) : World :=
  {| ffprobe := ffprobe (calm_world 600 1920 1080 []);
     child_process := fun _ c =>
       match c with
       | FfmpegHls _ variant _ =>
           if String.eqb (name variant) failing
           then Probe.Close (Some 1) else exit_ok
       | _ => exit_ok
       end;
     file_system := file_system (calm_world 600 1920 1080 []);
     Date_now := Date_now (calm_world 600 1920 1080 []);
     others := others (calm_world 600 1920 1080 []) |}.

(** The same world, except that the second thumbnail extraction exits
    with code 1. *)
Definition world_with_failing_thumbnail : World :=
  {| ffprobe := ffprobe (calm_world 100 1920 1080 []);
     child_process := fun h c =>
       match c with
       | FfmpegThumbnail _ _ _ =>
           if (length (extractions h) =? 1)%nat
           then Probe.Close (Some 1) else exit_ok
       | _ => exit_ok
       end;
     file_system := file_system (calm_world 100 1920 1080 []);
     Date_now := Date_now (calm_world 100 1920 1080 []);
     others := others (calm_world 100 1920 1080 []) |}.

Definition no_options : Options :=
  {| opt_generateThumbnails := None; opt_thumbnailCount := None;
     opt_generatePreview := None; opt_previewDuration := None;
     opt_onProgress := None |}.

Definition fresh : State := {| history := []; queue := ∅ |}.

(** A registry in which job [a] is half-way through. *)
Definition busy : State :=
  {| history := [];
     queue := {[ "a" := {| status := Processing; progress := Some 40;
                           result := None; error := None;
                           startTime := Some 1600000000000 |} ]} |}.

(** A registry in which job [a] has just been stored. *)
Definition waiting : gmap string Job :=
  {[ "a" := {| status := Queued; progress := Some 0; result := None;
               error := None; startTime := Some 1600000000000 |} ]}.

(** ** Sample runs *)

Definition rung_360p : QualityConfig :=
  {| cfg_name := "360p"; cfg_width := 640; cfg_height := 360;
     cfg_bitrate := 800; maxSourceHeight := 360 |}.


(** A job that another caller keeps trying to cancel and polling. *)
Definition completed_run : State :=
  @run_job posix_join
    (calm_world 600 1920 1080 [CallCancel "job-1"; CallGetStatus "job-1"])
    "job-1" "in.mp4" "out" no_options fresh.

(** Five thumbnails of a 100-second source. *)
Definition thumbnail_run : State * outcome (list string) :=
  run (calm_world 100 1920 1080 [])
      (@generateThumbnails posix_join "in.mp4" "out" 5) fresh.

(** The same, with the second extraction failing. *)
Definition failed_thumbnail_run : State * outcome (list string) :=
  run world_with_failing_thumbnail
      (@generateThumbnails posix_join "in.mp4" "out" 5) fresh.

(** * Further code of [video-streaming.ts] and of its callers *)

(** ** Observations, continued *)

(** The child processes that ran, each with how it ended. *)
Definition spawns (h : list event) : list (spawn_call * proc_exit) :=
  flat_map (fun e => match e with Spawned c r => [(c, r)] | _ => [] end) h.

(** The paths the events create or write: directories made, files
    written, and the output files handed to [ffmpeg]. *)
Definition touched_paths (h : list event) : list string :=
  flat_map (fun e => match e with
                     | FsDone (Mkdir path) _ => [path]
                     | FsDone (WriteFile path _) _ => [path]
                     | Spawned (FfmpegTranscode _ outputPath) _ => [outputPath]
                     | Spawned (FfmpegThumbnail _ _ outputPath) _ => [outputPath]
                     | Spawned (FfmpegHls _ _ playlistPath) _ => [playlistPath]
                     | _ => []
                     end) h.


(** Every event the task records itself satisfies [P], whatever the
    world answers. *)
Fixpoint emits {A} (P : event -> Prop) (t : Task A) : Prop :=
  match t with
  | Return _ | Throw _ => True
  | AwaitProbe p k => forall r, P (Probed p r) /\ emits P (k r)
  | AwaitSpawn c k => forall r, P (Spawned c r) /\ emits P (k r)
  | AwaitFs c k => forall r, P (FsDone c r) /\ emits P (k r)
  | DateNow k => forall now, emits P (k now)
  | QueueGet _ k => forall entry, emits P (k entry)
  | QueueSet id j k => P (Stored id j) /\ emits P k
  end.

(** The [onProgress] callback, when there is one, only touches the
    registry. *)
Definition callback_quiet (options : Options) : Prop :=
  match opt_onProgress options with
  | Some onProgress =>
      forall p stage, emits api_event (onProgress p stage)
  | None => True
  end.

(** [options.generateThumbnails !== false]. *)
Definition thumbnails_enabled (options : Options) : bool :=
  negb (bool_decide (opt_generateThumbnails options = Some false)).

(** [options.generatePreview], as a condition. *)
Definition preview_enabled (options : Options) : bool :=
  bool_decide (opt_generatePreview options = Some true).

(** ** [FFmpegProcessor.transcode]: the argument vector and the progress
    callback *)

Module TranscodeArgs.

(** The [options] of [transcode]; [None] is a property left out.
    Numbers are integral here. *)
Record TranscodeOptions := {
  width : option Z;
  height : option Z;
  bitrate : option string;
  fps : option Z;
  codec : option string;
  preset : option string;
  crf : option Z;
  format : option string;
  audioCodec : option string;
  audioBitrate : option string
}.

(** ToBoolean of an optional string: [undefined] and [''] are falsy. *)
Definition truthy_string (o : option string) : bool :=
  match o with Some s => negb (String.eqb s "") | None => false end.

(** ToBoolean of an optional number: [undefined] and [0] are falsy. *)
Definition truthy_number (o : option Z) : bool :=
  match o with Some n => negb (n =? 0)%Z | None => false end.

(** The [args] array [transcode] hands to [spawn('ffmpeg', args)]. *)
Definition transcode_args (inputPath outputPath : string)
           (options : TranscodeOptions) : list string :=
  let args := ["-i"; inputPath; "-y"; "-hide_banner"; "-loglevel"; "error";
               "-progress"; "pipe:1"] in
  let args := if truthy_string (codec options)
              then (args ++ ["-c:v"; default "" (codec options)])%list
              else (args ++ ["-c:v"; "libx264"])%list in
  let args := if truthy_string (preset options)
              then (args ++ ["-preset"; default "" (preset options)])%list
              else args in
  let args := match crf options with
              | Some c => (args ++ ["-crf"; show_Z c])%list
              | None => args
              end in
  let args := if truthy_number (width options) && truthy_number (height options)
              then (args ++ ["-s"; (show_Z (default 0 (width options)) ++ "x"
                                     ++ show_Z (default 0 (height options)))%string])%list
              else args in
  let args := if truthy_number (fps options)
              then (args ++ ["-r"; show_Z (default 0 (fps options))])%list
              else args in
  let args := if truthy_string (bitrate options)
              then (args ++ ["-b:v"; default "" (bitrate options)])%list
              else args in
  let args := if truthy_string (audioCodec options)
              then (args ++ ["-c:a"; default "" (audioCodec options)])%list
              else (args ++ ["-c:a"; "aac"])%list in
  let args := if truthy_string (audioBitrate options)
              then (args ++ ["-b:a"; default "" (audioBitrate options)])%list
              else args in
  let args := if truthy_string (format options)
              then (args ++ ["-f"; default "" (format options)])%list
              else args in
  (args ++ [outputPath])%list.

(** The options the pipeline passes for the preview clip. *)
Definition preview_options (videoInfo : VideoInfo) : TranscodeOptions :=
  {| codec := Some "libx264";
     preset := Some "fast";
     crf := Some 23;
     width := Some (Z.min (info_width videoInfo) 640);
     height := Some (Z.min (info_height videoInfo) 360);
     format := Some "mp4";
     bitrate := None; fps := None; audioCodec := None; audioBitrate := None |}.

(** How many of the optional settings add a flag and a value. *)
Definition settings_present (options : TranscodeOptions) : nat :=
  (Nat.b2n (truthy_string (preset options))
   + Nat.b2n (bool_decide (crf options <> None))
   + Nat.b2n (truthy_number (width options) && truthy_number (height options))
   + Nat.b2n (truthy_number (fps options))
   + Nat.b2n (truthy_string (bitrate options))
   + Nat.b2n (truthy_string (audioBitrate options))
   + Nat.b2n (truthy_string (format options)))%nat.

(** The body of the [stdout] handler after the match of
    [/time=(\d+):(\d+):(\d+\.\d+)/]: [timeMatch] holds the three groups
    read as numbers, when the chunk matched; [hasCallback] is whether
    [options.onProgress] was given.  The result is the pair the callback
    is called with. *)
Definition progress_report (timeMatch : option (Z * Z * Q))
           (totalDuration : Q) (hasCallback : bool) : option (Q * Q) :=
  match timeMatch with
  | Some (hours, minutes, seconds) =>
      if Qlt_le_dec 0 totalDuration then
        if hasCallback then
          let currentTime :=
            (inject_Z hours * 3600 + inject_Z minutes * 60 + seconds)%Q in
          let progress := (currentTime / totalDuration * 100)%Q in
          Some (Qmin progress 100, currentTime)
        else None
      else None
  | None => None
  end.

End TranscodeArgs.

(** ** Legacy [startStream] and [class VideoStreamingService] *)

Module Streams.

(** [interface StreamConfig], the required properties.  (The optional
    encoder settings are never read.) *)
Record StreamConfig := {
  inputUrl : string;
  outputPath : string;
  streamKey : string;
  quality : string
}.

(** What [createStream] stores for a stream. *)
Record StreamEntry := {
  stream_config : StreamConfig;
  stream_result : PipelineResult;
  stream_status : string;
  stream_startTime : Z
}.

(** A JavaScript [Map] with string keys: its entries in insertion
    order. *)
Definition js_map (V : Type) : Type := list (string * V).

(** [map.get(key)]. *)
Fixpoint map_get {V} (key : string) (m : js_map V) : option V :=
  match m with
  | [] => None
  | (k, v) :: rest => if String.eqb k key then Some v else map_get key rest
  end.

(** [map.set(key, value)]: a key already present keeps its place. *)
Fixpoint map_set {V} (key : string) (value : V) (m : js_map V) : js_map V :=
  match m with
  | [] => [(key, value)]
  | (k, v) :: rest =>
      if String.eqb k key then (key, value) :: rest
      else (k, v) :: map_set key value rest
  end.

(** [map.delete(key)]. *)
Fixpoint map_delete {V} (key : string) (m : js_map V) : js_map V :=
  match m with
  | [] => []
  | (k, v) :: rest =>
      if String.eqb k key then rest else (k, v) :: map_delete key rest
  end.

(** A [Map] holds each key once. *)
Definition well_formed {V} (m : js_map V) : Prop := NoDup (map fst m).

Section Streams.
Context `{PathModule}.



End Streams.

(** [getStream(streamId)]. *)
Definition getStream (streamId : string) (activeStreams : js_map StreamEntry)
  : option StreamEntry := map_get streamId activeStreams.

(** [stopStream(streamId)]: the boolean resolved with, and the map
    after. *)
Definition stopStream (streamId : string) (activeStreams : js_map StreamEntry)
  : bool * js_map StreamEntry :=
  match map_get streamId activeStreams with
  | Some stream => (true, map_delete streamId activeStreams)
  | None => (false, activeStreams)
  end.

(** [listActiveStreams()]: id, config, status and start time of each
    entry. *)
Definition listActiveStreams (activeStreams : js_map StreamEntry)
  : list (string * StreamConfig * string * Z) :=
  map (fun entry =>
         (entry.1, stream_config entry.2, stream_status entry.2,
          stream_startTime entry.2)) activeStreams.

(** The calls a client of the service makes. *)
Inductive service_call :=
| Create (streamId : string) (entry : StreamEntry)
| Stop (streamId : string).

(** The map after a settled call; [Create] stands for a [createStream]
    that resolved and stored [entry]. *)
Definition service_step (activeStreams : js_map StreamEntry)
           (c : service_call) : js_map StreamEntry :=
  match c with
  | Create streamId entry => map_set streamId entry activeStreams
  | Stop streamId => (stopStream streamId activeStreams).2
  end.

End Streams.

(** ** The cancel route, [DELETE] of the upload handler *)

Module Routes.

(** [session.user], as far as the route reads it. *)
Record SessionUser := {
  role : option string;
  isAdmin : option bool
}.

(** A [NextResponse.json] reply. *)
Record Response := {
  http_status : Z;
  message : string
}.

(** [session.user.role !== "teacher" && !session.user.isAdmin]. *)
Definition permission_denied (user : SessionUser) : bool :=
  negb (bool_decide (role user = Some "teacher"))
  && negb (bool_decide (isAdmin user = Some true)).

(** [DELETE(req)]: [jobId] is [searchParams.get('jobId')]; [session] is
    how [getServerSession] settled, with [None] for no session and
    [Some None] for a session without user.  The result is the reply and
    the registry after. *)
Definition DELETE (jobId : option string)
           (session : outcome (option (option SessionUser)))
           (registry : gmap string Job) : Response * gmap string Job :=
  match jobId with
  | None => ({| http_status := 400; message := "Job ID required" |}, registry)
  | Some id =>
      if String.eqb id ""
      then ({| http_status := 400; message := "Job ID required" |}, registry)
      else
        match session with
        | Rejected _ =>
            ({| http_status := 500; message := "Internal server error" |},
             registry)
        | Resolved None | Resolved (Some None) =>
            ({| http_status := 401; message := "Unauthorized" |}, registry)
        | Resolved (Some (Some user)) =>
            if permission_denied user
            then ({| http_status := 403; message := "Permission denied" |},
                  registry)
            else
              let cancelled := cancelJob id registry in
              if cancelled.1
              then ({| http_status := 200;
                       message := "Processing job cancelled successfully" |},
                    cancelled.2)
              else ({| http_status := 404;
                       message := "Job not found or cannot be cancelled" |},
                    cancelled.2)
        end
  end.

End Routes.

(** ** [authorize] of the credentials provider *)

Module Auth.

Definition MAX_LOGIN_ATTEMPTS : Z := 5.
Definition LOCK_TIME : Z := 2 * 60 * 60 * 1000.

(** The [credentials] posted; a property is [None] when missing. *)
Record Credentials := {
  email : option string;
  password : option string;
  role : option string
}.

(** A user document, as far as [authorize] reads or writes it. *)
Record User := {
  _id : string;
  name : string;
  user_email : string;
  password_hash : string;
  profileImage : option string;
  isBlocked : option bool;
  loginAttempts : option Z;
  lockUntil : option Z;
  lastLogin : option Z
}.

(** The object [authorize] returns. *)
Record AuthUser := {
  auth_id : string;
  auth_name : string;
  auth_email : string;
  auth_role : string;
  auth_isAdmin : bool;
  auth_image : option string;
  auth_isBlocked : bool
}.

(** What [authorize] awaits: the connection, the lookup in the model of
    a role, the password comparison, the save; the clock; and the
    [isLocked] getter, which the user models define.  A [Some] answer of
    [dbConnect] or [save] is the error thrown. *)
Record Backend := {
  isLocked : User -> bool;
  dbConnect : option string;
  findOne : string -> string -> outcome (option User);
  bcrypt_compare : string -> string -> outcome bool;
  save : User -> option string;
  now : Z
}.

(** ToBoolean of an optional string. *)
Definition present (o : option string) : bool :=
  match o with Some s => negb (String.eqb s "") | None => false end.

(** The [switch (credentials.role)]. *)
Definition known_role (r : string) : bool :=
  String.eqb r "student" || String.eqb r "teacher" || String.eqb r "admin".

(** [authorize(credentials)]: how it settles, and the documents it
    saved. *)
Definition authorize (backend : Backend) (credentials : option Credentials)
  : outcome AuthUser * list User :=
  match credentials with
  | None => (Rejected "Missing credentials", [])
  | Some c =>
      if negb (present (email c)) || negb (present (password c))
         || negb (present (role c))
      then (Rejected "Missing credentials", [])
      else
        let email := default "" (email c) in
        let password := default "" (password c) in
        let role := default "" (role c) in
        match dbConnect backend with
        | Some e => (Rejected e, [])
        | None =>
            if negb (known_role role) then (Rejected "Invalid role", [])
            else
              match findOne backend role email with
              | Rejected e => (Rejected e, [])
              | Resolved None =>
                  (Rejected "No user found with this email", [])
              | Resolved (Some user) =>
                  if isLocked backend user
                  then (Rejected "Account is temporarily locked due to too many failed login attempts", [])
                  else if negb (String.eqb role "admin")
                          && bool_decide (isBlocked user = Some true)
                  then (Rejected "Your account has been blocked. Please contact support.", [])
                  else
                    match bcrypt_compare backend password (password_hash user) with
                    | Rejected e => (Rejected e, [])
                    | Resolved false =>
                        let attempts := default 0 (loginAttempts user) + 1 in
                        let user' :=
                          {| _id := _id user; name := name user;
                             user_email := user_email user;
                             password_hash := password_hash user;
                             profileImage := profileImage user;
                             isBlocked := isBlocked user;
                             loginAttempts := Some attempts;
                             lockUntil :=
                               if attempts >=? MAX_LOGIN_ATTEMPTS
                               then Some (now backend + LOCK_TIME)
                               else lockUntil user;
                             lastLogin := lastLogin user |} in
                        match save backend user' with
                        | Some e => (Rejected e, [])
                        | None => (Rejected "Invalid password", [user'])
                        end
                    | Resolved true =>
                        let user' :=
                          {| _id := _id user; name := name user;
                             user_email := user_email user;
                             password_hash := password_hash user;
                             profileImage := profileImage user;
                             isBlocked := isBlocked user;
                             loginAttempts := Some 0;
                             lockUntil := None;
                             lastLogin := Some (now backend) |} in
                        match save backend user' with
                        | Some e => (Rejected e, [])
                        | None =>
                            (Resolved
                               {| auth_id := _id user';
                                  auth_name := name user';
                                  auth_email := user_email user';
                                  auth_role := role;
                                  auth_isAdmin := String.eqb role "admin";
                                  auth_image :=
                                    if present (profileImage user')
                                    then profileImage user' else None;
                                  auth_isBlocked :=
                                    bool_decide (isBlocked user' = Some true) |},
                             [user'])
                        end
                    end
              end
        end
  end.

End Auth.

(** ** The [process-video] route: the options it hands to [addJob] *)

Module ProcessRoute.

(** [processingOptions], built from the [options] of the request body
    ([{}] when left out).  The callback only logs. *)
Definition processingOptions (options : Options) : Options :=
  {| opt_generateThumbnails :=
       Some (negb (bool_decide (opt_generateThumbnails options = Some false)));
     opt_thumbnailCount := Some (thumbnailCount_or_5 options);
     opt_generatePreview :=
       Some (negb (bool_decide (opt_generatePreview options = Some false)));
     opt_previewDuration :=
       Some (match opt_previewDuration options with
             | Some d => if (d =? 0)%Z then 30 else d
             | None => 30
             end);
     opt_onProgress := Some (fun _ _ => Return tt) |}.

(** [{ ...options, onProgress }], as [processJob] passes the options
    on. *)
Definition with_callback (onProgress : Z -> string -> Task unit)
           (options : Options) : Options :=
  {| opt_generateThumbnails := opt_generateThumbnails options;
     opt_thumbnailCount := opt_thumbnailCount options;
     opt_generatePreview := opt_generatePreview options;
     opt_previewDuration := opt_previewDuration options;
     opt_onProgress := Some onProgress |}.

End ProcessRoute.

(** ** The [forgot-password] route *)

Module ForgotPassword.

(** A user document, as far as the route reads or writes it. *)
Record User := {
  user_email : string;
  resetToken : option string;
  resetTokenExpiry : option Z
}.

(** The body of a reply: [{ error }] or [{ message }]. *)
Inductive Body :=
| ErrorBody (error : string)
| MessageBody (message : string).

(** A [NextResponse.json] reply. *)
Record Response := {
  http_status : Z;
  body : Body
}.

(** What the route awaits or calls: the connection, the lookup in the
    model of a role, the token drawn, the hash, the save, the mailer and
    the clock.  A [Some] answer of [dbConnect], [save] or
    [sendPasswordResetEmail] is the error thrown. *)
Record Backend := {
  dbConnect : option string;
  findOne : string -> string -> outcome (option User);
  randomBytes : string;
  sha256 : string -> string;
  save : User -> option string;
  sendPasswordResetEmail : string -> string -> string -> option string;
  now : Z
}.

(** What a call did besides replying: the documents saved and the mails
    sent (address, token, role). *)
Record Effects := {
  saved : list User;
  sent : list (string * string * string)
}.

Definition nothing : Effects := {| saved := []; sent := [] |}.

Definition sent_message : string :=
  "If an account exists with that email, a password reset link has been sent.".

Definition failed : Response :=
  {| http_status := 500;
     body := ErrorBody "Failed to process password reset request" |}.

(** [POST(req)].  [request] is how [req.json()] and the schema's
    [safeParse] went: [Rejected] when reading the body threw,
    [Resolved (Rejected message)] when validation failed with
    [message] as its first error, [Resolved (Resolved (email, role))]
    for the validated data. *)
Definition POST (backend : Backend)
           (request : outcome (outcome (string * string)))
  : Response * Effects :=
  match request with
  | Rejected _ => (failed, nothing)
  | Resolved (Rejected message) =>
      ({| http_status := 400; body := ErrorBody message |}, nothing)
  | Resolved (Resolved (email, role)) =>
      match dbConnect backend with
      | Some _ => (failed, nothing)
      | None =>
          if negb (String.eqb role "student" || String.eqb role "teacher"
                   || String.eqb role "admin")
          then ({| http_status := 400; body := ErrorBody "Invalid role" |},
                nothing)
          else
            match findOne backend role email with
            | Rejected _ => (failed, nothing)
            | Resolved None =>
                ({| http_status := 200; body := MessageBody sent_message |},
                 nothing)
            | Resolved (Some user) =>
                let resetToken := randomBytes backend in
                let hashedToken := sha256 backend resetToken in
                let user' :=
                  {| user_email := user_email user;
                     resetToken := Some hashedToken;
                     resetTokenExpiry := Some (now backend + 3600000) |} in
                match save backend user' with
                | Some _ => (failed, nothing)
                | None =>
                    match sendPasswordResetEmail backend email resetToken role with
                    | Some _ =>
                        (failed, {| saved := [user']; sent := [] |})
                    | None =>
                        ({| http_status := 200;
                            body := MessageBody sent_message |},
                         {| saved := [user'];
                            sent := [(email, resetToken, role)] |})
                    end
                end
            end
      end
  end.

End ForgotPassword.

(** ** What the pipeline records *)

(** What the pipeline may record, for given directories and options. *)
Definition pipeline_event `{PathModule} (inputPath outputDir : string)
           (options : Options) (e : event) : Prop :=
  match e with
  | Probed p _ => p = inputPath
  | FsDone (Mkdir path) _ =>
      path = outputDir
      \/ (path = path_join outputDir "thumbnails"
          /\ thumbnails_enabled options = true)
      \/ exists variant : VideoVariant, path = path_join outputDir (name variant)
  | FsDone (WriteFile path _) _ => path = path_join outputDir "master.m3u8"
  | Spawned FfmpegVersion _ => preview_enabled options = true
  | Spawned (FfmpegTranscode i o) _ =>
      preview_enabled options = true
      /\ i = inputPath /\ o = path_join outputDir "preview.mp4"
  | Spawned (FfmpegThumbnail i _ o) _ =>
      thumbnails_enabled options = true /\ i = inputPath
      /\ exists n, o = path_join (path_join outputDir "thumbnails")
                         ("thumbnail_" ++ show_Z n ++ ".jpg")
  | Spawned (FfmpegHls i variant p) _ =>
      i = inputPath
      /\ p = path_join (path_join outputDir (name variant)) "index.m3u8"
  | Stored _ _ | CancelCalled _ _ | StatusRead _ _ => True
  end.

(** ** Sample inputs, continued *)

(** A world in which [ffprobe] exits with code 1. *)
Definition world_with_failing_probe : World :=
  {| ffprobe := fun _ _ => Rejected "FFprobe failed with code 1";
     child_process := child_process (calm_world 600 1920 1080 []);
     file_system := file_system (calm_world 600 1920 1080 []);
     Date_now := Date_now (calm_world 600 1920 1080 []);
     others := others (calm_world 600 1920 1080 []) |}.

(** Options that switch the thumbnails off. *)
Definition without_thumbnails : Options :=
  {| opt_generateThumbnails := Some false; opt_thumbnailCount := None;
     opt_generatePreview := None; opt_previewDuration := None;
     opt_onProgress := None |}.

(** The pipeline on a 1920x1080 source, every call succeeding. *)
Definition pipeline_run (options : Options) : State * outcome PipelineResult :=
  run (calm_world 600 1920 1080 [])
      (@processVideoWithAdaptiveStreaming posix_join "in.mp4" "out" options)
      fresh.

(** The pipeline on a source that [ffprobe] cannot read. *)
Definition unreadable_run : State * outcome PipelineResult :=
  run world_with_failing_probe
      (@processVideoWithAdaptiveStreaming posix_join "in.mp4" "out" no_options)
      fresh.

(** A teacher's session. *)
Definition teacher : Routes.SessionUser :=
  {| Routes.role := Some "teacher"; Routes.isAdmin := None |}.

(** A student with four failed attempts on record. *)
Definition sam : Auth.User :=
  {| Auth._id := "u1"; Auth.name := "Sam";
     Auth.user_email := "sam@example.org"; Auth.password_hash := "hash";
     Auth.profileImage := None; Auth.isBlocked := None;
     Auth.loginAttempts := Some 4; Auth.lockUntil := None;
     Auth.lastLogin := None |}.

(** A backend that knows [sam]; [locked] is what [isLocked] answers and
    [matches] what the password comparison answers. *)
Definition backend_with (locked matches : bool) : Auth.Backend :=
  {| Auth.isLocked := fun _ => locked;
     Auth.dbConnect := None;
     Auth.findOne := fun role email =>
       Resolved (if String.eqb email "sam@example.org" then Some sam else None);
     Auth.bcrypt_compare := fun _ _ => Resolved matches;
     Auth.save := fun _ => None;
     Auth.now := 1700000000000 |}.

(** [sam] logging in as a student. *)
Definition login : Auth.Credentials :=
  {| Auth.email := Some "sam@example.org"; Auth.password := Some "secret";
     Auth.role := Some "student" |}.

(** ** The manifest step, the job's end and resubmission *)

(** The [fs.writeFile] calls made, each with how it settled ([None]
    when it was fulfilled, else the error's message). *)
Definition write_attempts (h : list event)
  : list (string * string * option string) :=
  flat_map (fun e => match e with
                     | FsDone (WriteFile path content) r => [(path, content, r)]
                     | _ => []
                     end) h.

(** The message [createHLSPlaylist] rejects with when the encode of
    [variant] ended with [r]: its own for an exit code, the error's for
    a failed spawn ([ffmpeg.on('error', reject)]). *)
Definition hls_failure_message (variant : VideoVariant) (r : proc_exit)
  : string :=
  match r with
  | Probe.Close _ => "HLS generation failed for " ++ name variant
  | Probe.SpawnError message => message
  end.

(** An integer that a template literal prints with all its digits:
    [Number.isSafeInteger]. *)
Definition safe_integer (n : Z) : Prop :=
  - (2 ^ 53 - 1) <= n <= 2 ^ 53 - 1.

(** A variant whose numbers [stream_inf] renders as the template
    literals of [createHLSPlaylist] do. *)
Definition plain_variant (variant : VideoVariant) : Prop :=
  safe_integer (bitrate variant * 1000)
  /\ safe_integer (width variant) /\ safe_integer (height variant).

(** An event that is neither a segment encode nor a [writeFile]. *)
Definition no_manifest_event (e : event) : Prop :=
  match e with
  | Spawned (FfmpegHls _ _ _) _ | FsDone (WriteFile _ _) _ => False
  | _ => True
  end.

(** An event before the pipeline's first probe: neither of those, nor
    a probe. *)
Definition before_probe_event (e : event) : Prop :=
  match e with
  | Probed _ _ => False
  | _ => no_manifest_event e
  end.

(** The callback never throws. *)
Definition callback_total (w : World) (options : Options) : Prop :=
  forall p stage s,
    (run w (default (fun _ _ => Return tt) (opt_onProgress options) p stage) s).2
    = Resolved tt.

(** The options [processJob] passes on: [{ ...options, onProgress }]. *)
Definition job_options (jobId : string) (options : Options) : Options :=
  {| opt_generateThumbnails := opt_generateThumbnails options;
     opt_thumbnailCount := opt_thumbnailCount options;
     opt_generatePreview := opt_generatePreview options;
     opt_previewDuration := opt_previewDuration options;
     opt_onProgress := Some (job_onProgress jobId) |}.

(** What the pipeline did from its manifest step on, after the probe
    answered [info]: before it only events that are neither encodes nor
    writes; then either it had rejected already, or [createHLSPlaylist]
    ran on the plan for [info], followed by the last callback. *)
Definition manifest_phase `{PathModule} (w : World)
           (inputPath outputDir : string) (options : Options)
           (info : VideoInfo) (evs : list event)
           (o : outcome PipelineResult) : Prop :=
  let plan := generateOptimalVariants (info_width info) (info_height info)
                (info_duration info) in
  exists pre,
    Forall no_manifest_event pre
    /\ ((exists message, o = Rejected message /\ evs = pre)
        \/ exists s_h post,
             let rh := run w (createHLSPlaylist inputPath outputDir plan) s_h in
             evs = (pre ++ events_since s_h rh.1 ++ post)%list
             /\ Forall api_event post
             /\ match rh.2 with
                | Rejected message => o = Rejected message /\ post = []
                | Resolved p =>
                    (exists thumbnails preview,
                       o = Resolved {| hlsPlaylist := p;
                                       thumbnails := thumbnails;
                                       preview := preview;
                                       variants := plan |})
                    \/ (exists message s',
                          o = Rejected message
                          /\ (run w (default (fun _ _ => Return tt)
                                       (opt_onProgress options) 100
                                       "Processing complete") s').2
                             = Rejected message)
                end).

(** What the pipeline did: it rejected before any encode or write, or
    its first probe answered [info] and the manifest phase followed. *)
Definition pipeline_phases `{PathModule} (w : World)
           (inputPath outputDir : string) (options : Options)
           (evs : list event) (o : outcome PipelineResult) : Prop :=
  (exists message, o = Rejected message /\ Forall no_manifest_event evs)
  \/ exists pre info rest,
       evs = (pre ++ Probed inputPath (Resolved info) :: rest)%list
       /\ Forall before_probe_event pre
       /\ manifest_phase w inputPath outputDir options info rest o.

(** ** Other submissions of the same id *)



(** In [calls], a queued entry written for [jobId] is overwritten by
    the very next call with one that is not queued: what [addJob] does,
    which stores [queued] and then [processing] before it returns. *)
Fixpoint transient_queued (jobId : string) (calls : list api_call) : Prop :=
  match calls with
  | [] => True
  | OtherWrite id j :: rest =>
      (id = jobId -> status j = Queued ->
       match rest with
       | OtherWrite id' j' :: _ => id' = jobId /\ status j' <> Queued
       | _ => False
       end)
      /\ transient_queued jobId rest
  | _ :: rest => transient_queued jobId rest
  end.

(** Other submissions of [jobId] never leave a queued entry behind. *)
Definition queued_is_transient (w : World) (jobId : string) : Prop :=
  forall h, transient_queued jobId (others w h).

(** ** The spec's sentences, continued *)

(** Spec 8, progress monotonicity: for a job that ends completed, the
    progress values stored are non-decreasing and end at 100. *)
Definition completed_progress_monotone `{PathModule} (w : World)
           (jobId inputPath outputDir : string) (options : Options)
           (s : State) : Prop :=
  let s' := run_job w jobId inputPath outputDir options s in
  forall job, queue s' !! jobId = Some job -> status job = Completed ->
    exists tr, progress_trace jobId (events_since s s') = Some <$> tr
               /\ Sorted Z.le tr /\ last tr = Some 100.

(** Spec 4.2 and 8: thumbnail extraction requests exactly [count]
    timestamps, those of the schedule. *)
Definition requests_exactly_count `{PathModule} (w : World)
           (inputPath outputDir : string) (count : Z) (s : State) : Prop :=
  let evs := events_since s
               (run w (generateThumbnails inputPath outputDir count) s).1 in
  forall info, probed evs = [Resolved info] ->
    1 <= count -> (0 < info_duration info)%Q ->
    length (requested_timestamps evs) = Z.to_nat count
    /\ requested_timestamps evs = spaced_timestamps (info_duration info) count.

(** ** Sample inputs: a resubmitted job *)

(** The entry a second [addJob] stores, before and after its
    [processJob] has started. *)
Definition resubmitted (status : Status) : Job :=
  {| status := status; progress := Some 0; result := None; error := None;
     startTime := Some 1700000000000 |}.

(** A calm world in which another caller tries to cancel [job-1] at
    every suspension, and submits [job-1] again once the job has
    reported progress 40 (its sixth stored entry). *)
Definition world_with_resubmission : World :=
  {| ffprobe := ffprobe (calm_world 600 1920 1080 []);
     child_process := child_process (calm_world 600 1920 1080 []);
     file_system := file_system (calm_world 600 1920 1080 []);
     Date_now := Date_now (calm_world 600 1920 1080 []);
     others := fun h =>
       if (length (progress_trace "job-1" h) =? 6)%nat
       then [OtherWrite "job-1" (resubmitted Queued);
             OtherWrite "job-1" (resubmitted Processing);
             CallCancel "job-1"]
       else [CallCancel "job-1"] |}.


Definition resubmitted_run : State :=
  @run_job posix_join world_with_resubmission
    "job-1" "in.mp4" "out" no_options fresh.

(** [createHLSPlaylist] on the plan for 1920x1080, the 720p encode
    failing. *)
Definition failed_manifest_run : State * outcome string :=
  run (world_with_failing_encode "720p")
      (@createHLSPlaylist posix_join "in.mp4" "out"
         (generateOptimalVariants 1920 1080 600)) fresh.

(** * Proofs *)

(** ** Laws of running tasks *)

Section RunLaws.
Context (w : World).

Lemma run_bind {A B} (t : Task A) (f : A -> Task B) (s : State) :
  run w (bind t f) s =
    match run w t s with
    | (s1, Resolved a) => run w (f a) s1
    | (s1, Rejected message) => (s1, Rejected message)
    end.
Proof.
  revert s; induction t; intros s; simpl; auto.
Qed.

Lemma run_try_catch {A} (t : Task A) (handler : string -> Task A) (s : State) :
  run w (try_catch t handler) s =
    match run w t s with
    | (s1, Resolved a) => (s1, Resolved a)
    | (s1, Rejected message) => run w (handler message) s1
    end.
Proof.
  revert s; induction t; intros s; simpl; auto.
Qed.

Lemma run_rethrow {A} (t : Task A) (s : State) :
  run w (try_catch t (fun message => Throw message)) s = run w t s.
Proof.
  rewrite run_try_catch. destruct (run w t s) as [s1 [a|m]]; reflexivity.
Qed.

Lemma run_start {A} (t : Task A) (s : State) :
  run w (start w t s).2 (start w t s).1 = run w t s.
Proof.
  revert s; induction t; intros s; simpl; auto.
Qed.
End RunLaws.

Lemma Sorted_snoc (tr : list Z) (lo p : Z) :
  Sorted Z.le tr -> last tr = Some lo -> lo <= p -> Sorted Z.le (tr ++ [p])%list.
Proof.
  induction tr as [|a tr IH]; intros Hs Hl Hle; [discriminate|].
  destruct tr as [|b tr].
  - simpl in Hl. injection Hl as ->. simpl. repeat constructor. exact Hle.
  - simpl. inversion Hs as [|? ? Hs' Hhd]; subst. constructor.
    + apply IH; auto.
    + inversion Hhd; subst. constructor. assumption.
Qed.

Lemma Sorted_app_last (tr tr' : list Z) (lo : Z) :
  Sorted Z.le tr -> last tr = Some lo -> Sorted Z.le (lo :: tr') ->
  Sorted Z.le (tr ++ tr')%list.
Proof.
  revert tr lo. induction tr' as [|p tr' IH]; intros tr lo Hs Hl Hs'.
  - rewrite app_nil_r. exact Hs.
  - replace (tr ++ p :: tr')%list with ((tr ++ [p]) ++ tr')%list by (rewrite <- app_assoc; reflexivity).
    inversion Hs' as [|? ? Hs'' Hhd]; subst. inversion Hhd; subst.
    apply (IH _ p); auto.
    + eapply Sorted_snoc; eauto.
    + rewrite last_snoc. reflexivity.
Qed.

Section Flight.
Context (jobId : string) (h0 : list event).

(** The invariant across a stretch [evs'] of events that keeps the
    entry processing and the progress values in order. *)
Lemma flight_step lo enc wr seen s lo' seen' s' evs' tr' n :
  in_flight jobId h0 lo enc wr seen s ->
  history s' = (history s ++ evs')%list ->
  (exists j, queue s' !! jobId = Some j /\ status j = Processing
            /\ progress j = Some lo' /\ result j = None /\ error j = None) ->
  progress_trace jobId evs' = Some <$> tr' ->
  Sorted Z.le (lo :: tr') -> last (lo :: tr') = Some lo' ->
  status_trace jobId evs' = replicate n Processing ->
  Forall (eq false) (cancel_answers jobId evs') ->
  Forall (fun e => e ∈ seen \/ e ∈ evs') seen' ->
  in_flight jobId h0 lo' (enc ++ encodes evs')%list (wr ++ writes evs')%list seen' s'.
Proof.
  intros [He (evs & Hh & (tr & Ht & Hs & Hl) & (m & Hst) & Hc & Henc & Hwr & Hseen)]
         Hh' He' Ht' Hs' Hl' Hst' Hc' Hseen'.
  split; [exact He'|].
  exists (evs ++ evs')%list. split; [rewrite Hh', Hh, app_assoc; reflexivity|].
  unfold progress_trace, status_trace, cancel_answers, encodes, writes in *.
  rewrite !flat_map_app.
  split; [|split; [|split; [|split; [|split]]]].
  - exists (tr ++ tr')%list. rewrite Ht, Ht', fmap_app. split; [reflexivity|]. split.
    + eapply Sorted_app_last; eauto.
    + destruct tr' as [|p tr']; [rewrite app_nil_r; simpl in Hl'; congruence|].
      rewrite last_app. change (last (lo :: p :: tr')) with (last (p :: tr')) in Hl'.
      rewrite Hl'. reflexivity.
  - exists (m + n)%nat. rewrite Hst, Hst'. simpl. f_equal. f_equal.
    rewrite replicate_add. reflexivity.
  - apply Forall_app; auto.
  - congruence.
  - congruence.
  - rewrite Forall_forall in *. intros e Hin. apply elem_of_app.
    destruct (Hseen' e Hin); auto.
Qed.

Lemma flight_record lo enc wr seen s e :
  match e with
  | Probed _ _ | Spawned FfmpegVersion _ | Spawned (FfmpegTranscode _ _) _
  | Spawned (FfmpegThumbnail _ _ _) _ | FsDone (Mkdir _) _
  | FsDone (WriteFile _ _) (Some _) => True
  | _ => False
  end ->
  in_flight jobId h0 lo enc wr seen s ->
  in_flight jobId h0 lo enc wr (e :: seen) (record e s).
Proof.
  intros He Hin.
  pose proof (flight_step lo enc wr seen s lo (e :: seen) (record e s) [e] [] 0%nat Hin eq_refl) as Hstep.
  assert (encodes [e] = [] /\ writes [e] = [] /\ progress_trace jobId [e] = []
          /\ status_trace jobId [e] = [] /\ cancel_answers jobId [e] = []) as (E1 & E2 & E3 & E4 & E5).
  { destruct e as [| [] | [] [] | | |]; simpl in *; try tauto. }
  rewrite E1, E2, !app_nil_r in Hstep. apply Hstep; auto.
  - simpl. eapply flight_entry; eauto.
  - rewrite E5. constructor.
  - constructor; [right; apply list_elem_of_here|].
    apply Forall_forall. intros; auto.
Qed.

Lemma flight_forget lo enc wr seen seen' s :
  seen' ⊆ seen ->
  in_flight jobId h0 lo enc wr seen s -> in_flight jobId h0 lo enc wr seen' s.
Proof.
  intros Hsub [He (evs & Hh & Ht & Hst & Hc & Henc & Hwr & Hseen)].
  split; [exact He|]. exists evs. repeat (split; [assumption|]).
  rewrite Forall_forall in *. auto.
Qed.

Lemma flight_record_quiet lo enc wr seen s e :
  match e with
  | Probed _ _ | Spawned FfmpegVersion _ | Spawned (FfmpegTranscode _ _) _
  | Spawned (FfmpegThumbnail _ _ _) _ | FsDone (Mkdir _) _
  | FsDone (WriteFile _ _) (Some _) => True
  | _ => False
  end ->
  in_flight jobId h0 lo enc wr seen s ->
  in_flight jobId h0 lo enc wr seen (record e s).
Proof.
  intros He Hin. apply (flight_forget lo enc wr (e :: seen)); [set_solver|].
  apply flight_record; assumption.
Qed.

End Flight.

Section FlightSteps.
Context (w : World) (jobId : string) (h0 : list event).
Hypothesis Hsingle : single_writer w jobId.

Lemma eqb_refl_jobId : String.eqb jobId jobId = true.
Proof. apply String.eqb_refl. Qed.

Lemma eqb_other (id : string) : id <> jobId -> String.eqb id jobId = false.
Proof. intros Hne. apply String.eqb_neq. exact Hne. Qed.

(** An event that is none of the job's own leaves the invariant. *)
Lemma flight_frame lo enc wr seen s s' evs' :
  in_flight jobId h0 lo enc wr seen s ->
  history s' = (history s ++ evs')%list ->
  queue s' !! jobId = queue s !! jobId ->
  progress_trace jobId evs' = [] ->
  status_trace jobId evs' = [] ->
  Forall (eq false) (cancel_answers jobId evs') ->
  encodes evs' = [] -> writes evs' = [] ->
  in_flight jobId h0 lo enc wr seen s'.
Proof.
  intros Hin Hh Hq Hp Hst Hc He Hw.
  pose proof (flight_step jobId h0 lo enc wr seen s lo seen s' evs' [] 0%nat Hin Hh) as Hstep.
  rewrite He, Hw, !app_nil_r in Hstep. apply Hstep; auto.
  - rewrite Hq. eapply flight_entry; eauto.
  - apply Forall_forall. intros; auto.
Qed.

Lemma flight_api_step lo enc wr seen s c :
  (forall j, c <> OtherWrite jobId j) ->
  in_flight jobId h0 lo enc wr seen s ->
  in_flight jobId h0 lo enc wr seen (api_step s c).
Proof.
  intros Hc Hin. destruct (flight_entry _ _ _ _ _ _ _ Hin) as (j & Hq & Hs & Hrest).
  destruct c as [id|id|id j']; simpl.
  - destruct (decide (id = jobId)) as [->|Hne].
    + unfold cancelJob. rewrite Hq, Hs. simpl.
      eapply flight_frame; eauto; simpl; rewrite ?eqb_refl_jobId; simpl; auto.
    + eapply flight_frame; eauto; simpl; rewrite ?eqb_other by auto; simpl; auto.
      unfold cancelJob. destruct (queue s !! id) as [j0|]; [|reflexivity].
      destruct (status j0); simpl; auto. apply lookup_delete_ne. auto.
  - eapply flight_frame; eauto; simpl; auto.
  - assert (id <> jobId) by (intros ->; eapply Hc; eauto).
    eapply flight_frame; eauto; simpl; rewrite ?eqb_other by auto; simpl; auto.
    apply lookup_insert_ne. auto.
Qed.

(** Other callers cannot disturb a job in flight: cancelling a
    processing job does nothing. *)
Lemma flight_suspend lo enc wr seen s :
  in_flight jobId h0 lo enc wr seen s ->
  in_flight jobId h0 lo enc wr seen (suspend w s).
Proof.
  unfold suspend. intros Hin.
  assert (Hall : Forall (fun c => forall j, c <> OtherWrite jobId j) (others w (history s))).
  { apply Forall_forall. intros c Hc j ->. eapply Hsingle; eauto. }
  generalize dependent (others w (history s)). intros cs. revert s Hin.
  induction cs as [|c cs IH]; intros s Hin Hall; simpl; [exact Hin|].
  inversion Hall; subst. apply IH; auto. apply flight_api_step; auto.
Qed.

(** A quiet task leaves a job in flight as it is. *)
Lemma quiet_run {A} (t : Task A) lo enc wr seen s :
  quiet t ->
  in_flight jobId h0 lo enc wr seen s ->
  in_flight jobId h0 lo enc wr seen (run w t s).1.
Proof.
  revert s. induction t as [a|m|p k IH|c k IH|c k IH|k IH|id k IH|id j k IH];
    intros s Hq Hin; simpl in *; try tauto.
  - apply IH; [apply Hq|].
    eapply flight_forget; [|apply flight_record; [|apply flight_suspend; eauto]];
      [set_solver|exact I].
  - destruct Hq as [Hc Hq]. apply IH; [apply Hq|].
    eapply flight_forget; [|apply flight_record; [|apply flight_suspend; eauto]];
      [set_solver|]. destruct c; tauto.
  - destruct Hq as [Hc Hq]. apply IH; [apply Hq|].
    eapply flight_forget; [|apply flight_record; [|apply flight_suspend; eauto]];
      [set_solver|]. destruct c; tauto.
  - apply IH; auto.
Qed.

Lemma quiet_bind {A B} (t : Task A) (f : A -> Task B) :
  quiet t -> (forall a, quiet (f a)) -> quiet (bind t f).
Proof.
  induction t; simpl; intros Hq Hf; try tauto; auto.
  - destruct Hq; split; auto.
  - destruct Hq; split; auto.
Qed.
End FlightSteps.

Section Procedures.
Context `{PathModule} (w : World) (jobId : string) (h0 : list event).
Hypothesis Hsingle : single_writer w jobId.

Lemma quiet_fs_mkdir path : quiet (fs_mkdir path).
Proof. split; [exact I|]. intros [m|]; exact I. Qed.

Lemma quiet_probe inputPath : quiet (probe inputPath).
Proof. intros [info|m]; exact I. Qed.

Lemma quiet_transcode inputPath outputPath :
  quiet (transcode inputPath outputPath).
Proof.
  split; [exact I|]. intros [code|m]; simpl.
  - destruct (is_zero code); simpl; [|exact I].
    intros _. split; [exact I|]. intros [code'|m]; [|exact I].
    destruct (is_zero code'); exact I.
  - exact I.
Qed.

Lemma quiet_thumbnail_loop inputPath outputDir interval n i thumbnails :
  quiet (thumbnail_loop inputPath outputDir interval n i thumbnails).
Proof.
  revert i thumbnails. induction n as [|n IH]; intros i thumbnails; simpl; [exact I|].
  split; [exact I|]. intros [code|m]; [|exact I].
  destruct (is_zero code); [apply IH|exact I].
Qed.

Lemma quiet_generateThumbnails inputPath outputDir count :
  quiet (generateThumbnails inputPath outputDir count).
Proof.
  intros [info|m]; simpl; [apply quiet_thumbnail_loop|exact I].
Qed.

Lemma is_zero_true code : is_zero code = true -> code = Some 0.
Proof. destruct code as [[| |]|]; simpl; congruence. Qed.

Lemma flight_onProgress lo enc wr seen s p stage :
  in_flight jobId h0 lo enc wr seen s -> lo <= p ->
  (run w (job_onProgress jobId p stage) s).2 = Resolved tt
  /\ in_flight jobId h0 p enc wr seen (run w (job_onProgress jobId p stage) s).1.
Proof.
  intros Hin Hle. split; [reflexivity|]. simpl.
  destruct (flight_entry _ _ _ _ _ _ _ Hin) as (j & Hq & Hs & Hp & Hr & He).
  rewrite Hq.
  pose proof (flight_step jobId h0 lo enc wr seen s p seen
                (store jobId (with_progress p (spread (Some j) Processing)) s)
                [Stored jobId (with_progress p (spread (Some j) Processing))]
                [p] 1%nat Hin eq_refl) as Hstep.
  simpl in Hstep. rewrite String.eqb_refl, ?app_nil_r in Hstep. apply Hstep; auto.
  - eexists. rewrite lookup_insert_eq. split; [reflexivity|]. simpl. auto.
  - apply Forall_forall. auto.
Qed.

Lemma flight_hls_loop inputPath outputDir lo seen variants :
  forall content enc s,
    in_flight jobId h0 lo enc [] seen s ->
    match run w (hls_loop inputPath outputDir variants content) s with
    | (s', Resolved c) =>
        c = foldl (fun content variant => content ++ stream_inf variant)
                  content variants
        /\ in_flight jobId h0 lo (enc ++ map encoded variants)%list [] seen s'
    | (s', Rejected _) => exists enc', in_flight jobId h0 lo enc' [] seen s'
    end.
Proof.
  induction variants as [|v vs IH]; intros content enc s Hin.
  - simpl. rewrite app_nil_r. auto.
  - cbn [hls_loop run].
    assert (H1 : in_flight jobId h0 lo enc [] seen (suspend w s))
      by (apply flight_suspend; auto).
    generalize dependent (suspend w s). intros s1 H1.
    destruct (file_system w (history s1) (Mkdir (path_join outputDir (name v))))
      as [m|] eqn:Em.
    + cbn [run]. exists enc. apply flight_record_quiet; [exact I|assumption].
    + assert (H2 : in_flight jobId h0 lo enc [] seen
                     (record (FsDone (Mkdir (path_join outputDir (name v))) None) s1)).
      { apply flight_record_quiet; [exact I|assumption]. }
      generalize dependent (record (FsDone (Mkdir (path_join outputDir (name v))) None) s1).
      intros s2 H2. cbn [run].
      assert (H3 : in_flight jobId h0 lo enc [] seen (suspend w s2))
        by (apply flight_suspend; auto).
      generalize dependent (suspend w s2). intros s3 H3.
      set (c := FfmpegHls _ _ _).
      generalize (child_process w (history s3) c). intros r.
      assert (H4 : in_flight jobId h0 lo (enc ++ [(v, r)])%list [] seen
                     (record (Spawned c r) s3)).
      { pose proof (flight_step jobId h0 lo enc [] seen s3 lo seen (record (Spawned c r) s3)
                      [Spawned c r] [] 0%nat H3 eq_refl) as Hstep.
        simpl in Hstep. apply Hstep; auto.
        - eapply flight_entry; eauto.
        - apply Forall_forall. auto. }
      generalize dependent (record (Spawned c r) s3). intros s4 H4.
      destruct r as [code|m].
      * destruct (is_zero code) eqn:Ez.
        -- apply is_zero_true in Ez. subst code.
           specialize (IH (content ++ stream_inf v) (enc ++ [(v, Probe.Close (Some 0))])%list _ H4).
           destruct (run w _ _) as [s' [c'|m']]; auto.
           rewrite <- app_assoc in IH. exact IH.
        -- cbn [run]. eauto.
      * cbn [run]. eauto.
Qed.
End Procedures.

Section PipelineFlight.
Context `{PathModule} (w : World) (jobId : string) (h0 : list event).
Hypothesis Hsingle : single_writer w jobId.

Lemma flight_optional {A} (b : bool) (p : Z) (stage : string)
      (t : Task A) (d : A) lo enc wr seen s :
  quiet t -> lo <= p ->
  in_flight jobId h0 lo enc wr seen s ->
  exists lo', lo' <= p /\
    in_flight jobId h0 lo' enc wr seen
      (run w (if b then bind (job_onProgress jobId p stage) (fun _ => t)
              else Return d) s).1.
Proof.
  intros Hq Hle Hin. destruct b.
  - exists p. split; [lia|]. rewrite run_bind.
    destruct (flight_onProgress w jobId h0 lo enc wr seen s p stage Hin Hle) as [E Hf].
    destruct (run w (job_onProgress jobId p stage) s) as [s1 o1].
    simpl in E, Hf. subst o1. apply quiet_run; auto.
  - exists lo. split; [lia|]. exact Hin.
Qed.

(** The pipeline, run for a job in flight at progress 0: it resolves
    with every planned variant encoded and the manifest written, at
    progress 100; or it rejects with nothing written. *)
Lemma flight_pipeline inputPath outputDir options s :
  opt_onProgress options = Some (job_onProgress jobId) ->
  in_flight jobId h0 0 [] [] [] s ->
  match run w (processVideoWithAdaptiveStreaming inputPath outputDir options) s with
  | (s', Resolved res) =>
      exists info,
        variants res = generateOptimalVariants (info_width info)
                         (info_height info) (info_duration info)
        /\ hlsPlaylist res = path_join outputDir "master.m3u8"
        /\ in_flight jobId h0 100 (map encoded (variants res))
             [(hlsPlaylist res, master_playlist (variants res))]
             [Probed inputPath (Resolved info)] s'
  | (s', Rejected _) => exists lo enc, in_flight jobId h0 lo enc [] [] s'
  end.
Proof.
  intros Hop Hin. unfold processVideoWithAdaptiveStreaming.
  rewrite Hop. cbn [default]. unfold mbind, Task_bind, id. cbv zeta.
  rewrite run_bind.
  pose proof (quiet_run w jobId h0 Hsingle _ _ _ _ _ s (quiet_fs_mkdir outputDir) Hin) as H1.
  destruct (run w (fs_mkdir outputDir) s) as [s1 [[]|m]]; simpl in H1; [|eauto].
  rewrite run_rethrow. rewrite run_bind.
  destruct (flight_onProgress w jobId h0 0 _ _ _ s1 5 "Analyzing video" H1 ltac:(lia)) as [E H2].
  destruct (run w (job_onProgress jobId 5 "Analyzing video") s1) as [s2 o2].
  simpl in E, H2. subst o2.
  rewrite run_bind. cbn [probe run].
  pose proof (flight_suspend w jobId h0 Hsingle _ _ _ _ _ H2) as H3.
  generalize dependent (suspend w s2). intros s3 H3.
  destruct (ffprobe w (history s3) inputPath) as [info|m] eqn:Ep.
  2:{ cbn [settle run]. exists 5, []. apply flight_record_quiet; [exact I|assumption]. }
  pose proof (flight_record jobId h0 _ _ _ _ _ (Probed inputPath (Resolved info)) I H3) as H4.
  generalize dependent (record (Probed inputPath (Resolved info)) s3). intros s4 H4.
  cbn [settle run]. rewrite run_bind.
  destruct (flight_onProgress w jobId h0 5 _ _ _ s4 10 "Planning quality variants" H4 ltac:(lia)) as [E H5].
  destruct (run w (job_onProgress jobId 10 "Planning quality variants") s4) as [s5 o5].
  simpl in E, H5. subst o5.
  set (plan := generateOptimalVariants _ _ _).
  rewrite run_bind.
  match goal with |- context [run w (if ?b then bind (job_onProgress jobId ?p ?st) (fun _ => ?t) else Return ?d) s5] =>
    assert (Hq6 : quiet t)
      by (apply quiet_bind; [apply quiet_fs_mkdir|intros; apply quiet_generateThumbnails]);
    destruct (flight_optional b p st t d 10 _ _ _ s5 Hq6 ltac:(lia) H5) as (lo6 & Hle6 & H6);
    destruct (run w (if b then bind (job_onProgress jobId p st) (fun _ => t) else Return d) s5)
      as [s6 [thumbs|m6]]
  end; simpl in H6.
  2:{ exists lo6, []. eapply flight_forget; [|exact H6]. set_solver. }
  rewrite run_bind.
  match goal with |- context [run w (if ?b then bind (job_onProgress jobId ?p ?st) (fun _ => ?t) else Return ?d) s6] =>
    assert (Hq7 : quiet t)
      by (apply quiet_bind; [apply quiet_transcode|intros; exact I]);
    destruct (flight_optional b p st t d lo6 _ _ _ s6 Hq7 ltac:(lia) H6) as (lo7 & Hle7 & H7);
    destruct (run w (if b then bind (job_onProgress jobId p st) (fun _ => t) else Return d) s6)
      as [s7 [prev|m7]]
  end; simpl in H7.
  2:{ exists lo7, []. eapply flight_forget; [|exact H7]. set_solver. }
  rewrite run_bind.
  destruct (flight_onProgress w jobId h0 lo7 _ _ _ s7 40
              "Creating adaptive streaming variants" H7 ltac:(lia)) as [E H8].
  destruct (run w (job_onProgress jobId 40 _) s7) as [s8 o8].
  simpl in E, H8. subst o8.
  rewrite run_bind. unfold createHLSPlaylist, mbind, Task_bind. cbv zeta.
  rewrite run_bind.
  pose proof (flight_hls_loop w jobId h0 Hsingle inputPath outputDir 40 _ plan
                master_header [] s8 H8) as H9.
  destruct (run w (hls_loop inputPath outputDir plan master_header) s8)
    as [s9 [content|m9]].
  2:{ destruct H9 as [enc' H9]. exists 40, enc'.
      eapply flight_forget; [|exact H9]. set_solver. }
  destruct H9 as [-> H9]. simpl app in H9.
  rewrite run_bind. cbn [fs_writeFile run].
  pose proof (flight_suspend w jobId h0 Hsingle _ _ _ _ _ H9) as H10.
  generalize dependent (suspend w s9). intros s10 H10.
  set (path := path_join outputDir "master.m3u8").
  fold (master_playlist plan).
  destruct (file_system w (history s10) (WriteFile path (master_playlist plan)))
    as [m|] eqn:Ew.
  { cbn [run]. exists 40, (map encoded plan).
    eapply flight_forget; [|apply flight_record_quiet; [|exact H10]]; [set_solver|exact I]. }
  cbn [run].
  assert (H11 : in_flight jobId h0 40 (map encoded plan)
                  [(path, master_playlist plan)]
                  [Probed inputPath (Resolved info)]
                  (record (FsDone (WriteFile path (master_playlist plan)) None) s10)).
  { pose proof (flight_step jobId h0 40 _ [] _ s10 40 [Probed inputPath (Resolved info)]
                  (record (FsDone (WriteFile path (master_playlist plan)) None) s10)
                  [FsDone (WriteFile path (master_playlist plan)) None] [] 0%nat H10 eq_refl)
      as Hstep.
    simpl in Hstep. rewrite app_nil_r in Hstep. apply Hstep; auto.
    - eapply flight_entry; eauto.
    - apply Forall_forall. auto. }
  generalize dependent (record (FsDone (WriteFile path (master_playlist plan)) None) s10).
  intros s11 H11.
  rewrite run_bind.
  destruct (flight_onProgress w jobId h0 40 _ _ _ s11 100 "Processing complete" H11 ltac:(lia))
    as [E H12].
  destruct (run w (job_onProgress jobId 100 _) s11) as [s12 o12].
  simpl in E, H12. subst o12. cbn [run].
  exists info. cbn [variants hlsPlaylist]. auto.
Qed.
End PipelineFlight.

Section Observations.
Context (jobId : string).

Lemma progress_trace_app h1 h2 :
  progress_trace jobId (h1 ++ h2) = (progress_trace jobId h1 ++ progress_trace jobId h2)%list.
Proof. apply flat_map_app. Qed.

Lemma status_trace_app h1 h2 :
  status_trace jobId (h1 ++ h2) = (status_trace jobId h1 ++ status_trace jobId h2)%list.
Proof. apply flat_map_app. Qed.

Lemma cancel_answers_app h1 h2 :
  cancel_answers jobId (h1 ++ h2) = (cancel_answers jobId h1 ++ cancel_answers jobId h2)%list.
Proof. apply flat_map_app. Qed.

Lemma encodes_app h1 h2 : encodes (h1 ++ h2) = (encodes h1 ++ encodes h2)%list.
Proof. apply flat_map_app. Qed.

Lemma writes_app h1 h2 : writes (h1 ++ h2) = (writes h1 ++ writes h2)%list.
Proof. apply flat_map_app. Qed.

Lemma progress_trace_own j : progress_trace jobId [Stored jobId j] = [progress j].
Proof. simpl. rewrite String.eqb_refl. reflexivity. Qed.

Lemma status_trace_own j : status_trace jobId [Stored jobId j] = [status j].
Proof. simpl. rewrite String.eqb_refl. reflexivity. Qed.
End Observations.

Section JobRun.
Context `{PathModule} (w : World) (jobId : string).
Hypothesis Hsingle : single_writer w jobId.

Lemma run_job_unfold inputPath outputDir options s :
  run_job w jobId inputPath outputDir options s
  = (run w (addJob_task jobId inputPath outputDir options) s).1.
Proof.
  unfold run_job, addJob.
  rewrite <- (run_start w (addJob_task jobId inputPath outputDir options) s).
  destruct (start w _ s) as [s' background]. reflexivity.
Qed.

(** Every job, from submission to its last write. *)
Lemma job_run_spec inputPath outputDir options s :
  exists evs j,
    job_report jobId inputPath outputDir s
      (run_job w jobId inputPath outputDir options s) evs j.
Proof.
  rewrite run_job_unfold. unfold addJob_task. cbn [run].
  set (q0 := {| status := Queued; progress := Some 0; result := None;
                error := None; startTime := Some (Date_now w (history s)) |}).
  rewrite run_try_catch. unfold processJob. rewrite run_try_catch.
  cbn [run store queue history]. rewrite lookup_insert_eq. cbn [spread].
  set (q1 := {| status := Processing; progress := progress q0 |}).
  set (s2 := store jobId q1 (store jobId q0 s)).
  assert (H2 : in_flight jobId (history s) 0 [] [] [] s2).
  { split.
    - exists q1. subst s2. simpl. rewrite lookup_insert_eq. auto.
    - exists [Stored jobId q0; Stored jobId q1]. subst s2. simpl.
      rewrite <- app_assoc, String.eqb_refl. simpl.
      split; [reflexivity|]. split.
      + exists [0; 0]. split; [reflexivity|]. split; [|reflexivity].
        repeat constructor. lia.
      + split; [exists 0%nat; reflexivity|]. repeat constructor. }
  fold s2. unfold mbind, Task_bind. rewrite run_bind.
  set (options' := Build_Options _ _ _ _ _).
  pose proof (flight_pipeline w jobId (history s) Hsingle inputPath outputDir
                options' s2 eq_refl H2) as Hp.
  destruct (run w (processVideoWithAdaptiveStreaming inputPath outputDir options') s2)
    as [s3 [res|m]].
  - destruct Hp as (info & Hplan & Hpath & [(j & Hq & Hs & Hpr & Hr & He) Hev]).
    destruct Hev as (evs & Hh & (tr & Ht & Hsort & Hl) & (n & Hst) & Hc & Henc & Hwr & Hseen).
    cbn [run]. rewrite Hq. cbn [fst].
    set (jf := with_result res (with_progress 100 (spread (Some j) Completed))).
    exists (evs ++ [Stored jobId jf])%list, jf.
    split; rewrite ?progress_trace_app, ?status_trace_app, ?cancel_answers_app,
             ?encodes_app, ?writes_app, ?progress_trace_own, ?status_trace_own.
    + simpl. rewrite Hh, app_assoc. reflexivity.
    + apply lookup_insert_eq.
    + exists (tr ++ [100])%list. rewrite Ht, !fmap_app. split; [reflexivity|]. split.
      * eapply Sorted_snoc; eauto. lia.
      * simpl. rewrite last_snoc. reflexivity.
    + exists n. rewrite Hst. reflexivity.
    + simpl. rewrite app_nil_r. exact Hc.
    + left. repeat (split; [auto; fail|]). exists res, info.
      split; [reflexivity|]. split.
      * apply elem_of_app. left. inversion Hseen; subst. assumption.
      * simpl. rewrite !app_nil_r. auto.
  - destruct Hp as (lo & enc & [(j & Hq & Hs & Hpr & Hr & He) Hev]).
    destruct Hev as (evs & Hh & (tr & Ht & Hsort & Hl) & (n & Hst) & Hc & Henc & Hwr & Hseen).
    cbn [run]. rewrite Hq. cbn [fst].
    set (jf := with_error m (spread (Some j) Error)).
    exists (evs ++ [Stored jobId jf])%list, jf.
    split; rewrite ?progress_trace_app, ?status_trace_app, ?cancel_answers_app,
             ?encodes_app, ?writes_app, ?progress_trace_own, ?status_trace_own.
    + simpl. rewrite Hh, app_assoc. reflexivity.
    + apply lookup_insert_eq.
    + exists (tr ++ [lo])%list. change (progress jf) with (progress j).
      rewrite Ht, Hpr, !fmap_app. split; [reflexivity|]. split.
      * eapply Sorted_snoc; eauto. lia.
      * simpl. rewrite last_snoc. reflexivity.
    + exists n. rewrite Hst. reflexivity.
    + simpl. rewrite app_nil_r. exact Hc.
    + right. simpl. rewrite !app_nil_r. repeat (split; [auto; fail|]). eauto.
Qed.
End JobRun.

Lemma extractions_app h1 h2 :
  extractions (h1 ++ h2) = (extractions h1 ++ extractions h2)%list.
Proof. apply flat_map_app. Qed.

Lemma probed_app h1 h2 : probed (h1 ++ h2) = (probed h1 ++ probed h2)%list.
Proof. apply flat_map_app. Qed.

Section Suspension.
Context (w : World).

Lemma api_step_history s c :
  exists e, api_event e /\ history (api_step s c) = (history s ++ [e])%list.
Proof. destruct c; simpl; eexists; (split; [|reflexivity]); exact I. Qed.

Lemma suspend_history s :
  exists evs, Forall api_event evs
              /\ history (suspend w s) = (history s ++ evs)%list.
Proof.
  unfold suspend. generalize (others w (history s)). intros cs. revert s.
  induction cs as [|c cs IH]; intros s; simpl.
  - exists []. rewrite app_nil_r. auto.
  - destruct (api_step_history s c) as (e & He & Hh).
    destruct (IH (api_step s c)) as (evs & Hall & Hh').
    exists (e :: evs). split; [constructor; auto|].
    rewrite Hh', Hh, <- app_assoc. reflexivity.
Qed.

Lemma api_events_extractions evs : Forall api_event evs -> extractions evs = [].
Proof.
  induction 1 as [|e evs He _ IH]; [reflexivity|].
  simpl. rewrite IH. destruct e; simpl in *; tauto.
Qed.

Lemma api_events_probed evs : Forall api_event evs -> probed evs = [].
Proof.
  induction 1 as [|e evs He _ IH]; [reflexivity|].
  simpl. rewrite IH. destruct e; simpl in *; tauto.
Qed.
End Suspension.

Section Thumbnails.
Context `{PathModule} (w : World) (inputPath outputDir : string) (interval : Q).

(** The loop from iteration [i] on: it requests the timestamps in
    order and stops at the first extraction that fails. *)
Lemma thumbnail_loop_run n :
  forall i thumbnails s,
  exists evs m,
    (m <= n)%nat
    /\ history (run w (thumbnail_loop inputPath outputDir interval n i thumbnails) s).1
       = (history s ++ evs)%list
    /\ probed evs = []
    /\ match (run w (thumbnail_loop inputPath outputDir interval n i thumbnails) s).2 with
       | Resolved l =>
           m = n
           /\ l = (thumbnails ++ map (fun k => (extraction_at outputDir interval (i + Z.of_nat k) exit_ok).1.2) (seq 0 n))%list
           /\ extractions evs = map (fun k => extraction_at outputDir interval (i + Z.of_nat k) exit_ok) (seq 0 n)
       | Rejected _ =>
           exists m' r, m = S m' /\ r <> exit_ok
             /\ extractions evs
                = (map (fun k => extraction_at outputDir interval (i + Z.of_nat k) exit_ok) (seq 0 m')
                   ++ [extraction_at outputDir interval (i + Z.of_nat m') r])%list
       end.
Proof.
  induction n as [|n IH]; intros i thumbnails s.
  - exists [], 0%nat. simpl. rewrite !app_nil_r. repeat split; auto.
  - cbn [thumbnail_loop run].
    destruct (suspend_history w s) as (evs0 & Hall & Hh0).
    generalize dependent (suspend w s). intros s1 Hh0.
    set (c := FfmpegThumbnail _ _ _).
    generalize (child_process w (history s1) c). intros r.
    assert (Hrec : history (record (Spawned c r) s1) = (history s ++ evs0 ++ [Spawned c r])%list).
    { simpl. rewrite Hh0, <- app_assoc. reflexivity. }
    generalize dependent (record (Spawned c r) s1). intros s2 Hrec.
    assert (Hex0 : extractions (evs0 ++ [Spawned c r]) = [extraction_at outputDir interval (i + Z.of_nat 0) r]).
    { rewrite extractions_app, (api_events_extractions evs0 Hall). simpl.
      unfold extraction_at. rewrite Z.add_0_r. reflexivity. }
    assert (Hpr0 : probed (evs0 ++ [Spawned c r]) = []).
    { rewrite probed_app, (api_events_probed evs0 Hall). reflexivity. }
    assert (Hfail : r <> exit_ok ->
              exists evs m, (m <= S n)%nat /\ history s2 = (history s ++ evs)%list
                /\ probed evs = []
                /\ exists m' r', m = S m' /\ r' <> exit_ok
                     /\ extractions evs
                        = (map (fun k => extraction_at outputDir interval (i + Z.of_nat k) exit_ok) (seq 0 m')
                             ++ [extraction_at outputDir interval (i + Z.of_nat m') r'])%list).
    { intros Hr. exists (evs0 ++ [Spawned c r])%list, 1%nat.
      split; [lia|]. split; [exact Hrec|]. split; [exact Hpr0|].
      exists 0%nat, r. split; [reflexivity|]. split; [exact Hr|]. exact Hex0. }
    destruct r as [code|msg].
    + destruct (is_zero code) eqn:Ez.
      * apply is_zero_true in Ez. subst code. fold exit_ok in Hex0, Hrec, Hpr0.
        destruct (IH (i + 1) (thumbnails ++ [path_join outputDir ("thumbnail_" ++ show_Z i ++ ".jpg")])%list s2)
          as (evs & m & Hm & Hh & Hpr & Hres).
        exists ((evs0 ++ [Spawned c exit_ok]) ++ evs)%list, (S m).
        split; [lia|]. split; [rewrite Hh, Hrec, <- !app_assoc; reflexivity|].
        split; [rewrite probed_app, Hpr0, Hpr; reflexivity|].
        assert (Hshift : forall k,
                   map (fun k => extraction_at outputDir interval (i + Z.of_nat k) exit_ok) (seq 0 (S k))
                   = extraction_at outputDir interval (i + Z.of_nat 0) exit_ok
                       :: map (fun k => extraction_at outputDir interval (i + 1 + Z.of_nat k) exit_ok) (seq 0 k)).
        { intros k. simpl. f_equal. rewrite <- seq_shift, map_map.
          apply map_ext. intros a.
          replace (i + Z.of_nat (S a)) with (i + 1 + Z.of_nat a) by lia. reflexivity. }
        destruct (run w _ s2).2 as [l|msg].
        -- destruct Hres as (-> & -> & Hex). split; [reflexivity|]. split.
           ++ rewrite <- app_assoc. f_equal.
              change (fun k => (extraction_at outputDir interval (i + Z.of_nat k) exit_ok).1.2)
                with (fun k => (fun z => (extraction_at outputDir interval z exit_ok).1.2) (i + Z.of_nat k)).
              simpl seq. simpl map at 2. rewrite Z.add_0_r. f_equal.
              rewrite <- seq_shift, map_map. apply map_ext. intros a.
              simpl. replace (i + Z.of_nat (S a)) with (i + 1 + Z.of_nat a) by lia.
              reflexivity.
           ++ rewrite extractions_app, Hex0, Hex, Hshift. reflexivity.
        -- destruct Hres as (m' & r' & -> & Hr' & Hex).
           exists (S m'), r'. split; [reflexivity|]. split; [exact Hr'|].
           rewrite extractions_app, Hex0, Hex, Hshift. simpl.
           replace (i + Z.of_nat (S m')) with (i + 1 + Z.of_nat m') by lia.
           reflexivity.
      * cbn [run]. apply Hfail. intros E. inversion E; subst. discriminate.
    + cbn [run]. apply Hfail. discriminate.
Qed.
End Thumbnails.

(** ** Thumbnails *)

Section GenerateThumbnails.
Context `{PathModule} (w : World) (inputPath outputDir : string).

Lemma events_since_app s s' evs :
  history s' = (history s ++ evs)%list -> events_since s s' = evs.
Proof. intros E. unfold events_since. rewrite E. apply drop_app_length. Qed.

Lemma map_seq_succ {A} (f : Z -> A) n :
  map (fun k => f (1 + Z.of_nat k)) (seq 0 n) = map (fun i => f (Z.of_nat i)) (seq 1 n).
Proof.
  rewrite <- seq_shift, map_map. apply map_ext. intros a.
  replace (Z.of_nat (S a)) with (1 + Z.of_nat a) by lia. reflexivity.
Qed.

(** What a run of [generateThumbnails] records and returns. *)
Lemma generateThumbnails_run count s :
  let r := run w (generateThumbnails inputPath outputDir count) s in
  exists r0, probed (events_since s r.1) = [r0] /\
    match r0 with
    | Rejected message =>
        r.2 = Rejected message /\ extractions (events_since s r.1) = []
    | Resolved info =>
        let interval := (info_duration info / inject_Z (count + 1))%Q in
        match r.2 with
        | Resolved l =>
            l = map (thumbnail_path outputDir) (seq 1 (Z.to_nat count))
            /\ extractions (events_since s r.1)
               = map (fun i => extraction_at outputDir interval (Z.of_nat i) exit_ok)
                     (seq 1 (Z.to_nat count))
        | Rejected _ =>
            exists m r', (m < Z.to_nat count)%nat /\ r' <> exit_ok
              /\ extractions (events_since s r.1)
                 = (map (fun i => extraction_at outputDir interval (Z.of_nat i) exit_ok)
                        (seq 1 m)
                    ++ [extraction_at outputDir interval (Z.of_nat (S m)) r'])%list
        end
    end.
Proof.
  intros r. subst r. unfold generateThumbnails, mbind, Task_bind, probe.
  cbn [bind run].
  destruct (suspend_history w s) as (evs0 & Hall & Hh0).
  generalize dependent (suspend w s). intros s1 Hh0.
  set (r0 := ffprobe w (history s1) inputPath).
  assert (Hrec : history (record (Probed inputPath r0) s1)
                 = (history s ++ evs0 ++ [Probed inputPath r0])%list).
  { simpl. rewrite Hh0, <- app_assoc. reflexivity. }
  generalize dependent (record (Probed inputPath r0) s1). intros s2 Hrec.
  assert (Hp0 : probed (evs0 ++ [Probed inputPath r0]) = [r0]).
  { rewrite probed_app, (api_events_probed evs0 Hall). reflexivity. }
  assert (Hx0 : extractions (evs0 ++ [Probed inputPath r0]) = []).
  { rewrite extractions_app, (api_events_extractions evs0 Hall). reflexivity. }
  exists r0. clearbody r0. destruct r0 as [info|message]; cbn [settle bind run].
  - set (interval := (info_duration info / inject_Z (count + 1))%Q).
    destruct (thumbnail_loop_run w inputPath outputDir interval (Z.to_nat count) 1 [] s2)
      as (evs & m & Hm & Hh & Hpr & Hres).
    rewrite Hrec, <- app_assoc in Hh.
    rewrite (events_since_app _ _ _ Hh).
    split; [rewrite probed_app, Hp0, Hpr; reflexivity|].
    rewrite extractions_app, Hx0. cbn [app].
    destruct (run w _ s2).2 as [l|msg].
    + destruct Hres as (_ & -> & ->). cbn [app]. split.
      * apply (map_seq_succ (fun z => (extraction_at outputDir interval z exit_ok).1.2)).
      * apply (map_seq_succ (fun z => extraction_at outputDir interval z exit_ok)).
    + destruct Hres as (m' & r' & -> & Hr' & ->). exists m', r'.
      split; [lia|]. split; [exact Hr'|]. f_equal.
      * apply (map_seq_succ (fun z => extraction_at outputDir interval z exit_ok)).
      * replace (1 + Z.of_nat m') with (Z.of_nat (S m')) by lia. reflexivity.
  - cbn [fst snd]. rewrite (events_since_app _ _ _ Hrec). auto.
Qed.
End GenerateThumbnails.

Lemma inject_Z_lt (a b : Z) : a < b -> (inject_Z a < inject_Z b)%Q.
Proof. intros Hlt. rewrite <- Zlt_Qlt. exact Hlt. Qed.

Lemma spaced_inside (d : Q) (c i : Z) :
  (0 < d)%Q -> 1 <= i <= c ->
  (0 < d / inject_Z (c + 1) * inject_Z i
   /\ d / inject_Z (c + 1) * inject_Z i < d)%Q.
Proof.
  intros Hd Hi.
  assert (Hc : (0 < inject_Z (c + 1))%Q) by (apply (inject_Z_lt 0); lia).
  assert (Hi0 : (0 < inject_Z i)%Q) by (apply (inject_Z_lt 0); lia).
  assert (Hic : (inject_Z i < inject_Z (c + 1))%Q) by (apply inject_Z_lt; lia).
  set (x := (d / inject_Z (c + 1))%Q).
  assert (Hx : (0 < x)%Q).
  { apply Qlt_shift_div_l; [exact Hc|]. rewrite Qmult_0_l. exact Hd. }
  assert (Hdx : (d == x * inject_Z (c + 1))%Q).
  { unfold x. field. intros E. rewrite E in Hc. apply (Qlt_irrefl 0). exact Hc. }
  split.
  - apply Qmult_lt_0_compat; assumption.
  - clearbody x. rewrite Hdx. apply Qmult_lt_l; assumption.
Qed.

Lemma spaced_timestamps_inside (d : Q) (count : Z) :
  (0 < d)%Q ->
  Forall (fun t => (0 < t /\ t < d)%Q) (spaced_timestamps d count).
Proof.
  intros Hd. unfold spaced_timestamps. apply Forall_map, Forall_forall.
  intros i Hi. apply list_elem_of_In, in_seq in Hi.
  apply spaced_inside; [exact Hd|lia].
Qed.

(** C7 (amended). For every count >= 1 and duration > 0 reported by the probe,
    [generateThumbnails] requests timestamps duration/(count+1)*i in the
    order i = 1, 2, ...: always a prefix of that schedule, and the whole
    schedule of exactly [count] timestamps unless an extraction fails;
    every timestamp of the schedule lies strictly inside (0, duration);
    for count 5 and duration 100 they are 16.67, 33.33, 50, 66.67, 83.33
    to within 0.005. *)
Theorem thumbnail_timestamps_spaced `{PathModule} (w : World)
        (inputPath outputDir : string) (count : Z) (s : State)
        (info : VideoInfo) :
  1 <= count -> (0 < info_duration info)%Q ->
  let r := run w (generateThumbnails inputPath outputDir count) s in
  let evs := events_since s r.1 in
  let d := info_duration info in
  probed evs = [Resolved info] ->
  (exists rest, spaced_timestamps d count = (requested_timestamps evs ++ rest)%list)
  /\ (is_rejected r.2 = false ->
      requested_timestamps evs = spaced_timestamps d count)
  /\ length (spaced_timestamps d count) = Z.to_nat count
  /\ Forall (fun t => (0 < t /\ t < d)%Q) (spaced_timestamps d count)
  /\ Forall2 (fun t rounded => (Qabs (t - rounded) <= 0.005)%Q)
       (spaced_timestamps 100 5) [16.67; 33.33; 50; 66.67; 83.33]%Q.
Proof.
  intros Hcount Hd r evs d Hprobed.
  destruct (generateThumbnails_run w inputPath outputDir count s) as (r0 & Hp & Hrun).
  fold r evs in Hp, Hrun. rewrite Hprobed in Hp. injection Hp as <-.
  cbv zeta in Hrun. fold d in Hrun.
  assert (Hts : forall n,
             map (fun x : Q * string * proc_exit => x.1.1)
               (map (fun i => extraction_at outputDir (d / inject_Z (count + 1))
                                (Z.of_nat i) exit_ok) (seq 1 n))
             = map (fun i => (d / inject_Z (count + 1) * inject_Z (Z.of_nat i))%Q)
                 (seq 1 n)).
  { intros n. rewrite map_map. reflexivity. }
  split; [|split; [|split; [|split]]].
  - unfold requested_timestamps, spaced_timestamps.
    destruct r.2 as [l|msg].
    + destruct Hrun as [_ ->]. exists []. rewrite app_nil_r, Hts. reflexivity.
    + destruct Hrun as (m & r' & Hm & _ & ->).
      exists (map (fun i => (d / inject_Z (count + 1) * inject_Z (Z.of_nat i))%Q)
                (seq (1 + S m) (Z.to_nat count - S m))).
      assert (Hseq : seq 1 (Z.to_nat count)
                     = (seq 1 m ++ S m :: seq (1 + S m) (Z.to_nat count - S m))%list).
      { replace (Z.to_nat count) with (m + S (Z.to_nat count - S m))%nat at 1 by lia.
        rewrite seq_app. reflexivity. }
      rewrite Hseq, !map_app, Hts, <- app_assoc. reflexivity.
  - unfold requested_timestamps, spaced_timestamps.
    destruct r.2 as [l|msg]; [|discriminate].
    intros _. destruct Hrun as [_ ->]. apply Hts.
  - unfold spaced_timestamps. rewrite length_map, length_seq. reflexivity.
  - apply spaced_timestamps_inside. exact Hd.
  - repeat constructor; vm_compute; discriminate.
Qed.

(** C9. If any thumbnail extraction fails, [generateThumbnails] rejects:
    no list is returned.  When it resolves, every extraction exited with
    code 0 and the list holds one path per requested timestamp,
    thumbnail_1.jpg up to thumbnail_count.jpg. *)
Theorem thumbnails_all_or_nothing `{PathModule} (w : World)
        (inputPath outputDir : string) (count : Z) (s : State) :
  let r := run w (generateThumbnails inputPath outputDir count) s in
  let evs := events_since s r.1 in
  (Exists (fun x => x.2 <> exit_ok) (extractions evs) -> is_rejected r.2 = true)
  /\ (forall l, r.2 = Resolved l ->
        Forall (fun x => x.2 = exit_ok) (extractions evs)
        /\ l = map (fun x => x.1.2) (extractions evs)
        /\ length l = length (requested_timestamps evs)
        /\ length l = Z.to_nat count
        /\ l = map (thumbnail_path outputDir) (seq 1 (Z.to_nat count))).
Proof.
  intros r evs.
  destruct (generateThumbnails_run w inputPath outputDir count s) as (r0 & Hp & Hrun).
  fold r evs in Hp, Hrun.
  assert (Hok : forall l, r.2 = Resolved l ->
            Forall (fun x => x.2 = exit_ok) (extractions evs)
            /\ l = map (fun x => x.1.2) (extractions evs)
            /\ length l = length (requested_timestamps evs)
            /\ length l = Z.to_nat count
            /\ l = map (thumbnail_path outputDir) (seq 1 (Z.to_nat count))).
  { intros l Hl. destruct r0 as [info|message].
    - cbv zeta in Hrun. rewrite Hl in Hrun. destruct Hrun as [-> Hx].
      unfold requested_timestamps. rewrite Hx.
      split; [apply Forall_map, Forall_forall; intros; reflexivity|].
      split; [rewrite map_map; reflexivity|].
      rewrite !length_map, length_seq. auto.
    - destruct Hrun as [Hr _]. congruence. }
  split; [|exact Hok].
  intros Hex. destruct r.2 as [l|msg] eqn:Er; [|reflexivity].
  destruct (Hok l eq_refl) as [Hall _].
  apply Exists_exists in Hex. destruct Hex as (x & Hin & Hx).
  rewrite Forall_forall in Hall. destruct Hx. apply Hall. exact Hin.
Qed.

Section QueueClaims.
Context `{PathModule}.

Lemma job_report_since jobId inputPath outputDir s s' evs j :
  job_report jobId inputPath outputDir s s' evs j -> events_since s s' = evs.
Proof. intros R. eapply events_since_app, report_history; eauto. Qed.

(** The state in which [addJob] returns. *)
Lemma addJob_returns (w : World) (jobId inputPath outputDir : string)
      (options : Options) (s : State) :
  let queued := {| status := Queued; progress := Some 0; result := None;
                   error := None;
                   startTime := Some (Date_now w (history s)) |} in
  let processing := {| status := Processing; progress := Some 0;
                       result := None; error := None;
                       startTime := Some (Date_now w (history s)) |} in
  (addJob w jobId inputPath outputDir options s).1
  = (store jobId processing (store jobId queued s), Resolved tt).
Proof.
  unfold addJob, addJob_task, processJob. cbn [start try_catch].
  cbn [store queue]. rewrite lookup_insert_eq.
  unfold processVideoWithAdaptiveStreaming, fs_mkdir, mbind, Task_bind.
  cbn [start try_catch bind spread]. reflexivity.
Qed.

(** C3 (amended). [addJob] never rejects.  Whatever the registry holds
    for the id, it stores a fresh queued entry with progress 0 over it
    and starts the job at once: when [addJob] returns the entry is
    processing at progress 0, and no other entry has changed. *)
Theorem addJob_always_inserts (w : World)
        (jobId inputPath outputDir : string) (options : Options) (s : State) :
  let r := addJob w jobId inputPath outputDir options s in
  let entry status :=
    {| status := status; progress := Some 0; result := None; error := None;
       startTime := Some (Date_now w (history s)) |} in
  r.1.2 = Resolved tt
  /\ events_since s r.1.1
     = [Stored jobId (entry Queued); Stored jobId (entry Processing)]
  /\ getJobStatus jobId (queue r.1.1) = Some (entry Processing)
  /\ (forall id, id <> jobId -> queue r.1.1 !! id = queue s !! id).
Proof.
  intros r entry. subst r. rewrite addJob_returns. cbn [fst snd].
  split; [reflexivity|]. split; [|split].
  - apply events_since_app. simpl. rewrite <- app_assoc. reflexivity.
  - unfold getJobStatus. simpl. apply lookup_insert_eq.
  - intros id Hne. simpl. rewrite !lookup_insert_ne by auto. reflexivity.
Qed.
End QueueClaims.

(** C10. Every entry [getJobStatus] can return has one of the four
    statuses queued, processing, completed, error, never cancelled; and
    when [cancelJob] returns true the entry was queued and is deleted, so
    [getJobStatus] finds nothing afterwards. *)
Theorem registry_statuses (registry : gmap string Job) (jobId : string) :
  (forall job, getJobStatus jobId registry = Some job ->
     In (status_name (status job)) ["queued"; "processing"; "completed"; "error"]
     /\ status_name (status job) <> "cancelled")
  /\ ((cancelJob jobId registry).1 = true ->
      getJobStatus jobId (cancelJob jobId registry).2 = None
      /\ exists job, getJobStatus jobId registry = Some job
                     /\ status job = Queued).
Proof.
  split.
  - intros job _. destruct (status job); simpl; split; auto; discriminate.
  - unfold cancelJob, getJobStatus.
    destruct (registry !! jobId) as [job|] eqn:Hq; [|discriminate].
    destruct (status job) eqn:Hs; try discriminate.
    intros _. simpl. split; [apply lookup_delete_eq|]. eauto.
Qed.

(** ** Media inspector *)

Module ProbeFacts.
Import Probe.


Section Probe.
Context `{JsRuntime}.

Lemma find_when_absent kind items :
  no_stream kind items ->
  find_codec_type kind items = Normal JUndefined
  \/ exists e, find_codec_type kind items = Throw e.
Proof.
  induction 1 as [|s items Hs _ IH]; [left; reflexivity|].
  simpl. destruct s; simpl; eauto.
  rewrite Hs. exact IH.
Qed.

Lemma find_when_absent_no_null kind items :
  no_null items -> no_stream kind items ->
  find_codec_type kind items = Normal JUndefined.
Proof.
  intros Hn Hs. induction Hs as [|s items Hs _ IH]; [reflexivity|].
  inversion Hn as [|? ? [Hnull Hundef] Hn']; subst.
  simpl. destruct s; simpl; try tauto; try (apply IH; assumption).
  rewrite Hs. apply IH. assumption.
Qed.

Lemma find_total kind items :
  no_null items -> exists v, find_codec_type kind items = Normal v.
Proof.
  induction 1 as [|s items [Hnull Hundef] _ IH]; simpl; [eauto|].
  destruct s; simpl; try tauto; auto.
  destruct (strict_eq_string _ _); eauto.
Qed.

Lemma find_returns kind items v :
  find_codec_type kind items = Normal v ->
  v = JUndefined \/ exists fields, v = JObject fields.
Proof.
  induction items as [|s items IH]; simpl.
  - intros [= <-]. auto.
  - destruct s; simpl; auto; try discriminate.
destruct (strict_eq_string (assoc "codec_type" fields) kind); auto.
intros [= <-]. eauto.
Qed.

Lemma probe_rejects_exit output code :
  code <> Some 0 -> is_rejected (probe output (Close code)) = true.
Proof.
  intros Hc. unfold probe.
  destruct code as [[| |]|]; simpl; congruence.
Qed.

Lemma probe_rejects_unparsable output e :
  JSON_parse output = Throw e ->
  probe output (Close (Some 0))
  = Rejected ("Failed to parse FFprobe output: " ++ e).
Proof.
  intros Hp. unfold probe, parse_output. simpl. rewrite Hp. reflexivity.
Qed.

Lemma probe_rejects_no_video output data streams :
  JSON_parse output = Normal data ->
  get data "streams" = Normal streams ->
  match streams with JArray items => no_stream "video" items | _ => True end ->
  is_rejected (probe output (Close (Some 0))) = true.
Proof.
  intros Hp Hg Hs. unfold probe, parse_output. simpl. rewrite Hp. simpl.
  rewrite Hg. simpl.
  destruct streams as [| | | | |items|]; try reflexivity.
  simpl. destruct (find_when_absent "video" items Hs) as [E|[e E]]; rewrite E; simpl.
  - destruct (find_codec_type "audio" items); reflexivity.
  - reflexivity.
Qed.

(** What the probe resolves with on well-formed output. *)
Lemma probe_resolves output top items vfields fmt f :
  JSON_parse output = Normal (JObject top) ->
  assoc "streams" top = JArray items ->
  no_null items ->
  find_codec_type "video" items = Normal (JObject vfields) ->
  assoc "format" top = fmt -> fmt <> JNull -> fmt <> JUndefined ->
  js_eval (js_or (assoc "r_frame_rate" vfields) (JString "0/1")) = Normal f ->
  exists audioStream d b n ac,
find_codec_type "audio" items = Normal audioStream
/\ get fmt "duration" = Normal d
/\ get fmt "bit_rate" = Normal b
/\ get fmt "format_name" = Normal n
/\ get_optional audioStream "codec_name" = Normal ac
/\ probe output (Close (Some 0))
   = Resolved
       {| duration := parseFloat (js_or d (JNumber (Num 0)));
          width := js_or (assoc "width" vfields) (JNumber (Num 0));
          height := js_or (assoc "height" vfields) (JNumber (Num 0));
          bitrate := parseInt (js_or b (JNumber (Num 0)));
          fps := f;
          format := js_or n (JString "");
          codecs := {| video := js_or (assoc "codec_name" vfields) (JString "");
                       audio := js_or ac (JString "") |} |}.
Proof.
  intros Hp Hs Hn Hv Hf Hf1 Hf2 He.
  destruct (find_total "audio" items Hn) as [audioStream Ha].
  assert (Hg : forall key, exists v, get fmt key = Normal v).
  { intros key. destruct fmt; simpl; eauto; congruence. }
  destruct (Hg "duration") as [d Hd], (Hg "bit_rate") as [b Hb],
       (Hg "format_name") as [n Hname].
  assert (Hac : exists ac, get_optional audioStream "codec_name" = Normal ac).
  { destruct (find_returns _ _ _ Ha) as [->|[fields ->]]; simpl; eauto. }
  destruct Hac as [ac Hac].
  exists audioStream, d, b, n, ac. repeat (split; [assumption|]).
  unfold probe, parse_output. simpl. rewrite Hp. simpl. rewrite Hs. simpl.
  rewrite Hv. simpl. rewrite Ha. simpl. rewrite Hf, Hd. simpl.
  rewrite Hb. simpl. rewrite He. simpl. rewrite Hname. simpl.
  rewrite Hac. reflexivity.
Qed.

(** C8. The probe rejects when [ffprobe] exits with anything but 0,
when its output does not parse, and when the output lists no video
stream.  On output that parses to an object with a video stream and
a format, it resolves; then a missing audio stream gives the empty
audio codec, and a missing duration or bit rate gives what
[parseFloat(0)] or [parseInt(0)] is, namely 0. *)
Theorem probe_failures_and_defaults :
  parseFloat (JNumber (Num 0)) = Num 0 ->
  parseInt (JNumber (Num 0)) = Num 0 ->
  (forall output code,
 code <> Some 0 -> is_rejected (probe output (Close code)) = true)
  /\ (forall output e,
    JSON_parse output = Throw e ->
    is_rejected (probe output (Close (Some 0))) = true)
  /\ (forall output data streams,
    JSON_parse output = Normal data ->
    get data "streams" = Normal streams ->
    match streams with
    | JArray items => no_stream "video" items
    | _ => True
    end ->
    is_rejected (probe output (Close (Some 0))) = true)
  /\ (forall output top items vfields ffields f,
    JSON_parse output = Normal (JObject top) ->
    assoc "streams" top = JArray items ->
    no_null items ->
    find_codec_type "video" items = Normal (JObject vfields) ->
    assoc "format" top = JObject ffields ->
    js_eval (js_or (assoc "r_frame_rate" vfields) (JString "0/1")) = Normal f ->
    exists info,
      probe output (Close (Some 0)) = Resolved info
      /\ (no_stream "audio" items -> audio (codecs info) = JString "")
      /\ (assoc "duration" ffields = JUndefined -> duration info = Num 0)
      /\ (assoc "bit_rate" ffields = JUndefined -> bitrate info = Num 0)).
Proof.
  intros Hfloat Hint. split; [|split; [|split]].
  - apply probe_rejects_exit.
  - intros output e Hp. rewrite (probe_rejects_unparsable _ _ Hp). reflexivity.
  - apply probe_rejects_no_video.
  - intros output top items vfields ffields f Hp Hs Hn Hv Hf He.
destruct (probe_resolves output top items vfields (JObject ffields) f
            Hp Hs Hn Hv Hf ltac:(discriminate) ltac:(discriminate) He)
  as (audioStream & d & b & n & ac & Ha & Hd & Hb & Hname & Hac & Hprobe).
eexists. split; [exact Hprobe|]. simpl in *.
injection Hd as <-. injection Hb as <-.
split; [|split].
+ intros Hno. rewrite (find_when_absent_no_null "audio" items Hn Hno) in Ha.
  injection Ha as <-. simpl in Hac. injection Hac as <-. reflexivity.
+ intros ->. exact Hfloat.
+ intros ->. exact Hint.
Qed.
End Probe.
End ProbeFacts.

Lemma probe_failures_and_defaults_witness :
  exists info,
    @Probe.probe Probe.sample_runtime Probe.sample_output (Probe.Close (Some 0))
    = Resolved info
    /\ Probe.audio (Probe.codecs info) = Probe.JString ""
    /\ Probe.duration info = Probe.Num 0
    /\ Probe.bitrate info = Probe.Num 0.
Proof.
  destruct (proj2 (proj2 (proj2
              (@ProbeFacts.probe_failures_and_defaults Probe.sample_runtime
                 eq_refl eq_refl)))
              Probe.sample_output _ _ _ _ _ eq_refl eq_refl
              ltac:(repeat constructor; discriminate) eq_refl eq_refl eq_refl)
    as (info & Hp & Ha & Hd & Hb).
  exists info. split; [exact Hp|]. split; [|split].
  - apply Ha. repeat constructor.
  - apply Hd. reflexivity.
  - apply Hb. reflexivity.
Defined.

(** ** Planner, and the samples *)

(** The plan, by the highest rung the source height reaches. *)
Lemma plan_cases (w h : Z) (d : Q) :
  generateOptimalVariants w h d =
    if h >=? 1080 then map ladder_variant qualityConfigs
    else if h >=? 720 then map ladder_variant (take 3 qualityConfigs)
    else if h >=? 480 then map ladder_variant (take 2 qualityConfigs)
    else if h >=? 360 then map ladder_variant (take 1 qualityConfigs)
    else [fallback_variant w h].
Proof.
  unfold generateOptimalVariants, qualityConfigs; simpl.
  repeat match goal with
         | |- context [?a >=? ?b] => destruct (Z.geb_spec a b)
         end; try reflexivity; lia.
Qed.

(** C5. For every source, the plan includes a ladder rendition exactly
    when the source height is at least the rendition's reference height;
    the plan is never empty; and a 1920x1080 source gets 360p, 480p,
    720p, 1080p in that order. *)
Theorem planner_ladder_iff (w h : Z) (d : Q) :
  Forall (fun config =>
            includes_rendition (generateOptimalVariants w h d) config
            <-> h >= maxSourceHeight config) qualityConfigs
  /\ (1 <= length (generateOptimalVariants w h d))%nat
  /\ generateOptimalVariants 1920 1080 600 = map ladder_variant qualityConfigs
  /\ map name (generateOptimalVariants 1920 1080 600)
     = ["360p"; "480p"; "720p"; "1080p"].
Proof.
  split; [|split; [|split; reflexivity]].
  - rewrite plan_cases. unfold includes_rendition, qualityConfigs.
    repeat match goal with
           | |- context [?a >=? ?b] => destruct (Z.geb_spec a b)
           end; try lia;
      repeat (apply List.Forall_cons || apply List.Forall_nil);
      cbn [map take maxSourceHeight]; (split; [intros HH|intros HH; try lia]);
      try lia;
      try (rewrite !elem_of_cons; tauto);
      rewrite ?elem_of_cons, elem_of_nil in HH; exfalso;
      repeat (destruct HH as [HH|HH]; [discriminate HH|]); exact HH.
  - rewrite plan_cases.
    repeat match goal with
           | |- context [?a >=? ?b] => destruct (Z.geb_spec a b)
           end; simpl; lia.
Qed.

(** C4 (amended). [planVariants(480,360,10)] is the single ladder
    rendition 360p, 640x360.  The fallback variant is planned exactly for
    sources lower than 360: it is then the whole plan, capped at the
    source's dimensions and at 854x480. *)
Theorem fallback_only_below_lowest_rung (w h : Z) (d : Q) :
  generateOptimalVariants 480 360 10 = [ladder_variant rung_360p]
  /\ (h < 360 ->
      generateOptimalVariants w h d = [fallback_variant w h]
      /\ is_fallback_plan w h (generateOptimalVariants w h d))
  /\ (360 <= h ->
      includes_rendition (generateOptimalVariants w h d) rung_360p
      /\ ~ is_fallback_plan w h (generateOptimalVariants w h d)).
Proof.
  split; [reflexivity|]. rewrite plan_cases. split; intros Hh.
  - repeat match goal with
           | |- context [?a >=? ?b] => destruct (Z.geb_spec a b)
           end; try lia.
    split; [reflexivity|]. exists (fallback_variant w h).
    split; [reflexivity|]. simpl.
    repeat (split; [lia|]).
    repeat (apply List.Forall_cons || apply List.Forall_nil); discriminate.
  - assert (Hin : forall plan, includes_rendition plan rung_360p ->
                    ~ is_fallback_plan w h plan
                    \/ exists v, plan = [v] /\ v = ladder_variant rung_360p).
    { intros plan Hp. destruct plan as [|v [|v' plan]].
      - left. intros (v & E & _). discriminate.
      - right. exists v. split; [reflexivity|].
        apply list_elem_of_singleton in Hp. auto.
      - left. intros (v0 & E & _). discriminate. }
    assert (Hinc : includes_rendition
                     (if h >=? 1080 then map ladder_variant qualityConfigs
                      else if h >=? 720 then map ladder_variant (take 3 qualityConfigs)
                      else if h >=? 480 then map ladder_variant (take 2 qualityConfigs)
                      else if h >=? 360 then map ladder_variant (take 1 qualityConfigs)
                      else [fallback_variant w h]) rung_360p).
    { unfold includes_rendition.
      repeat match goal with
             | |- context [?a >=? ?b] => destruct (Z.geb_spec a b)
             end; try lia; apply list_elem_of_here. }
    split; [exact Hinc|].
    destruct (Hin _ Hinc) as [Hno|(v & E & ->)]; [exact Hno|].
    rewrite E. intros (v & [= <-] & _ & _ & _ & _ & Hall).
    inversion Hall as [|? ? Hne _]; subst. apply Hne. reflexivity.
Qed.

Lemma calm_single_writer d w h jobId :
  single_writer (calm_world d w h [CallCancel jobId; CallGetStatus jobId]) jobId.
Proof.
  intros hist id j Hin. simpl in Hin.
  repeat (apply elem_of_cons in Hin as [Hin|Hin]; [discriminate|]).
  apply elem_of_nil in Hin. contradiction.
Qed.


(** C4, the spec's example: the plan for 480x360 is the 360p rung,
    whose width 640 exceeds the source's 480; it is not a fallback. *)
Lemma plan_480_360_is_the_360p_rung :
  generateOptimalVariants 480 360 10 = [ladder_variant rung_360p]
  /\ width (ladder_variant rung_360p) = 640
  /\ ~ is_fallback_plan 480 360 (generateOptimalVariants 480 360 10).
Proof.
  split; [reflexivity|]. split; [reflexivity|].
  intros (v & E & Hw & _). injection E as <-. simpl in Hw. lia.
Qed.

Lemma fallback_only_below_lowest_rung_witness :
  generateOptimalVariants 480 359 10 = [fallback_variant 480 359]
  /\ is_fallback_plan 480 359 (generateOptimalVariants 480 359 10).
Proof.
  apply (proj1 (proj2 (fallback_only_below_lowest_rung 480 359 10))). lia.
Defined.



(** C3, on an id whose job is processing at progress 40: [addJob]
    resolves, and the entry is a new one at progress 0. *)
Lemma addJob_overwrites_running_job :
  (@addJob posix_join (calm_world 600 1920 1080 []) "a" "in.mp4" "out"
     no_options busy).1.2 = Resolved tt
  /\ (progress <$> getJobStatus "a" (queue busy)) = Some (Some 40)
  /\ (progress <$> getJobStatus "a"
        (queue (@addJob posix_join (calm_world 600 1920 1080 []) "a" "in.mp4"
                  "out" no_options busy).1.1)) = Some (Some 0)
  /\ ~ @rejects_duplicate posix_join (calm_world 600 1920 1080 []) "a"
         "in.mp4" "out" no_options busy.
Proof.
  split; [reflexivity|]. split; [vm_compute; reflexivity|].
  split; [vm_compute; reflexivity|]. intros Hclaim.
  assert (Hb : queue busy !! "a"
               = Some {| status := Processing; progress := Some 40;
                         result := None; error := None;
                         startTime := Some 1600000000000 |})
    by (vm_compute; reflexivity).
  destruct (Hclaim _ Hb (or_intror eq_refl)) as [Hrej _].
  discriminate Hrej.
Qed.

Lemma thumbnail_timestamps_spaced_witness :
  requested_timestamps (events_since fresh thumbnail_run.1)
  = spaced_timestamps 100 5.
Proof.
  refine (proj1 (proj2 (@thumbnail_timestamps_spaced posix_join
            (calm_world 100 1920 1080 []) "in.mp4" "out" 5 fresh
            {| info_duration := 100; info_width := 1920; info_height := 1080 |}
            _ _ _)) _).
  - lia.
  - reflexivity.
  - vm_compute. reflexivity.
  - vm_compute. reflexivity.
Defined.

Lemma thumbnails_all_or_nothing_witness :
  is_rejected failed_thumbnail_run.2 = true.
Proof.
  apply (proj1 (@thumbnails_all_or_nothing posix_join world_with_failing_thumbnail
                  "in.mp4" "out" 5 fresh)).
  apply Exists_exists.
  exists (extraction_at (H:=posix_join) "out" (100 / inject_Z (5 + 1)) 2
            (Probe.Close (Some 1))).
  split; [|discriminate]. vm_compute. right. left.
Defined.

Lemma registry_statuses_witness :
  getJobStatus "a" (cancelJob "a" waiting).2 = None
  /\ exists job, getJobStatus "a" waiting = Some job /\ status job = Queued.
Proof.
  apply (proj2 (registry_statuses waiting "a")). vm_compute. reflexivity.
Defined.

(** * Further properties of the code *)

(** ** What a task records *)

Section Emits.
Context (w : World).

Lemma emits_weaken {A} (P Q : event -> Prop) (t : Task A) :
  (forall e, P e -> Q e) -> emits P t -> emits Q t.
Proof.
  intros HPQ. induction t; simpl; intros Ht; auto;
    try (intros r; destruct (Ht r); split; auto).
  destruct Ht; split; auto.
Qed.

Lemma emits_bind {A B} (P : event -> Prop) (t : Task A) (f : A -> Task B) :
  emits P t -> (forall a, emits P (f a)) -> emits P (bind t f).
Proof.
  intros Ht Hf. induction t; simpl in *; auto;
    try (intros r; destruct (Ht r); split; auto).
  destruct Ht; split; auto.
Qed.

Lemma emits_try_catch {A} (P : event -> Prop) (t : Task A)
      (handler : string -> Task A) :
  emits P t -> (forall message, emits P (handler message)) ->
  emits P (try_catch t handler).
Proof.
  intros Ht Hh. induction t; simpl in *; auto;
    try (intros r; destruct (Ht r); split; auto).
  destruct Ht; split; auto.
Qed.

(** A run extends the history by the task's own events and those of
    other callers. *)
Lemma emits_history {A} (P : event -> Prop) (t : Task A) (s : State) :
  emits P t ->
  exists evs, history (run w t s).1 = (history s ++ evs)%list
              /\ Forall (fun e => P e \/ api_event e) evs.
Proof.
  intros Ht.
  revert s. induction t as [a|m|p k IH|c k IH|c k IH|k IH|id k IH|id j k IH];
    intros s; simpl in *.
  - exists []. rewrite app_nil_r. auto.
  - exists []. rewrite app_nil_r. auto.
  - destruct (suspend_history w s) as (evs0 & Hall & Hh0).
    set (r := ffprobe w (history (suspend w s)) p).
    destruct (Ht r) as [HP Hk].
    destruct (IH r Hk (record (Probed p r) (suspend w s))) as (evs & Hh & Hev).
    exists (evs0 ++ Probed p r :: evs)%list. split.
    + rewrite Hh. simpl. rewrite Hh0, <- !app_assoc. reflexivity.
    + apply Forall_app. split.
      * eapply Forall_impl; [exact Hall|]. simpl. auto.
      * constructor; auto.
  - destruct (suspend_history w s) as (evs0 & Hall & Hh0).
    set (r := child_process w (history (suspend w s)) c).
    destruct (Ht r) as [HP Hk].
    destruct (IH r Hk (record (Spawned c r) (suspend w s))) as (evs & Hh & Hev).
    exists (evs0 ++ Spawned c r :: evs)%list. split.
    + rewrite Hh. simpl. rewrite Hh0, <- !app_assoc. reflexivity.
    + apply Forall_app. split.
      * eapply Forall_impl; [exact Hall|]. simpl. auto.
      * constructor; auto.
  - destruct (suspend_history w s) as (evs0 & Hall & Hh0).
    set (r := file_system w (history (suspend w s)) c).
    destruct (Ht r) as [HP Hk].
    destruct (IH r Hk (record (FsDone c r) (suspend w s))) as (evs & Hh & Hev).
    exists (evs0 ++ FsDone c r :: evs)%list. split.
    + rewrite Hh. simpl. rewrite Hh0, <- !app_assoc. reflexivity.
    + apply Forall_app. split.
      * eapply Forall_impl; [exact Hall|]. simpl. auto.
      * constructor; auto.
  - apply IH. apply Ht.
  - apply IH. apply Ht.
  - destruct Ht as [HP Hk].
    destruct (IH Hk (store id j s)) as (evs & Hh & Hev).
    exists (Stored id j :: evs). split.
    + rewrite Hh. simpl. rewrite <- app_assoc. reflexivity.
    + constructor; auto.
Qed.

Lemma emits_run {A} (P : event -> Prop) (t : Task A) (s : State) :
  emits P t ->
  Forall (fun e => P e \/ api_event e) (events_since s (run w t s).1).
Proof.
  intros Ht. destruct (emits_history P t s Ht) as (evs & Hh & Hev).
  rewrite (events_since_app s _ _ Hh). exact Hev.
Qed.

Lemma emits_anything {A} (t : Task A) : emits (fun _ => True) t.
Proof. induction t; simpl; auto. Qed.

Lemma run_extends {A} (t : Task A) (s : State) :
  exists evs, history (run w t s).1 = (history s ++ evs)%list.
Proof.
  destruct (emits_history _ t s (emits_anything t)) as (evs & Hh & _). eauto.
Qed.

Lemma events_since_refl (s : State) : events_since s s = [].
Proof. apply events_since_app. rewrite app_nil_r. reflexivity. Qed.

Lemma events_since_trans (s1 s2 s3 : State) evs evs' :
  history s2 = (history s1 ++ evs)%list ->
  history s3 = (history s2 ++ evs')%list ->
  events_since s1 s3 = (events_since s1 s2 ++ events_since s2 s3)%list.
Proof.
  intros H12 H23.
  rewrite (events_since_app _ _ _ H12), (events_since_app _ _ _ H23).
  apply events_since_app. rewrite H23, H12, app_assoc. reflexivity.
Qed.

(** The events of [t] followed by [f]: those of [t], then those of
    [f] when [t] resolved. *)
Lemma events_since_bind {A B} (t : Task A) (f : A -> Task B) (s : State) :
  events_since s (run w (bind t f) s).1
  = (events_since s (run w t s).1
     ++ match (run w t s).2 with
        | Resolved a =>
            events_since (run w t s).1 (run w (f a) (run w t s).1).1
        | Rejected _ => []
        end)%list.
Proof.
  rewrite run_bind. destruct (run_extends t s) as (evs & Hh).
  destruct (run w t s) as [s1 [a|m]] eqn:E; simpl in *.
  - destruct (run_extends (f a) s1) as (evs' & Hh').
    eapply events_since_trans; eauto.
  - rewrite app_nil_r. reflexivity.
Qed.

End Emits.

(** ** The pipeline: what it records and what it returns *)

Section PipelineEvents.
Context `{PathModule} (w : World) (inputPath outputDir : string)
        (options : Options).

Let P := pipeline_event inputPath outputDir options.

Lemma emits_thumbnail_loop interval n i thumbnails :
  thumbnails_enabled options = true ->
  emits P (thumbnail_loop inputPath (path_join outputDir "thumbnails")
             interval n i thumbnails).
Proof.
  intros Hen. revert i thumbnails.
  induction n as [|n IH]; intros i thumbnails; simpl; [exact I|].
  intros r. split; [split; [exact Hen|split; [reflexivity|eauto]]|].
  destruct r as [code|m]; [|exact I].
  destruct (is_zero code); [apply IH|exact I].
Qed.

Lemma emits_hls_loop variants content :
  emits P (hls_loop inputPath outputDir variants content).
Proof.
  revert content. induction variants as [|v vs IH]; intros content; simpl; [exact I|].
  intros m. split; [right; right; eauto|].
  destruct m as [e|]; [exact I|]. simpl.
  intros r. split; [split; reflexivity|].
  destruct r as [code|e]; [|exact I].
  destruct (is_zero code); [apply IH|exact I].
Qed.

Lemma pipeline_emits :
  callback_quiet options ->
  emits P (processVideoWithAdaptiveStreaming inputPath outputDir options).
Proof.
  intros Hcb. unfold processVideoWithAdaptiveStreaming, mbind, Task_bind.
  assert (Hon : forall p stage,
             emits P (default (fun _ _ => Return tt) (opt_onProgress options) p stage)).
  { intros p stage. unfold callback_quiet in Hcb.
    destruct (opt_onProgress options) as [cb|]; simpl; [|exact I].
    eapply emits_weaken; [|apply Hcb]. intros [] He; simpl in *; tauto. }
  cbv zeta.
  apply emits_bind.
  { intros r. split; [left; reflexivity|]. destruct r; exact I. }
  intros _. apply emits_try_catch; [|intros; exact I].
  apply emits_bind; [apply Hon|]. intros _.
  apply emits_bind.
  { intros r. split; [reflexivity|]. destruct r; exact I. }
  intros videoInfo. apply emits_bind; [apply Hon|]. intros _.
  apply emits_bind.
  { fold (thumbnails_enabled options).
    destruct (thumbnails_enabled options) eqn:Hen; [|exact I].
    apply emits_bind; [apply Hon|]. intros _.
    apply emits_bind.
    { intros r. split; [right; left; auto|]. destruct r; exact I. }
    intros _. unfold generateThumbnails, mbind, Task_bind, probe. simpl.
    intros r. split; [reflexivity|].
    destruct r as [info|m]; simpl; [|exact I].
    apply emits_thumbnail_loop. exact Hen. }
  intros thumbnails. apply emits_bind.
  { fold (preview_enabled options).
    destruct (preview_enabled options) eqn:Hen; [|exact I].
    apply emits_bind; [apply Hon|]. intros _.
    apply emits_bind; [|intros; exact I].
    unfold transcode, mbind, Task_bind, checkFFmpegAvailability. simpl.
    intros r. split; [exact Hen|].
    destruct r as [code|m]; simpl; [|exact I].
    destruct (is_zero code); simpl; [|exact I].
    intros r1. split; [reflexivity|].
    intros r2. split; [auto|].
    destruct r2 as [code2|m2]; [|exact I].
    destruct (is_zero code2); exact I. }
  intros preview. apply emits_bind; [apply Hon|]. intros _.
  apply emits_bind.
  { unfold createHLSPlaylist, mbind, Task_bind. cbv zeta.
    apply emits_bind; [apply emits_hls_loop|].
    intros content. simpl. intros r. split; [reflexivity|].
    destruct r; exact I. }
  intros hlsPlaylist. apply emits_bind; [apply Hon|]. intros _. exact I.
Qed.

Lemma pipeline_events (s : State) :
  callback_quiet options ->
  Forall P (events_since s
              (run w (processVideoWithAdaptiveStreaming inputPath outputDir
                        options) s).1).
Proof.
  intros Hcb. eapply Forall_impl; [apply (emits_run w P); apply pipeline_emits; exact Hcb|].
  intros e [He|He]; [exact He|]. destruct e; simpl in *; tauto.
Qed.
End PipelineEvents.




Section PipelineResult.
Context `{PathModule} (w : World).

Lemma run_bind_resolved {A B} (t : Task A) (f : A -> Task B) (s : State) (b : B) :
  (run w (bind t f) s).2 = Resolved b ->
  exists a, (run w t s).2 = Resolved a
            /\ (run w (f a) (run w t s).1).2 = Resolved b.
Proof.
  rewrite run_bind. destruct (run w t s) as [s1 [a|m]]; simpl; [eauto|discriminate].
Qed.

Lemma generateThumbnails_resolved inputPath outputDir count s l :
  (run w (generateThumbnails inputPath outputDir count) s).2 = Resolved l ->
  l = map (thumbnail_path outputDir) (seq 1 (Z.to_nat count)).
Proof.
  intros Hl.
  destruct (generateThumbnails_run w inputPath outputDir count s) as (r0 & _ & Hrun).
  destruct r0 as [info|message].
  - cbv zeta in Hrun. rewrite Hl in Hrun. apply Hrun.
  - destruct Hrun as [Hr _]. congruence.
Qed.

Lemma createHLSPlaylist_resolved inputPath outputDir variants s p :
  (run w (createHLSPlaylist inputPath outputDir variants) s).2 = Resolved p ->
  p = path_join outputDir "master.m3u8".
Proof.
  unfold createHLSPlaylist, mbind, Task_bind. cbv zeta. intros Hp.
  apply run_bind_resolved in Hp. destruct Hp as (content & _ & Hp).
  apply run_bind_resolved in Hp. destruct Hp as ([] & _ & Hp).
  simpl in Hp. congruence.
Qed.

(** What the pipeline resolves with. *)
Lemma pipeline_resolved inputPath outputDir options s res :
  (run w (processVideoWithAdaptiveStreaming inputPath outputDir options) s).2
  = Resolved res ->
  hlsPlaylist res = path_join outputDir "master.m3u8"
  /\ thumbnails res
     = (if thumbnails_enabled options
        then map (thumbnail_path (path_join outputDir "thumbnails"))
               (seq 1 (Z.to_nat (thumbnailCount_or_5 options)))
        else [])
  /\ preview res
     = (if preview_enabled options
        then Some (path_join outputDir "preview.mp4") else None)
  /\ exists info,
       variants res = generateOptimalVariants (info_width info)
                        (info_height info) (info_duration info).
Proof.
  unfold processVideoWithAdaptiveStreaming, mbind, Task_bind. cbv zeta.
  intros Hr.
  apply run_bind_resolved in Hr. destruct Hr as ([] & _ & Hr).
  rewrite run_rethrow in Hr.
  apply run_bind_resolved in Hr. destruct Hr as ([] & _ & Hr).
  apply run_bind_resolved in Hr. destruct Hr as (info & _ & Hr).
  apply run_bind_resolved in Hr. destruct Hr as ([] & _ & Hr).
  apply run_bind_resolved in Hr. destruct Hr as (thumbs & Hth & Hr).
  apply run_bind_resolved in Hr. destruct Hr as (prev & Hpv & Hr).
  apply run_bind_resolved in Hr. destruct Hr as ([] & _ & Hr).
  apply run_bind_resolved in Hr. destruct Hr as (playlist & Hpl & Hr).
  apply run_bind_resolved in Hr. destruct Hr as ([] & _ & Hr).
  simpl in Hr. injection Hr as <-. simpl.
  split; [eapply createHLSPlaylist_resolved; eauto|].
  split; [|split; [|eauto]].
  - fold (thumbnails_enabled options) in Hth.
    destruct (thumbnails_enabled options).
    + apply run_bind_resolved in Hth. destruct Hth as ([] & _ & Hth).
      apply run_bind_resolved in Hth. destruct Hth as ([] & _ & Hth).
      eapply generateThumbnails_resolved; eauto.
    + simpl in Hth. congruence.
  - fold (preview_enabled options) in Hpv.
    destruct (preview_enabled options).
    + apply run_bind_resolved in Hpv. destruct Hpv as ([] & _ & Hpv).
      apply run_bind_resolved in Hpv. destruct Hpv as ([] & _ & Hpv).
      simpl in Hpv. congruence.
    + simpl in Hpv. congruence.
Qed.
End PipelineResult.

(** X3. Steps that are switched off do not run.  With
    [generateThumbnails: false] no thumbnail is extracted; unless
    [generatePreview] is true, neither the [ffmpeg -version] check nor a
    transcode runs, so the only child processes are thumbnail
    extractions and segment encodes. *)
Theorem disabled_steps_do_not_run `{PathModule} (w : World)
        (inputPath outputDir : string) (options : Options) (s : State) :
  callback_quiet options ->
  let evs := events_since s
               (run w (processVideoWithAdaptiveStreaming inputPath outputDir
                         options) s).1 in
  (opt_generateThumbnails options = Some false -> extractions evs = [])
  /\ (opt_generatePreview options <> Some true ->
      Forall (fun x => match x.1 with
                       | FfmpegVersion | FfmpegTranscode _ _ => False
                       | FfmpegThumbnail _ _ _ | FfmpegHls _ _ _ => True
                       end) (spawns evs))
  /\ (opt_generateThumbnails options = Some false ->
      opt_generatePreview options <> Some true ->
      map fst (spawns evs)
      = map (fun x => FfmpegHls inputPath x.1
                        (path_join (path_join outputDir (name x.1))
                           "index.m3u8")) (encodes evs)).
Proof.
  intros Hcb evs.
  pose proof (pipeline_events w inputPath outputDir options s Hcb) as Hev.
  fold evs in Hev. clearbody evs.
  assert (Hth : opt_generateThumbnails options = Some false ->
                thumbnails_enabled options = false).
  { intros Heq. unfold thumbnails_enabled. rewrite Heq. reflexivity. }
  assert (Hpv : opt_generatePreview options <> Some true ->
                preview_enabled options = false).
  { intros Hne. unfold preview_enabled. apply bool_decide_eq_false_2. exact Hne. }
  split; [|split].
  - intros Hoff. apply Hth in Hoff. unfold extractions.
    induction Hev as [|e evs He _ IH]; [reflexivity|].
    simpl. rewrite IH.
    destruct e as [p r|c r|c r|id j|id r|id r]; try reflexivity.
    destruct c as [|i o|i t o|i v p]; try reflexivity.
    simpl in He. destruct He as [He _]. congruence.
  - intros Hoff. apply Hpv in Hoff. unfold spawns.
    apply Forall_flat_map. eapply Forall_impl; [exact Hev|].
    intros e He.
    destruct e as [p r|c r|c r|id j|id r|id r]; simpl in *;
      try apply List.Forall_nil.
    apply List.Forall_cons; [|apply List.Forall_nil].
    destruct c as [|i o|i t o|i v p]; simpl in *; try exact I.
    + congruence.
    + destruct He as [He _]. congruence.
  - intros Hoff1 Hoff2. apply Hth in Hoff1. apply Hpv in Hoff2.
    unfold spawns, encodes.
    induction Hev as [|e evs He _ IH]; [reflexivity|].
    simpl. rewrite !map_app, IH. f_equal.
    destruct e as [p r|c r|c r|id j|id r|id r]; try reflexivity.
    destruct c as [|i o|i t o|i v p]; simpl in *.
    + congruence.
    + destruct He as [He _]. congruence.
    + destruct He as [He _]. congruence.
    + destruct He as [-> ->]. reflexivity.
Qed.

(** ** The pipeline's steps, [transcode], and the job *)

Section Steps.
Context `{PathModule} (w : World).

Lemma flat_map_nil_Forall {A B} (f : A -> list B) (Q : A -> Prop) (l : list A) :
  (forall a, Q a -> f a = []) -> Forall Q l -> flat_map f l = [].
Proof.
  intros Hf Hl. induction Hl as [|a l Ha _ IH]; [reflexivity|].
  simpl. rewrite (Hf a Ha), IH. reflexivity.
Qed.

Lemma api_events_spawns evs : Forall api_event evs -> spawns evs = [].
Proof.
  apply flat_map_nil_Forall. intros [] Ha; simpl in *; tauto.
Qed.

Lemma api_events_writes evs : Forall api_event evs -> writes evs = [].
Proof.
  apply flat_map_nil_Forall. intros [] Ha; simpl in *; tauto.
Qed.

Lemma api_events_touched evs : Forall api_event evs -> touched_paths evs = [].
Proof.
  apply flat_map_nil_Forall. intros [] Ha; simpl in *; tauto.
Qed.

Lemma spawns_app h1 h2 : spawns (h1 ++ h2) = (spawns h1 ++ spawns h2)%list.
Proof. apply flat_map_app. Qed.

Lemma touched_paths_app h1 h2 :
  touched_paths (h1 ++ h2) = (touched_paths h1 ++ touched_paths h2)%list.
Proof. apply flat_map_app. Qed.

(** One awaited call: what other callers did meanwhile, then the
    call's own event. *)
Lemma probe_run inputPath s :
  exists evs0 r,
    Forall api_event evs0
    /\ events_since s (run w (probe inputPath) s).1
       = (evs0 ++ [Probed inputPath r])%list
    /\ (run w (probe inputPath) s).2 = r.
Proof.
  destruct (suspend_history w s) as (evs0 & Hall & Hh).
  exists evs0, (ffprobe w (history (suspend w s)) inputPath).
  split; [exact Hall|]. unfold probe. cbn [run].
  destruct (ffprobe w (history (suspend w s)) inputPath);
    cbn [settle run fst snd];
    (split; [|reflexivity]); apply events_since_app;
    unfold record; cbn [history]; rewrite Hh, <- app_assoc; reflexivity.
Qed.

Lemma fs_run (c : fs_call) (s : State) :
  let t := AwaitFs c (fun r => match r with
                               | None => Return tt
                               | Some message => Throw message
                               end) in
  exists evs0 r,
    Forall api_event evs0
    /\ events_since s (run w t s).1 = (evs0 ++ [FsDone c r])%list
    /\ (run w t s).2 = match r with
                       | None => Resolved tt
                       | Some message => Rejected message
                       end.
Proof.
  destruct (suspend_history w s) as (evs0 & Hall & Hh).
  exists evs0, (file_system w (history (suspend w s)) c).
  split; [exact Hall|]. cbn [run].
  destruct (file_system w (history (suspend w s)) c);
    cbn [run fst snd];
    (split; [|reflexivity]); apply events_since_app;
    unfold record; cbn [history]; rewrite Hh, <- app_assoc; reflexivity.
Qed.

Lemma callback_run options p stage s :
  callback_quiet options ->
  Forall api_event
    (events_since s
       (run w (default (fun _ _ => Return tt) (opt_onProgress options) p stage) s).1).
Proof.
  intros Hcb. unfold callback_quiet in Hcb.
  destruct (opt_onProgress options) as [onProgress|]; simpl.
  - eapply Forall_impl; [apply emits_run, Hcb|]. simpl. tauto.
  - rewrite events_since_refl. constructor.
Qed.

End Steps.

(** X4. A failing analysis stops the pipeline before any work.  When
    the first probe of a run rejects, the pipeline rejects with the
    probe's message; no second probe is made, no [ffmpeg] process is
    started and no file is written: the output directory is all that
    was created. *)
Theorem probe_failure_stops_pipeline `{PathModule} (w : World)
        (inputPath outputDir : string) (options : Options) (s : State)
        (message : string) (rest : list (outcome VideoInfo)) :
  callback_quiet options ->
  let r := run w (processVideoWithAdaptiveStreaming inputPath outputDir
                    options) s in
  let evs := events_since s r.1 in
  probed evs = Rejected message :: rest ->
  r.2 = Rejected message
  /\ rest = []
  /\ spawns evs = []
  /\ writes evs = []
  /\ touched_paths evs = [outputDir].
Proof.
  intros Hcb r evs. subst evs r.
  unfold processVideoWithAdaptiveStreaming, mbind, Task_bind. cbv zeta.
  rewrite events_since_bind, run_bind.
  destruct (fs_run w (Mkdir outputDir) s) as (evs0 & r0 & Hall0 & Hev0 & Hr0).
  cbv zeta in Hev0, Hr0. unfold fs_mkdir.
  set (t0 := AwaitFs (Mkdir outputDir) _) in *.
  rewrite Hev0. destruct (run w t0 s) as [s1 o1]. simpl in Hr0. subst o1.
  rewrite !probed_app, !spawns_app, !writes_app, !touched_paths_app.
  rewrite (api_events_probed _ Hall0), (api_events_spawns _ Hall0),
    (api_events_writes _ Hall0), (api_events_touched _ Hall0).
  destruct r0 as [m0|]; cbn [fst snd]; cbv beta iota; cbn [app flat_map probed spawns writes touched_paths];
    [discriminate|].
  rewrite !run_rethrow.
  pose proof (callback_run w options 5 "Analyzing video" s1 Hcb) as Hall1.
  set (t1 := default _ (opt_onProgress options) 5 "Analyzing video") in *.
  rewrite events_since_bind, (run_bind w t1).
  rewrite !probed_app, !spawns_app, !writes_app, !touched_paths_app.
  rewrite (api_events_probed _ Hall1), (api_events_spawns _ Hall1),
    (api_events_writes _ Hall1), (api_events_touched _ Hall1).
  destruct (run w t1 s1) as [s2 [[]|m1]]; cbn [fst snd]; cbv beta iota;
    cbn [app flat_map probed spawns writes touched_paths]; [|discriminate].
  rewrite events_since_bind, (run_bind w (probe inputPath)).
  destruct (probe_run w inputPath s2) as (evs2 & r2 & Hall2 & Hev2 & Hr2).
  rewrite Hev2.
  rewrite !probed_app, !spawns_app, !writes_app, !touched_paths_app.
  rewrite (api_events_probed _ Hall2), (api_events_spawns _ Hall2),
    (api_events_writes _ Hall2), (api_events_touched _ Hall2).
  destruct (run w (probe inputPath) s2) as [s3 o3]. simpl in Hr2. subst o3.
  destruct r2 as [info|m2]; cbn [fst snd]; cbv beta iota; cbn [app flat_map probed spawns writes touched_paths];
    [discriminate|].
  intros Hp. injection Hp as -> ->. auto.
Qed.

Section Awaits.
Context (w : World).

Lemma events_since_run {A} (t : Task A) (s s1 : State) evs :
  history s1 = (history s ++ evs)%list ->
  events_since s (run w t s1).1
  = (evs ++ events_since s1 (run w t s1).1)%list.
Proof.
  intros Hh. destruct (run_extends w t s1) as (evs' & Hh').
  rewrite (events_since_trans s s1 _ _ _ Hh Hh').
  rewrite (events_since_app _ _ _ Hh). reflexivity.
Qed.

Lemma await_spawn_run {A} (c : spawn_call) (k : proc_exit -> Task A) s :
  exists evs0 r s1,
    Forall api_event evs0
    /\ history s1 = (history s ++ evs0 ++ [Spawned c r])%list
    /\ run w (AwaitSpawn c k) s = run w (k r) s1.
Proof.
  destruct (suspend_history w s) as (evs0 & Hall & Hh).
  exists evs0, (child_process w (history (suspend w s)) c),
    (record (Spawned c (child_process w (history (suspend w s)) c)) (suspend w s)).
  split; [exact Hall|]. split; [|reflexivity].
  unfold record; cbn [history]. rewrite Hh, <- app_assoc. reflexivity.
Qed.

Lemma await_probe_run {A} (p : string) (k : outcome VideoInfo -> Task A) s :
  exists evs0 r s1,
    Forall api_event evs0
    /\ history s1 = (history s ++ evs0 ++ [Probed p r])%list
    /\ run w (AwaitProbe p k) s = run w (k r) s1.
Proof.
  destruct (suspend_history w s) as (evs0 & Hall & Hh).
  exists evs0, (ffprobe w (history (suspend w s)) p),
    (record (Probed p (ffprobe w (history (suspend w s)) p)) (suspend w s)).
  split; [exact Hall|]. split; [|reflexivity].
  unfold record; cbn [history]. rewrite Hh, <- app_assoc. reflexivity.
Qed.

Lemma await_fs_run {A} (c : fs_call) (k : option string -> Task A) s :
  exists evs0 r s1,
    Forall api_event evs0
    /\ history s1 = (history s ++ evs0 ++ [FsDone c r])%list
    /\ run w (AwaitFs c k) s = run w (k r) s1.
Proof.
  destruct (suspend_history w s) as (evs0 & Hall & Hh).
  exists evs0, (file_system w (history (suspend w s)) c),
    (record (FsDone c (file_system w (history (suspend w s)) c)) (suspend w s)).
  split; [exact Hall|]. split; [|reflexivity].
  unfold record; cbn [history]. rewrite Hh, <- app_assoc. reflexivity.
Qed.

Lemma is_zero_exit_ok code : is_zero code = false -> Probe.Close code <> exit_ok.
Proof. intros Hz Heq. injection Heq as ->. discriminate Hz. Qed.

End Awaits.

(** X5. How [transcode] ends.  If the [ffmpeg -version] check does not
    exit with code 0, it rejects with "FFmpeg not found. Please install
    FFmpeg." and neither the probe nor the encoder is started.
    Otherwise exactly one encode of [inputPath] into [outputPath] runs,
    and [transcode] resolves exactly when that exits with code 0,
    whatever became of the probe it starts for the progress display; a
    non-zero code and a spawn error each give their own message. *)
Theorem transcode_outcome `{PathModule} (w : World)
        (inputPath outputPath : string) (s : State) :
  let r := run w (transcode inputPath outputPath) s in
  let evs := events_since s r.1 in
  (exists v, spawns evs = [(FfmpegVersion, v)] /\ v <> exit_ok
             /\ probed evs = []
             /\ r.2 = Rejected "FFmpeg not found. Please install FFmpeg.")
  \/ (exists x,
        spawns evs = [(FfmpegVersion, exit_ok);
                      (FfmpegTranscode inputPath outputPath, x)]
        /\ (r.2 = Resolved tt <-> x = exit_ok)
        /\ match x with
           | Probe.Close code =>
               x <> exit_ok ->
               r.2 = Rejected ("FFmpeg process exited with code "
                                 ++ show_code code)
           | Probe.SpawnError message =>
               r.2 = Rejected ("FFmpeg spawn error: " ++ message)
           end).
Proof.
  intros r evs. subst evs r.
  unfold transcode, checkFFmpegAvailability, mbind, Task_bind.
  cbn [bind].
  destruct (await_spawn_run w FfmpegVersion
              (fun r => bind match r with
                             | Probe.Close code => Return (is_zero code)
                             | Probe.SpawnError _ => Return false
                             end
                          (fun isAvailable : bool =>
                             if negb isAvailable
                             then Throw "FFmpeg not found. Please install FFmpeg."
                             else AwaitProbe inputPath (fun _ =>
                                  AwaitSpawn (FfmpegTranscode inputPath outputPath)
                                    (fun r => match r with
                                              | Probe.Close code =>
                                                  if is_zero code then Return tt
                                                  else Throw ("FFmpeg process exited with code " ++ show_code code)
                                              | Probe.SpawnError message =>
                                                  Throw ("FFmpeg spawn error: " ++ message)
                                              end)))) s)
    as (evs0 & v & s1 & Hall0 & Hh0 & ->).
  rewrite (events_since_run w _ s s1 _ Hh0).
  assert (Hunavailable :
            forall k : Task unit,
              k = Throw "FFmpeg not found. Please install FFmpeg." ->
              v <> exit_ok ->
              exists v0,
                spawns ((evs0 ++ [Spawned FfmpegVersion v])
                          ++ events_since s1 (run w k s1).1) = [(FfmpegVersion, v0)]
                /\ v0 <> exit_ok
                /\ probed ((evs0 ++ [Spawned FfmpegVersion v])
                             ++ events_since s1 (run w k s1).1) = []
                /\ (run w k s1).2 = Rejected "FFmpeg not found. Please install FFmpeg.").
  { intros k -> Hv. exists v. cbn [run fst snd]. rewrite events_since_refl, app_nil_r.
    rewrite spawns_app, probed_app, (api_events_spawns _ Hall0),
      (api_events_probed _ Hall0). auto. }
  destruct v as [code|message]; cbn [bind].
  - destruct (is_zero code) eqn:Ez; cbn [negb].
    + apply is_zero_true in Ez. subst code. right.
      destruct (await_probe_run w inputPath
                  (fun _ => AwaitSpawn (FfmpegTranscode inputPath outputPath)
                     (fun r => match r with
                               | Probe.Close code =>
                                   if is_zero code then Return tt
                                   else Throw ("FFmpeg process exited with code " ++ show_code code)
                               | Probe.SpawnError message =>
                                   Throw ("FFmpeg spawn error: " ++ message)
                               end)) s1)
        as (evs1 & p & s2 & Hall1 & Hh1 & ->).
      rewrite (events_since_run w _ s1 s2 _ Hh1).
      destruct (await_spawn_run w (FfmpegTranscode inputPath outputPath)
                  (fun r => match r with
                            | Probe.Close code =>
                                if is_zero code then Return tt
                                else Throw ("FFmpeg process exited with code " ++ show_code code)
                            | Probe.SpawnError message =>
                                Throw ("FFmpeg spawn error: " ++ message)
                            end) s2)
        as (evs2 & x & s3 & Hall2 & Hh2 & ->).
      rewrite (events_since_run w _ s2 s3 _ Hh2).
      exists x.
      assert (Hsp : forall tail, tail = [] ->
                spawns ((evs0 ++ [Spawned FfmpegVersion (Probe.Close (Some 0))])
                          ++ (evs1 ++ [Probed inputPath p])
                          ++ (evs2 ++ [Spawned (FfmpegTranscode inputPath outputPath) x])
                          ++ tail)
                = [(FfmpegVersion, exit_ok);
                   (FfmpegTranscode inputPath outputPath, x)]).
      { intros tail ->. rewrite !spawns_app, (api_events_spawns _ Hall0),
          (api_events_spawns _ Hall1), (api_events_spawns _ Hall2).
        reflexivity. }
      destruct x as [code|message].
      * destruct (is_zero code) eqn:Ez.
        -- apply is_zero_true in Ez. subst code. cbn [run fst snd].
           split; [apply Hsp, events_since_refl|].
           split; [split; reflexivity|]. intros Hx. exfalso. apply Hx. reflexivity.
        -- cbn [run fst snd].
           split; [apply Hsp, events_since_refl|].
           split; [|intros _; reflexivity].
           split; [discriminate|]. intros Hx. exfalso.
           exact (is_zero_exit_ok code Ez Hx).
      * cbn [run fst snd].
        split; [apply Hsp, events_since_refl|].
        split; [|reflexivity]. split; discriminate.
    + left. apply Hunavailable; [reflexivity|]. apply is_zero_exit_ok, Ez.
  - left. cbn [negb]. apply Hunavailable; [reflexivity|]. discriminate.
Qed.

(** X6. A job ends as its pipeline ends.  The entry [addJob] leaves
    when the job is over is written once, after the pipeline settled:
    [completed] at progress 100 with the pipeline's return value as
    [result] when it resolved, [error] with the pipeline's message when
    it rejected.  Nothing else is recorded after the pipeline, so the
    [.catch] handler of [addJob] never runs. *)
Theorem job_outcome_follows_pipeline `{PathModule} (w : World)
        (jobId inputPath outputDir : string) (options : Options) (s : State) :
  let processing := {| status := Processing; progress := Some 0;
                       result := None; error := None;
                       startTime := Some (Date_now w (history s)) |} in
  let job_options :=
    {| opt_generateThumbnails := opt_generateThumbnails options;
       opt_thumbnailCount := opt_thumbnailCount options;
       opt_generatePreview := opt_generatePreview options;
       opt_previewDuration := opt_previewDuration options;
       opt_onProgress := Some (job_onProgress jobId) |} in
  let r := run w (processVideoWithAdaptiveStreaming inputPath outputDir
                    job_options)
               (addJob w jobId inputPath outputDir options s).1.1 in
  let s' := run_job w jobId inputPath outputDir options s in
  queue (addJob w jobId inputPath outputDir options s).1.1 !! jobId
  = Some processing
  /\ exists j,
       queue s' !! jobId = Some j
       /\ history s' = (history r.1 ++ [Stored jobId j])%list
       /\ queue s' = <[jobId := j]> (queue r.1)
       /\ match r.2 with
          | Resolved res =>
              status j = Completed /\ progress j = Some 100
              /\ result j = Some res
          | Rejected message =>
              status j = Error /\ error j = Some message
          end.
Proof.
  intros processing job_options r s'. subst r s'.
  rewrite (run_job_unfold w jobId).
  pose proof (addJob_returns w jobId inputPath outputDir options s) as Hadd.
  cbv zeta in Hadd. rewrite Hadd. cbn [fst snd].
  split; [cbn [store queue]; apply lookup_insert_eq|].
  unfold addJob_task. cbn [run].
  rewrite run_try_catch. unfold processJob. rewrite run_try_catch.
  cbn [run]. cbn [store queue]. rewrite lookup_insert_eq. cbn [spread status progress result error startTime].
  unfold mbind, Task_bind. rewrite run_bind.
  fold job_options.
  match goal with
  | |- context [run w (processVideoWithAdaptiveStreaming _ _ _) ?st] =>
      change st with (store jobId processing
                        (store jobId {| status := Queued; progress := Some 0;
                                        result := None; error := None;
                                        startTime := Some (Date_now w (history s)) |} s))
  end.
  destruct (run w (processVideoWithAdaptiveStreaming inputPath outputDir
                     job_options) _) as [s2 [res|message]];
    cbn [run fst snd store queue history];
    eexists; (split; [apply lookup_insert_eq|]);
    (split; [reflexivity|]); (split; [reflexivity|]);
    destruct (queue s2 !! jobId); cbn; auto.
Qed.

(** ** Planner, registry, [transcode]'s arguments, the cancel route *)

(** X7. Invariants of every plan.  No variant is taller than the source;
    the variant names are distinct, so no two variants share a
    directory; heights and bitrates increase along the plan; every
    variant has [bufsize] twice and [maxrate] one and a half times its
    bitrate; and the plan does not depend on the duration. *)
Theorem plan_invariants (w h : Z) (d d' : Q) :
  let plan := generateOptimalVariants w h d in
  Forall (fun v => height v <= h) plan
  /\ NoDup (map name plan)
  /\ Sorted Z.lt (map height plan)
  /\ Sorted Z.lt (map bitrate plan)
  /\ Forall (fun v => bufsize v = 2 * bitrate v
                      /\ (maxrate v == inject_Z (bitrate v) * 1.5)%Q
                      /\ codec v = "libx264" /\ fps v = 30) plan
  /\ generateOptimalVariants w h d' = plan.
Proof.
  intros plan. subst plan. rewrite !plan_cases.
  repeat match goal with
         | |- context [?a >=? ?b] => destruct (Z.geb_spec a b)
         end; try lia; cbn [map take qualityConfigs ladder_variant fallback_variant
                              name height bitrate bufsize maxrate codec fps
                              cfg_name cfg_height cfg_bitrate cfg_width];
    (split; [repeat (apply List.Forall_cons; [cbn; lia|]); apply List.Forall_nil|]);
    (split; [repeat (apply NoDup_cons; split; [rewrite ?list_elem_of_In; cbn; intuition discriminate|]); apply NoDup_nil; exact I|]);
    (split; [repeat (apply Sorted_cons; [|repeat constructor]); repeat constructor|]);
    (split; [repeat (apply Sorted_cons; [|repeat constructor]); repeat constructor|]);
    (split; [|reflexivity]);
    repeat (apply List.Forall_cons; [cbn; repeat split; reflexivity|]); apply List.Forall_nil.
Qed.

(** X8. A taller source gets the plan of a lower one, extended: from
    360 lines up, the plan for height [h] is a prefix of the plan for
    any height [h' >= h], whatever the widths and durations. *)
Theorem plan_grows_with_height (w w' h h' : Z) (d d' : Q) :
  360 <= h -> h <= h' ->
  generateOptimalVariants w h d
  = take (length (generateOptimalVariants w h d))
         (generateOptimalVariants w' h' d').
Proof.
  intros Hlo Hle. rewrite !plan_cases.
  repeat match goal with
         | |- context [?a >=? ?b] => destruct (Z.geb_spec a b)
         end; try lia; reflexivity.
Qed.

(** X9. [cancelJob] touches one entry at most.  Entries of other ids
    are left as they are; on an id that is not in the registry it
    returns false and changes nothing; a second [cancelJob] on the same
    id always returns false and changes nothing more; and whenever it
    returns false the registry is unchanged. *)
Theorem cancelJob_frame (registry : gmap string Job) (jobId : string) :
  (forall other, other <> jobId ->
     (cancelJob jobId registry).2 !! other = registry !! other)
  /\ (registry !! jobId = None -> cancelJob jobId registry = (false, registry))
  /\ cancelJob jobId (cancelJob jobId registry).2
     = (false, (cancelJob jobId registry).2)
  /\ ((cancelJob jobId registry).1 = false ->
      (cancelJob jobId registry).2 = registry)
  /\ (forall job, (cancelJob jobId registry).2 !! jobId = Some job ->
        registry !! jobId = Some job /\ status job <> Queued).
Proof.
  unfold cancelJob.
  destruct (registry !! jobId) as [job|] eqn:E.
  - destruct (status job) eqn:Es; cbn [fst snd];
      rewrite ?E, ?Es, ?lookup_delete_eq;
      (split; [intros other Hne; rewrite ?lookup_delete_ne by congruence; reflexivity|]);
      (split; [discriminate|]); (split; [reflexivity|]);
      (split; [try discriminate; reflexivity|]);
      intros job' Hj; try discriminate;
      try rewrite E in Hj; injection Hj as <-; split; congruence.
  - cbn [fst snd]. rewrite E.
    repeat split; auto; intros; congruence.
Qed.

Section TranscodeFacts.
Import TranscodeArgs.

(** X10. The shape of the argument vector [transcode] builds.  It always
    starts with [-i inputPath -y -hide_banner -loglevel error -progress
    pipe:1], followed by [-c:v] with the codec given or [libx264]; it
    always names an audio codec, the one given or [aac]; the output path
    is its last element; and each of the seven optional settings that is
    present adds exactly one flag and one value. *)
Theorem transcode_args_shape (inputPath outputPath : string)
        (options : TranscodeOptions) :
  let args := transcode_args inputPath outputPath options in
  take 10 args
  = ["-i"; inputPath; "-y"; "-hide_banner"; "-loglevel"; "error";
     "-progress"; "pipe:1"; "-c:v";
     if truthy_string (codec options) then default "" (codec options)
     else "libx264"]
  /\ last args = Some outputPath
  /\ length args = (13 + 2 * settings_present options)%nat
  /\ exists before after,
       args = (before
               ++ ["-c:a"; if truthy_string (audioCodec options)
                           then default "" (audioCodec options) else "aac"]
               ++ after ++ [outputPath])%list
       /\ (length after <= 4)%nat.
Proof.
  intros args. subst args. unfold transcode_args, settings_present.
  destruct (truthy_string (codec options));
    destruct (truthy_string (preset options));
    destruct (crf options) as [c|];
    destruct (truthy_number (TranscodeArgs.width options)
              && truthy_number (TranscodeArgs.height options));
    destruct (truthy_number (TranscodeArgs.fps options));
    destruct (truthy_string (TranscodeArgs.bitrate options));
    destruct (truthy_string (audioCodec options));
    destruct (truthy_string (audioBitrate options));
    destruct (truthy_string (format options));
    cbn -[show_Z default];
    (split; [reflexivity|]); (split; [reflexivity|]); (split; [reflexivity|]);
    match goal with
    | |- exists before after, ?l = _ /\ _ =>
        match l with
        | context [ "-c:a" :: ?a :: ?rest ] =>
            let n := eval cbv in (length l - length rest - 2)%nat in
            exists (take n l), (removelast rest)
        end
    end; cbn -[show_Z default]; (split; [reflexivity|lia]).
Qed.

End TranscodeFacts.

Section PreviewFacts.
Import TranscodeArgs.

(** X11. The preview clip is never scaled up.  With the options the
    pipeline passes, the size handed to [ffmpeg] is at most 640x360 and
    at most the source's own width and height; when the probe found no
    width or no height (0), no [-s] is passed at all.  Everything else
    in the vector is fixed: [libx264], preset [fast], crf 23, [aac],
    format [mp4]. *)
Theorem preview_never_upscaled (inputPath outputPath : string)
        (videoInfo : VideoInfo) :
  let args := transcode_args inputPath outputPath (preview_options videoInfo) in
  let fixed_head := ["-i"; inputPath; "-y"; "-hide_banner"; "-loglevel";
                     "error"; "-progress"; "pipe:1"; "-c:v"; "libx264";
                     "-preset"; "fast"; "-crf"; "23"] in
  let fixed_tail := ["-c:a"; "aac"; "-f"; "mp4"; outputPath] in
  (info_width videoInfo = 0 \/ info_height videoInfo = 0 ->
   args = (fixed_head ++ fixed_tail)%list)
  /\ (info_width videoInfo <> 0 -> info_height videoInfo <> 0 ->
      exists w h,
        w <= 640 /\ h <= 360
        /\ w <= info_width videoInfo /\ h <= info_height videoInfo
        /\ args = (fixed_head ++ ["-s"; (show_Z w ++ "x" ++ show_Z h)%string]
                     ++ fixed_tail)%list).
Proof.
  intros args fixed_head fixed_tail. subst args fixed_head fixed_tail.
  unfold transcode_args, preview_options.
  cbn [codec preset crf TranscodeArgs.width TranscodeArgs.height
       TranscodeArgs.bitrate TranscodeArgs.fps format audioCodec audioBitrate
       truthy_string truthy_number default].
  change (show_Z 23) with "23".
  assert (Hw : (Z.min (info_width videoInfo) 640 =? 0)%Z = (info_width videoInfo =? 0)%Z).
  { destruct (Z.eqb_spec (info_width videoInfo) 0) as [->|Hne]; [reflexivity|].
    apply Z.eqb_neq. lia. }
  assert (Hh : (Z.min (info_height videoInfo) 360 =? 0)%Z = (info_height videoInfo =? 0)%Z).
  { destruct (Z.eqb_spec (info_height videoInfo) 0) as [->|Hne]; [reflexivity|].
    apply Z.eqb_neq. lia. }
  rewrite Hw, Hh. split.
  - intros [Hz|Hz]; rewrite Hz; cbn.
    + reflexivity.
    + rewrite andb_false_r. reflexivity.
  - intros Hnw Hnh.
    apply Z.eqb_neq in Hnw, Hnh. rewrite Hnw, Hnh.
    exists (Z.min (info_width videoInfo) 640), (Z.min (info_height videoInfo) 360).
    repeat (split; [lia|]). reflexivity.
Qed.

(** X12. What the [stdout] handler of [transcode] reports.  Nothing is
    reported for a chunk without a time stamp, without a callback, or
    while no positive duration is known (before the probe has settled,
    or when it failed).  What is reported is capped at 100, is not
    negative for a time that is not negative, and does not decrease when
    the time processed grows. *)
Theorem progress_report_bounds (timeMatch : option (Z * Z * Q))
        (totalDuration : Q) (hasCallback : bool) :
  ((totalDuration <= 0)%Q \/ hasCallback = false \/ timeMatch = None ->
   progress_report timeMatch totalDuration hasCallback = None)
  /\ (forall progress currentTime,
        progress_report timeMatch totalDuration hasCallback
        = Some (progress, currentTime) ->
        (progress <= 100)%Q
        /\ ((0 <= currentTime)%Q -> (0 <= progress)%Q)
        /\ ((totalDuration <= currentTime)%Q -> (progress == 100)%Q)
        /\ forall timeMatch' progress' currentTime',
             progress_report timeMatch' totalDuration hasCallback
             = Some (progress', currentTime') ->
             (currentTime <= currentTime')%Q -> (progress <= progress')%Q).
Proof.
  assert (Hdiv : forall a b : Q, (0 < totalDuration)%Q -> (a <= b)%Q ->
            (a / totalDuration * 100 <= b / totalDuration * 100)%Q).
  { intros a b Hpos Hab. apply Qmult_le_compat_r; [|discriminate].
    unfold Qdiv. apply Qmult_le_compat_r; [exact Hab|].
    apply Qlt_le_weak, Qinv_lt_0_compat, Hpos. }
  split.
  - unfold progress_report. intros [Hle|[->| ->]].
    + destruct timeMatch as [[[hours minutes] seconds]|]; [|reflexivity].
      destruct (Qlt_le_dec 0 totalDuration) as [Hlt|_]; [|reflexivity].
      exfalso. exact (Qlt_not_le _ _ Hlt Hle).
    + destruct timeMatch as [[[hours minutes] seconds]|]; [|reflexivity].
      destruct (Qlt_le_dec 0 totalDuration); reflexivity.
    + reflexivity.
  - intros progress currentTime. unfold progress_report.
    destruct timeMatch as [[[hours minutes] seconds]|]; [|discriminate].
    destruct (Qlt_le_dec 0 totalDuration) as [Hpos|]; [|discriminate].
    destruct hasCallback; [|discriminate].
    intros Heq. injection Heq as <- <-.
    set (currentTime := (inject_Z hours * 3600 + inject_Z minutes * 60 + seconds)%Q).
    split; [apply Q.le_min_r|].
    split; [|split].
    + intros Hnn. apply Q.min_glb; [|discriminate].
      eapply Qle_trans; [|apply (Hdiv 0%Q); assumption].
      apply Qle_lteq. right. unfold Qdiv. ring.
    + intros Hge. apply Q.min_r.
      eapply Qle_trans; [|apply (Hdiv totalDuration); assumption].
      apply Qle_lteq. right. field.
      intros Hz. rewrite Hz in Hpos. discriminate Hpos.
    + intros timeMatch' progress' currentTime'.
      destruct timeMatch' as [[[hours' minutes'] seconds']|]; [|discriminate].
      intros Heq. injection Heq as <- <-. intros Hle.
      apply Q.min_le_compat_r. apply Hdiv; assumption.
Qed.

End PreviewFacts.

Section RouteFacts.
Import Routes.

(** X13. The cancel route changes the registry only when it answers 200.
    It answers 200 exactly for a request that names a job, carries a
    session of a teacher or an admin, and finds the job queued; the
    entry is then deleted.  With any other answer (400, 401, 403, 404,
    500) the registry is as before, and entries of other ids are never
    touched. *)
Theorem DELETE_changes_registry_only_on_200 (jobId : option string)
        (session : outcome (option (option SessionUser)))
        (registry : gmap string Job) :
  let r := DELETE jobId session registry in
  In (http_status r.1) [200; 400; 401; 403; 404; 500]
  /\ (http_status r.1 <> 200 -> r.2 = registry)
  /\ (http_status r.1 = 200 <->
      exists id user job,
        jobId = Some id /\ id <> ""
        /\ session = Resolved (Some (Some user))
        /\ (role user = Some "teacher" \/ isAdmin user = Some true)
        /\ registry !! id = Some job /\ status job = Queued)
  /\ (http_status r.1 = 200 ->
      exists id, jobId = Some id /\ r.2 = delete id registry)
  /\ (forall other, jobId <> Some other -> r.2 !! other = registry !! other).
Proof.
  intros r. subst r. unfold DELETE.
  assert (Hperm : forall user, permission_denied user = false <->
                    (role user = Some "teacher" \/ isAdmin user = Some true)).
  { intros user. unfold permission_denied.
    destruct (decide (role user = Some "teacher")) as [Hr|Hr];
      destruct (decide (isAdmin user = Some true)) as [Ha|Ha];
      rewrite ?(bool_decide_eq_true_2 _ Hr), ?(bool_decide_eq_false_2 _ Hr),
        ?(bool_decide_eq_true_2 _ Ha), ?(bool_decide_eq_false_2 _ Ha);
      cbn; intuition congruence. }
  destruct jobId as [id|].
  2:{ cbn. repeat split; try tauto; try discriminate; try lia.
      intros (id & user & job & Hj & _). discriminate Hj. }
  destruct (String.eqb_spec id "") as [->|Hid].
  { cbn. repeat split; try tauto; try discriminate; try lia.
    intros (id & user & job & Hj & Hne & _). congruence. }
  destruct session as [[[user|]|]|message].
  4:{ cbn. repeat split; try tauto; try discriminate; try lia.
      intros (id' & user & job & _ & _ & Hs & _). discriminate Hs. }
  3:{ cbn. repeat split; try tauto; try discriminate; try lia.
      intros (id' & user & job & _ & _ & Hs & _). discriminate Hs. }
  2:{ cbn. repeat split; try tauto; try discriminate; try lia.
      intros (id' & user & job & _ & _ & Hs & _). discriminate Hs. }
  destruct (permission_denied user) eqn:Ep.
  { cbn. repeat split; try tauto; try discriminate; try lia.
    intros (id' & user' & job & _ & _ & Hs & Hu & _).
    injection Hs as <-. apply Hperm in Hu. congruence. }
  apply Hperm in Ep. unfold cancelJob.
  destruct (registry !! id) as [job|] eqn:Eq.
  2:{ cbn. repeat split; try tauto; try discriminate; try lia.
      intros (id' & user' & job & Hj & _ & _ & _ & Hq & _).
      injection Hj as <-. congruence. }
  destruct (status job) eqn:Es; cbn.
  - split; [tauto|]. split; [congruence|].
    split; [split; [intros _; exists id, user, job; tauto|reflexivity]|].
    split; [intros _; eauto|].
    intros other Hne. apply lookup_delete_ne. congruence.
  - repeat split; try tauto; try discriminate; try lia.
    intros (id' & user' & job' & Hj & _ & _ & _ & Hq & Hst).
    injection Hj as <-. congruence.
  - repeat split; try tauto; try discriminate; try lia.
    intros (id' & user' & job' & Hj & _ & _ & _ & Hq & Hst).
    injection Hj as <-. congruence.
  - repeat split; try tauto; try discriminate; try lia.
    intros (id' & user' & job' & Hj & _ & _ & _ & Hq & Hst).
    injection Hj as <-. congruence.
Qed.

(** X14. A job that [addJob] has accepted cannot be cancelled through the
    route.  By the time [addJob] returns the entry is processing, so
    even a teacher's or an admin's [DELETE] for that job answers 404
    "Job not found or cannot be cancelled" and leaves the registry as
    it is. *)
Theorem DELETE_after_addJob_is_404 `{PathModule} (w : World)
        (jobId inputPath outputDir : string) (options : Options) (s : State)
        (user : SessionUser) :
  jobId <> "" ->
  role user = Some "teacher" \/ isAdmin user = Some true ->
  let registry := queue (addJob w jobId inputPath outputDir options s).1.1 in
  DELETE (Some jobId) (Resolved (Some (Some user))) registry
  = ({| http_status := 404;
        message := "Job not found or cannot be cancelled" |}, registry).
Proof.
  intros Hid Hu registry. subst registry.
  pose proof (addJob_returns w jobId inputPath outputDir options s) as Hadd.
  cbv zeta in Hadd. rewrite Hadd. cbn [fst snd store queue].
  unfold DELETE.
  destruct (String.eqb_spec jobId "") as [->|_]; [congruence|].
  assert (Ep : permission_denied user = false).
  { unfold permission_denied. destruct Hu as [Hr|Ha].
    - rewrite (bool_decide_eq_true_2 _ Hr). reflexivity.
    - rewrite (bool_decide_eq_true_2 _ Ha). apply andb_false_r. }
  rewrite Ep. unfold cancelJob. rewrite lookup_insert_eq. reflexivity.
Qed.

End RouteFacts.

(** ** Streams and [authorize] *)

Section StreamFacts.
Import Streams.



Lemma map_get_keys {V} (key : string) (m : js_map V) :
  is_Some (map_get key m) <-> key ∈ map fst m.
Proof.
  induction m as [|[k v] m IH]; simpl.
  - split; [intros [x Hx]; discriminate|intros Hin; inversion Hin].
  - rewrite elem_of_cons. destruct (String.eqb_spec k key) as [->|Hne].
    + split; [auto|eauto].
    + rewrite IH. split; [auto|]. intros [Heq|Hin]; [congruence|exact Hin].
Qed.

Lemma map_set_keys {V} (key : string) (value : V) (m : js_map V) :
  map fst (map_set key value m)
  = if bool_decide (key ∈ map fst m) then map fst m
    else (map fst m ++ [key])%list.
Proof.
  induction m as [|[k v] m IH]; cbn [map_set map fst].
  - rewrite bool_decide_eq_false_2; [reflexivity|]. intros Hin. inversion Hin.
  - destruct (String.eqb_spec k key) as [->|Hne]; cbn [map_set map fst].
    + rewrite bool_decide_eq_true_2 by apply list_elem_of_here. reflexivity.
    + rewrite IH. destruct (decide (key ∈ map fst m)) as [Hin|Hin].
      * rewrite !bool_decide_eq_true_2; [reflexivity| |exact Hin].
        apply elem_of_cons. auto.
      * rewrite !bool_decide_eq_false_2; [reflexivity| |exact Hin].
        rewrite elem_of_cons. intros [Heq|Hin']; [congruence|auto].
Qed.

Lemma map_set_well_formed {V} (key : string) (value : V) (m : js_map V) :
  well_formed m -> well_formed (map_set key value m).
Proof.
  unfold well_formed. intros Hm. rewrite map_set_keys.
  destruct (decide (key ∈ map fst m)) as [Hin|Hin].
  - rewrite bool_decide_eq_true_2 by auto. exact Hm.
  - rewrite bool_decide_eq_false_2 by auto.
    apply NoDup_app. split; [exact Hm|]. split.
    + intros x Hx Hk. apply list_elem_of_singleton in Hk. subst x. auto.
    + apply NoDup_singleton.
Qed.

Lemma map_delete_keys {V} (key : string) (m : js_map V) :
  well_formed m ->
  well_formed (map_delete key m)
  /\ (forall other, other ∈ map fst (map_delete key m)
                    <-> other ∈ map fst m /\ other <> key).
Proof.
  unfold well_formed. induction m as [|[k v] m IH]; simpl; intros Hm.
  - split; [exact Hm|]. intros other. split; [intros Hin; inversion Hin|tauto].
  - apply NoDup_cons in Hm. destruct Hm as [Hk Hm].
    destruct (IH Hm) as [IH1 IH2].
    destruct (String.eqb_spec k key) as [->|Hne]; simpl.
    + split; [exact Hm|]. intros other. rewrite elem_of_cons. split.
      * intros Hin. split; [auto|]. intros ->. tauto.
      * intros [[Heq|Hin] Hne]; [congruence|exact Hin].
    + split.
      * apply NoDup_cons. split; [|exact IH1].
        rewrite IH2. tauto.
      * intros other. rewrite !elem_of_cons, IH2. split.
        -- intros [->|[Hin Ho]]; auto.
        -- intros [[->|Hin] Ho]; auto.
Qed.

Lemma map_get_delete_ne {V} (key other : string) (m : js_map V) :
  other <> key -> map_get other (map_delete key m) = map_get other m.
Proof.
  intros Hne. induction m as [|[k v] m IH]; simpl; [reflexivity|].
  destruct (String.eqb_spec k key) as [->|Hk]; simpl.
  - destruct (String.eqb_spec key other); [congruence|reflexivity].
  - destruct (String.eqb_spec k other); [reflexivity|exact IH].
Qed.

Lemma service_step_well_formed (m : js_map StreamEntry) (c : service_call) :
  well_formed m -> well_formed (service_step m c).
Proof.
  intros Hm. destruct c as [streamId entry|streamId]; simpl.
  - apply map_set_well_formed, Hm.
  - unfold stopStream. destruct (map_get streamId m); [|exact Hm].
    apply map_delete_keys, Hm.
Qed.

Lemma service_reachable_well_formed (calls : list service_call)
      (m : js_map StreamEntry) :
  well_formed m -> well_formed (foldl service_step m calls).
Proof.
  revert m. induction calls as [|c calls IH]; intros m Hm; simpl; [exact Hm|].
  apply IH, service_step_well_formed, Hm.
Qed.

(** X15. The stream registry of [VideoStreamingService], after any
    sequence of settled [createStream] and [stopStream] calls on a new
    service.  [listActiveStreams] lists each id once, and lists exactly
    the ids [getStream] finds.  [stopStream] returns true exactly for
    an id that is listed; afterwards [getStream] finds nothing for it, a
    second [stopStream] returns false, and the other streams are as
    before. *)
Theorem stream_registry_laws (calls : list service_call) (streamId : string) :
  let activeStreams := foldl service_step [] calls in
  let ids m := map (fun x => x.1.1.1) (listActiveStreams m) in
  let stopped := stopStream streamId activeStreams in
  NoDup (ids activeStreams)
  /\ (is_Some (getStream streamId activeStreams)
      <-> streamId ∈ ids activeStreams)
  /\ (stopped.1 = true <-> streamId ∈ ids activeStreams)
  /\ getStream streamId stopped.2 = None
  /\ stopStream streamId stopped.2 = (false, stopped.2)
  /\ (forall other, other <> streamId ->
        getStream other stopped.2 = getStream other activeStreams)
  /\ (stopped.1 = false -> stopped.2 = activeStreams).
Proof.
  intros activeStreams ids stopped.
  assert (Hwf : well_formed activeStreams).
  { apply service_reachable_well_formed. apply NoDup_nil. exact I. }
  assert (Hids : forall m, ids m = map fst m).
  { intros m. unfold ids, listActiveStreams. rewrite map_map. reflexivity. }
  clearbody activeStreams. rewrite !Hids. unfold getStream.
  split; [exact Hwf|]. split; [apply map_get_keys|].
  assert (Hnone : map_get streamId stopped.2 = None).
  { subst stopped. unfold stopStream.
    destruct (map_get streamId activeStreams) as [e|] eqn:Eg; cbn [snd]; [|exact Eg].
    destruct (map_get streamId (map_delete streamId activeStreams)) eqn:Ed;
      [|reflexivity].
    exfalso. assert (Hin : is_Some (map_get streamId (map_delete streamId activeStreams)))
      by eauto.
    apply map_get_keys in Hin.
    apply (proj2 (map_delete_keys streamId activeStreams Hwf)) in Hin. tauto. }
  split.
  { rewrite <- map_get_keys. subst stopped. unfold stopStream.
    destruct (map_get streamId activeStreams) as [e|]; cbn [fst].
    - split; eauto.
    - split; [discriminate|]. intros [x Hx]. discriminate. }
  split; [exact Hnone|].
  split; [unfold stopStream at 1; rewrite Hnone; reflexivity|].
  subst stopped. unfold stopStream.
  destruct (map_get streamId activeStreams) as [e|]; cbn [fst snd].
  - split; [|discriminate]. intros other Hne. apply map_get_delete_ne, Hne.
  - split; reflexivity.
Qed.

End StreamFacts.

Section StreamRuns.
Import Streams.
Context `{PathModule} (w : World).




End StreamRuns.

Section AuthFacts.
Import Auth.

(** X18. What a successful [authorize] implies.  When it returns a user,
    all three credentials were present, the role is one of student,
    teacher, admin, the lookup found a user whose account is not locked,
    the password comparison answered true, and exactly one document was
    saved: the user with [loginAttempts] 0, no [lockUntil] and
    [lastLogin] now.  The returned object has [isAdmin] exactly for the
    admin role, and is never a blocked student or teacher. *)
Theorem authorize_success (backend : Backend) (credentials : option Credentials)
        (session : AuthUser) (saved : list User) :
  authorize backend credentials = (Resolved session, saved) ->
  exists c email password role user,
    credentials = Some c
    /\ Auth.email c = Some email /\ email <> ""
    /\ Auth.password c = Some password /\ password <> ""
    /\ Auth.role c = Some role
    /\ (role = "student" \/ role = "teacher" \/ role = "admin")
    /\ findOne backend role email = Resolved (Some user)
    /\ isLocked backend user = false
    /\ bcrypt_compare backend password (password_hash user) = Resolved true
    /\ saved = [{| _id := _id user; name := name user;
                   user_email := user_email user;
                   password_hash := password_hash user;
                   profileImage := profileImage user;
                   isBlocked := isBlocked user;
                   loginAttempts := Some 0; lockUntil := None;
                   lastLogin := Some (now backend) |}]
    /\ auth_id session = _id user /\ auth_role session = role
    /\ (auth_isAdmin session = true <-> role = "admin")
    /\ (auth_isBlocked session = true -> role = "admin")
    /\ auth_image session <> Some "".
Proof.
  unfold authorize. intros Hauth.
  destruct credentials as [c|]; [|discriminate].
  destruct (Auth.email c) as [email|] eqn:Ee;
    destruct (Auth.password c) as [password|] eqn:Ew;
    destruct (Auth.role c) as [role|] eqn:Er;
    cbn [present negb orb] in Hauth; rewrite ?orb_true_r in Hauth;
    try discriminate Hauth.
  destruct (String.eqb_spec email "") as [->|Hemail];
    destruct (String.eqb_spec password "") as [->|Hpassword];
    destruct (String.eqb_spec role "") as [->|Hrole];
    cbn [negb orb] in Hauth; try discriminate Hauth.
  cbn [negb orb default] in Hauth.
  destruct (dbConnect backend); [discriminate|].
  unfold id in Hauth.
  destruct (known_role role) eqn:Ek; cbn [negb] in Hauth; [|discriminate].
  destruct (findOne backend role email) as [[user|]|] eqn:Ef; try discriminate.
  destruct (isLocked backend user) eqn:El; [discriminate|].
  destruct (negb (role =? "admin")%string
            && bool_decide (isBlocked user = Some true)) eqn:Eb; [discriminate|].
  destruct (bcrypt_compare backend password (password_hash user))
    as [[|]|] eqn:Ec; try discriminate.
  2:{ destruct (save backend _); discriminate. }
  destruct (save backend _) eqn:Es; [discriminate|].
  injection Hauth as <- <-.
  exists c, email, password, role, user.
  cbn [_id name user_email profileImage isBlocked auth_id auth_role
       auth_isAdmin auth_isBlocked auth_image].
  repeat (split; [first [reflexivity | assumption]|]).
  split.
  { unfold known_role in Ek.
    destruct (String.eqb_spec role "student"); [auto|].
    destruct (String.eqb_spec role "teacher"); [auto|].
    destruct (String.eqb_spec role "admin"); [auto|]. discriminate. }
  repeat (split; [first [reflexivity | assumption]|]).
  split; [apply String.eqb_eq|].
  split.
  { intros Hblocked. rewrite Hblocked in Eb.
    destruct (String.eqb_spec role "admin"); [assumption|discriminate]. }
  unfold present. destruct (profileImage user) as [image|]; [|discriminate].
  destruct (String.eqb_spec image "") as [->|Hne]; cbn; congruence.
Qed.

(** X19. How a wrong password is counted.  Whenever [authorize] rejects
    after saving a document, the message is "Invalid password", the
    password comparison answered false, and the document saved is the
    user found with [loginAttempts] one higher (counting from 0 when
    there was none); with the fifth failure [lockUntil] is set to two
    hours from now, before that it is left as it was.  Nothing else of
    the user changes. *)
Theorem failed_login_accounting (backend : Backend)
        (credentials : option Credentials) (message : string) (saved : User) :
  authorize backend credentials = (Rejected message, [saved]) ->
  exists c user attempts,
    credentials = Some c
    /\ findOne backend (default "" (Auth.role c)) (default "" (Auth.email c))
       = Resolved (Some user)
    /\ isLocked backend user = false
    /\ bcrypt_compare backend (default "" (Auth.password c)) (password_hash user)
       = Resolved false
    /\ message = "Invalid password"
    /\ attempts = default 0 (loginAttempts user) + 1
    /\ loginAttempts saved = Some attempts
    /\ (MAX_LOGIN_ATTEMPTS <= attempts ->
        lockUntil saved = Some (now backend + 7200000))
    /\ (attempts < MAX_LOGIN_ATTEMPTS -> lockUntil saved = lockUntil user)
    /\ _id saved = _id user /\ password_hash saved = password_hash user
    /\ isBlocked saved = isBlocked user /\ lastLogin saved = lastLogin user.
Proof.
  unfold authorize. intros Hauth.
  destruct credentials as [c|]; [|discriminate].
  destruct (negb (present (Auth.email c)) || negb (present (Auth.password c))
            || negb (present (Auth.role c))); [discriminate|].
  cbv zeta in Hauth.
  destruct (dbConnect backend); [discriminate|].
  destruct (negb (known_role _)); [discriminate|].
  destruct (findOne backend _ _) as [[user|]|] eqn:Ef; try discriminate.
  destruct (isLocked backend user) eqn:El; [discriminate|].
  destruct (negb _ && bool_decide (isBlocked user = Some true)); [discriminate|].
  destruct (bcrypt_compare backend _ (password_hash user))
    as [[|]|] eqn:Ec; try discriminate.
  { destruct (save backend _); discriminate. }
  destruct (save backend _); [discriminate|].
  injection Hauth as <- <-.
  exists c, user, (default 0 (loginAttempts user) + 1).
  cbn [_id password_hash isBlocked lastLogin loginAttempts lockUntil].
  repeat (split; [first [reflexivity | assumption]|]).
  unfold MAX_LOGIN_ATTEMPTS, LOCK_TIME.
  split; [|split; [|auto]].
  - intros Hge. destruct (Z.geb_spec (default 0 (loginAttempts user) + 1) 5);
      [reflexivity|lia].
  - intros Hlt. destruct (Z.geb_spec (default 0 (loginAttempts user) + 1) 5);
      [lia|reflexivity].
Qed.

(** X20. A locked account, and a blocked student or teacher, are turned
    away before the password is looked at: the outcome is the same for
    every password, every answer of the comparison, every behaviour of
    [save] and every time of day, and nothing is saved, so failed
    attempts are not counted and a lock is not prolonged while it
    lasts. *)
Theorem locked_or_blocked_before_password (backend : Backend)
        (c : Credentials) (user : User) (password' : string)
        (compare' : string -> string -> outcome bool)
        (save' : User -> option string) (now' : Z) :
  present (Auth.password c) = true -> password' <> "" ->
  findOne backend (default "" (Auth.role c)) (default "" (Auth.email c))
  = Resolved (Some user) ->
  isLocked backend user = true
  \/ (Auth.role c <> Some "admin" /\ isBlocked user = Some true) ->
  authorize {| isLocked := isLocked backend; dbConnect := dbConnect backend;
               findOne := findOne backend; bcrypt_compare := compare';
               save := save'; now := now' |}
            (Some {| email := Auth.email c; password := Some password';
                     role := Auth.role c |})
  = authorize backend (Some c)
  /\ (authorize backend (Some c)).2 = []
  /\ is_rejected (authorize backend (Some c)).1 = true.
Proof.
  intros Hp Hp' Hfound Hgate.
  unfold authorize.
  cbn [Auth.email Auth.password Auth.role isLocked dbConnect findOne
       bcrypt_compare save now].
  assert (Hpresent : present (Some password') = true).
  { cbn. destruct (String.eqb_spec password' ""); [congruence|reflexivity]. }
  rewrite Hpresent, Hp.
  destruct (negb (present (Auth.email c)) || negb true
            || negb (present (Auth.role c))) eqn:Epresent;
    [auto|].
  cbv zeta. destruct (dbConnect backend); [auto|].
  destruct (negb (known_role _)); [auto|].
  rewrite Hfound.
  destruct Hgate as [Hlocked|[Hrole Hblocked]].
  - rewrite Hlocked. auto.
  - destruct (isLocked backend user); [auto|].
    assert (Hna : (default "" (Auth.role c) =? "admin")%string = false).
    { apply String.eqb_neq. intros Heq.
      destruct (Auth.role c) as [role|] eqn:Erole; cbn in Heq; [congruence|].
      discriminate Heq. }
    rewrite Hna, (bool_decide_eq_true_2 _ Hblocked). auto.
Qed.

End AuthFacts.

(** ** The [process-video] route, [generateThumbnails], [createHLSPlaylist] *)

Section ProcessRouteFacts.
Import ProcessRoute.
Context `{PathModule} (w : World).

(** X21. The defaults of the [process-video] route.  A job submitted
    through the route makes a preview clip unless the request says
    [generatePreview: false], and thumbnails unless it says
    [generateThumbnails: false], as many as [thumbnailCount], or 5 when
    that is missing or 0.  The pipeline called with the same request
    options directly makes a preview only for [generatePreview: true].
    Normalising twice changes nothing. *)
Theorem process_route_defaults (request : Options)
        (onProgress : Z -> string -> Task unit)
        (inputPath outputDir : string) (s : State) (res : PipelineResult) :
  (run w (processVideoWithAdaptiveStreaming inputPath outputDir
            (with_callback onProgress (processingOptions request))) s).2
  = Resolved res ->
  preview res
  = (if bool_decide (opt_generatePreview request = Some false) then None
     else Some (path_join outputDir "preview.mp4"))
  /\ thumbnails res
     = (if bool_decide (opt_generateThumbnails request = Some false) then []
        else map (thumbnail_path (path_join outputDir "thumbnails"))
               (seq 1 (Z.to_nat (thumbnailCount_or_5 request))))
  /\ (forall res', (run w (processVideoWithAdaptiveStreaming inputPath outputDir
                             request) s).2 = Resolved res' ->
        opt_generatePreview request = None -> preview res' = None)
  /\ (forall f,
        let once := processingOptions request in
        let twice := processingOptions (with_callback f once) in
        opt_generateThumbnails twice = opt_generateThumbnails once
        /\ opt_thumbnailCount twice = opt_thumbnailCount once
        /\ opt_generatePreview twice = opt_generatePreview once
        /\ opt_previewDuration twice = opt_previewDuration once).
Proof.
  intros Hres.
  destruct (pipeline_resolved w inputPath outputDir _ s res Hres)
    as (_ & Hth & Hpv & _).
  split; [|split; [|split]].
  - rewrite Hpv. unfold preview_enabled, with_callback, processingOptions.
    cbn [opt_generatePreview].
    destruct (bool_decide (opt_generatePreview request = Some false)); reflexivity.
  - rewrite Hth. unfold thumbnails_enabled, with_callback, processingOptions.
    cbn [opt_generateThumbnails].
    destruct (bool_decide (opt_generateThumbnails request = Some false));
      cbn [negb]; [reflexivity|].
    rewrite bool_decide_eq_false_2 by discriminate. cbn [negb].
    unfold thumbnailCount_or_5 at 1. cbn [opt_thumbnailCount].
    replace (thumbnailCount_or_5 request =? 0)%Z with false; [reflexivity|].
    symmetry. apply Z.eqb_neq. unfold thumbnailCount_or_5.
    destruct (opt_thumbnailCount request) as [c|]; [|discriminate].
    destruct (Z.eqb_spec c 0); [discriminate|assumption].
  - intros res' Hres' Hnone.
    destruct (pipeline_resolved w inputPath outputDir request s res' Hres')
      as (_ & _ & Hpv' & _).
    rewrite Hpv'. unfold preview_enabled. rewrite Hnone. reflexivity.
  - intros f once twice. subst once twice.
    unfold processingOptions, with_callback, thumbnailCount_or_5.
    cbn [opt_generateThumbnails opt_thumbnailCount opt_generatePreview
         opt_previewDuration].
    repeat split.
    + destruct (bool_decide (opt_generateThumbnails request = Some false));
        reflexivity.
    + destruct (opt_thumbnailCount request) as [c|]; [|reflexivity].
      destruct (Z.eqb_spec c 0) as [->|Hc]; [reflexivity|].
      destruct (Z.eqb_spec c 0); [congruence|reflexivity].
    + destruct (bool_decide (opt_generatePreview request = Some false));
        reflexivity.
    + destruct (opt_previewDuration request) as [d|]; [|reflexivity].
      destruct (Z.eqb_spec d 0) as [->|Hd]; [reflexivity|].
      destruct (Z.eqb_spec d 0); [congruence|reflexivity].
Qed.

End ProcessRouteFacts.

Section FunctionRuns.
Context `{PathModule} (w : World).

Lemma api_events_encodes evs : Forall api_event evs -> encodes evs = [].
Proof. apply flat_map_nil_Forall. intros [] Ha; simpl in *; tauto. Qed.

(** X22. [generateThumbnails] probes once and stops at the first failure.
    When the probe rejects, it rejects with the probe's message and
    extracts nothing.  Otherwise the extractions that ran wrote
    [thumbnail_1.jpg], [thumbnail_2.jpg], ... in this order, at most
    [count] of them; all but the last exited with code 0, and it rejects
    exactly when the last one did not.  A [count] of 0 or less extracts
    nothing and resolves with the empty list. *)
Theorem generateThumbnails_stops_at_first_failure
        (inputPath outputDir : string) (count : Z) (s : State) :
  let r := run w (generateThumbnails inputPath outputDir count) s in
  let evs := events_since s r.1 in
  let ran := extractions evs in
  exists r0,
    probed evs = [r0]
    /\ (forall message, r0 = Rejected message ->
          r.2 = Rejected message /\ ran = [])
    /\ (length ran <= Z.to_nat count)%nat
    /\ map (fun x => x.1.2) ran
       = map (thumbnail_path outputDir) (seq 1 (length ran))
    /\ Forall (fun x => x.2 = exit_ok) (removelast ran)
    /\ (forall info, r0 = Resolved info ->
          (is_rejected r.2 = true
           <-> exists x, last ran = Some x /\ x.2 <> exit_ok))
    /\ (count <= 0 -> forall info, r0 = Resolved info ->
          r.2 = Resolved [] /\ ran = []).
Proof.
  intros r evs ran.
  destruct (generateThumbnails_run w inputPath outputDir count s)
    as (r0 & Hp & Hrun).
  fold r evs in Hp, Hrun. fold ran in Hrun.
  exists r0. split; [exact Hp|].
  assert (Hpaths : forall interval n,
            map (fun x : Q * string * proc_exit => x.1.2)
              (map (fun i => extraction_at outputDir interval (Z.of_nat i) exit_ok)
                 (seq 1 n))
            = map (thumbnail_path outputDir) (seq 1 n)).
  { intros interval n. rewrite map_map. reflexivity. }
  assert (Hgood : forall interval n,
            Forall (fun x : Q * string * proc_exit => x.2 = exit_ok)
              (map (fun i => extraction_at outputDir interval (Z.of_nat i) exit_ok)
                 (seq 1 n))).
  { intros interval n. apply Forall_map, Forall_forall. intros; reflexivity. }
  destruct r0 as [info|message].
  - cbv zeta in Hrun.
    set (interval := (info_duration info / inject_Z (count + 1))%Q) in *.
    destruct r.2 as [l|msg] eqn:Er.
    + destruct Hrun as [-> Hx].
      split; [intros message Hm; discriminate Hm|].
      rewrite Hx. rewrite !length_map, !length_seq.
      split; [lia|]. split; [apply Hpaths|].
      split.
      { destruct (Z.to_nat count) as [|n]; [constructor|].
        rewrite seq_S, map_app. cbn [map]. rewrite removelast_last. apply Hgood. }
      split.
      { intros info' _. cbn. split; [discriminate|].
        intros (x & Hlast & Hx'). exfalso. apply Hx'.
        apply last_Some_elem_of, list_elem_of_In, in_map_iff in Hlast.
        destruct Hlast as (i & <- & _). reflexivity. }
      intros Hc info' _. replace (Z.to_nat count) with 0%nat by lia.
      split; reflexivity.
    + destruct Hrun as (m & r' & Hm & Hr' & Hx).
      split; [intros message Hmsg; discriminate Hmsg|].
      rewrite Hx. rewrite length_app, length_map, length_seq. cbn [length].
      split; [lia|].
      split.
      { rewrite map_app, Hpaths. replace (m + 1)%nat with (S m) by lia.
        rewrite seq_S, map_app. reflexivity. }
      split; [rewrite removelast_last; apply Hgood|].
      split.
      { intros info' _. split; [|reflexivity]. intros _.
        eexists. rewrite last_snoc. split; [reflexivity|exact Hr']. }
      intros Hc. lia.
  - destruct Hrun as [Hr Hx]. rewrite Hx.
    split; [intros m Hm; injection Hm as <-; auto|].
    cbn. split; [lia|]. split; [reflexivity|]. split; [constructor|].
    split; intros; discriminate.
Qed.

End FunctionRuns.

(** ** The [forgot-password] route *)

Section ForgotPasswordFacts.
Import ForgotPassword.

Local Ltac easy_reply :=
  cbn [fst snd http_status body saved sent nothing failed length In];
  repeat split; intros; try lia; try discriminate; try congruence;
  try contradiction.

(** X24. The [forgot-password] route does not tell whether an account
    exists, and never stores the token it mails.  Every 200 reply
    carries the same message, for an unknown address as for a known
    one.  A mail is sent at most once and only after the user was saved;
    the document saved holds the hash of the token mailed, never the
    token itself unless it is its own hash, and expires one hour from
    now.  For an unknown address nothing is saved or sent. *)
Theorem forgot_password_reply (backend : Backend)
        (request : outcome (outcome (string * string))) :
  let r := POST backend request in
  In (http_status r.1) [200; 400; 500]
  /\ (http_status r.1 = 200 -> body r.1 = MessageBody sent_message)
  /\ (http_status r.1 <> 200 -> sent r.2 = [])
  /\ (forall mail, In mail (sent r.2) ->
        request = Resolved (Resolved (mail.1.1, mail.2))
        /\ sent r.2 = [mail]
        /\ mail.1.2 = randomBytes backend
        /\ exists user,
             findOne backend mail.2 mail.1.1 = Resolved (Some user)
             /\ saved r.2
                = [{| user_email := user_email user;
                      resetToken := Some (sha256 backend mail.1.2);
                      resetTokenExpiry := Some (now backend + 3600000) |}])
  /\ (forall email role,
        request = Resolved (Resolved (email, role)) ->
        findOne backend role email = Resolved None ->
        saved r.2 = [] /\ sent r.2 = [])
  /\ (length (saved r.2) <= 1)%nat.
Proof.
  intros r. subst r. unfold POST.
  destruct request as [[[email role]|message]|message]; [|easy_reply..].
  destruct (dbConnect backend); [easy_reply|].
  destruct (negb _); [easy_reply|].
  destruct (findOne backend role email) as [[user|]|e] eqn:Ef; [|easy_reply..].
  cbv zeta. destruct (save backend _); [easy_reply|].
  destruct (sendPasswordResetEmail backend email _ role); [easy_reply|].
  cbn [fst snd http_status body saved sent length In].
  split; [lia|]. split; [reflexivity|]. split; [congruence|].
  split; [|split; [intros email' role' Hreq Hf; congruence|lia]].
  intros mail [<-|[]]. cbn [fst snd].
  repeat split. exists user. split; [exact Ef|reflexivity].
Qed.

End ForgotPasswordFacts.

(** ** Sample runs of the further properties *)


Lemma disabled_steps_do_not_run_witness :
  extractions (events_since fresh (pipeline_run without_thumbnails).1) = []
  /\ map fst (spawns (events_since fresh (pipeline_run without_thumbnails).1))
     = map (fun x => FfmpegHls "in.mp4" x.1
                       (@path_join posix_join
                          (@path_join posix_join "out" (name x.1)) "index.m3u8"))
         (encodes (events_since fresh (pipeline_run without_thumbnails).1)).
Proof.
  destruct (@disabled_steps_do_not_run posix_join (calm_world 600 1920 1080 [])
              "in.mp4" "out" without_thumbnails fresh I) as (H1 & _ & H3).
  split; [apply H1; reflexivity|apply H3; [reflexivity|discriminate]].
Defined.

Lemma probe_failure_stops_pipeline_witness :
  unreadable_run.2 = Rejected "FFprobe failed with code 1"
  /\ spawns (events_since fresh unreadable_run.1) = []
  /\ writes (events_since fresh unreadable_run.1) = []
  /\ touched_paths (events_since fresh unreadable_run.1) = ["out"].
Proof.
  destruct (@probe_failure_stops_pipeline posix_join world_with_failing_probe
              "in.mp4" "out" no_options fresh "FFprobe failed with code 1" [] I)
    as (H1 & _ & H2 & H3 & H4).
  - vm_compute. reflexivity.
  - auto.
Defined.

Lemma plan_grows_with_height_witness :
  generateOptimalVariants 480 360 10
  = take (length (generateOptimalVariants 480 360 10))
         (generateOptimalVariants 1920 1080 600).
Proof. apply plan_grows_with_height; lia. Defined.

Lemma DELETE_after_addJob_is_404_witness :
  Routes.http_status
    (Routes.DELETE (Some "job-1") (Resolved (Some (Some teacher)))
       (queue (@addJob posix_join (calm_world 600 1920 1080 []) "job-1"
                 "in.mp4" "out" no_options fresh).1.1)).1
  = 404.
Proof.
  rewrite (@DELETE_after_addJob_is_404 posix_join (calm_world 600 1920 1080 [])
             "job-1" "in.mp4" "out" no_options fresh teacher).
  - reflexivity.
  - discriminate.
  - left. reflexivity.
Defined.

Lemma authorize_success_witness :
  exists session saved,
    Auth.authorize (backend_with false true) (Some login)
    = (Resolved session, saved)
    /\ Auth.auth_role session = "student"
    /\ Auth.auth_isAdmin session = false
    /\ map Auth.loginAttempts saved = [Some 0].
Proof.
  assert (Hr : exists session saved,
             Auth.authorize (backend_with false true) (Some login)
             = (Resolved session, saved))
    by (do 2 eexists; vm_compute; reflexivity).
  destruct Hr as (session & saved & Hr). exists session, saved.
  split; [exact Hr|].
  destruct (authorize_success _ _ _ _ Hr)
    as (c & email & password & role & user & Hc & _ & _ & _ & _ & Hrole & _ & _
        & _ & _ & Hsaved & _ & Hr' & Hadmin & _).
  injection Hc as <-. injection Hrole as <-.
  split; [exact Hr'|]. split.
  - destruct (Auth.auth_isAdmin session); [|reflexivity].
    destruct Hadmin as [Hadmin _]. discriminate (Hadmin eq_refl).
  - rewrite Hsaved. reflexivity.
Defined.

Lemma failed_login_accounting_witness :
  exists saved,
    Auth.authorize (backend_with false false) (Some login)
    = (Rejected "Invalid password", [saved])
    /\ Auth.loginAttempts saved = Some 5
    /\ Auth.lockUntil saved = Some 1700007200000.
Proof.
  assert (Hr : exists saved,
             Auth.authorize (backend_with false false) (Some login)
             = (Rejected "Invalid password", [saved]))
    by (eexists; vm_compute; reflexivity).
  destruct Hr as (saved & Hr). exists saved. split; [exact Hr|].
  destruct (failed_login_accounting _ _ _ _ Hr)
    as (c & user & attempts & Hc & Hf & _ & _ & _ & Ha & Hl & Hlock & _).
  injection Hc as <-. injection Hf as <-. subst attempts.
  split; [exact Hl|]. apply Hlock. vm_compute. discriminate.
Defined.

Lemma locked_or_blocked_before_password_witness :
  Auth.authorize (backend_with true true) (Some login)
  = Auth.authorize (backend_with true false) (Some login)
  /\ (Auth.authorize (backend_with true false) (Some login)).2 = [].
Proof.
  destruct (locked_or_blocked_before_password (backend_with true false)
              login sam "secret" (fun _ _ => Resolved true) (fun _ => None)
              1700000000000) as (H1 & H2 & _).
  - reflexivity.
  - discriminate.
  - reflexivity.
  - left. reflexivity.
  - split; [exact H1|exact H2].
Defined.

Lemma process_route_defaults_witness :
  exists res,
    (pipeline_run (ProcessRoute.with_callback (job_onProgress "job-1")
                     (ProcessRoute.processingOptions no_options))).2
    = Resolved res
    /\ preview res = Some "out/preview.mp4"
    /\ length (thumbnails res) = 5%nat.
Proof.
  assert (Hr : exists res,
             (pipeline_run (ProcessRoute.with_callback (job_onProgress "job-1")
                              (ProcessRoute.processingOptions no_options))).2
             = Resolved res)
    by (eexists; vm_compute; reflexivity).
  destruct Hr as [res Hr]. exists res. split; [exact Hr|].
  destruct (@process_route_defaults posix_join (calm_world 600 1920 1080 [])
              no_options (job_onProgress "job-1") "in.mp4" "out" fresh res Hr)
    as (Hpv & Hth & _).
  split; [exact Hpv|]. rewrite Hth. reflexivity.
Defined.

(** * How runs end: the manifest step, the pipeline, the job *)

Section ManifestStep.
Context `{PathModule} (w : World).

Lemma api_events_attempts evs :
  Forall api_event evs -> write_attempts evs = [].
Proof. apply flat_map_nil_Forall. intros [] Ha; simpl in *; tauto. Qed.

Lemma write_attempts_app h1 h2 :
  write_attempts (h1 ++ h2) = (write_attempts h1 ++ write_attempts h2)%list.
Proof. apply flat_map_app. Qed.

(** The files written are the attempts that were fulfilled. *)
Lemma writes_of_attempts h :
  writes h = flat_map (fun x : string * string * option string =>
                         match x.2 with
                         | None => [(x.1.1, x.1.2)]
                         | Some _ => []
                         end) (write_attempts h).
Proof.
  induction h as [|e h IH]; [reflexivity|].
  change (e :: h) with ([e] ++ h)%list.
  rewrite writes_app, write_attempts_app, flat_map_app, IH. f_equal.
  destruct e as [p r|c r|c r|id j|id r|id r]; try reflexivity.
  destruct c as [path|path content]; [reflexivity|].
  destruct r; reflexivity.
Qed.

(** The loop of [createHLSPlaylist]: the encodes that ran are those of
    the first [k] variants, all with code 0, then perhaps one that
    failed; [writeFile] is not called. *)
Lemma hls_loop_run (inputPath outputDir : string) (variants : list VideoVariant) :
  forall (masterContent : string) (s : State),
    let r := run w (hls_loop inputPath outputDir variants masterContent) s in
    let evs := events_since s r.1 in
    write_attempts evs = [] /\ probed evs = []
    /\ exists k tail,
         encodes evs = (map encoded (take k variants) ++ tail)%list
         /\ match r.2 with
            | Resolved content =>
                k = length variants /\ tail = []
                /\ content = foldl (fun c v => c ++ stream_inf v)
                               masterContent variants
            | Rejected message =>
                (k < length variants)%nat
                /\ (tail = []
                    \/ exists v x, variants !! k = Some v /\ tail = [(v, x)]
                                   /\ x <> exit_ok
                                   /\ message = hls_failure_message v x)
            end.
Proof.
  induction variants as [|variant rest IH]; intros masterContent s.
  - cbn [hls_loop run fst snd]. rewrite events_since_refl.
    split; [reflexivity|]. split; [reflexivity|]. exists 0%nat, []. auto.
  - cbn [hls_loop]. cbv zeta.
    match goal with
    | |- context [AwaitFs ?c ?k] =>
        destruct (await_fs_run w c k s) as (evs0 & m & s1 & Hall0 & Hh0 & ->)
    end.
    rewrite (events_since_run w _ s s1 _ Hh0).
    rewrite !write_attempts_app, !encodes_app, !probed_app,
      (api_events_attempts _ Hall0), (api_events_encodes _ Hall0),
      (api_events_probed _ Hall0).
    destruct m as [message|].
    + cbn [run fst snd]. rewrite events_since_refl.
      split; [reflexivity|]. split; [reflexivity|].
      exists 0%nat, []. cbn. split; [reflexivity|].
      split; [lia|auto].
    + match goal with
      | |- context [AwaitSpawn ?c ?k] =>
          destruct (await_spawn_run w c k s1) as (evs1 & x & s2 & Hall1 & Hh1 & ->)
      end.
      rewrite (events_since_run w _ s1 s2 _ Hh1).
      rewrite !write_attempts_app, !encodes_app, !probed_app,
        (api_events_attempts _ Hall1), (api_events_encodes _ Hall1),
        (api_events_probed _ Hall1).
      cbn [write_attempts encodes probed flat_map app].
      assert (Hfail : forall message, x <> exit_ok ->
                message = hls_failure_message variant x ->
                write_attempts (events_since s2 (run w (Throw message : Task string) s2).1) = []
                /\ probed (events_since s2 (run w (Throw message : Task string) s2).1) = []
                /\ exists k tail,
                     ((variant, x) :: encodes (events_since s2 (run w (Throw message : Task string) s2).1))
                     = (map encoded (take k (variant :: rest)) ++ tail)%list
                     /\ (k < length (variant :: rest))%nat
                     /\ (tail = []
                         \/ exists v x', (variant :: rest) !! k = Some v
                                         /\ tail = [(v, x')] /\ x' <> exit_ok
                                         /\ message = hls_failure_message v x')).
      { intros message Hx Hm. cbn [run fst snd]. rewrite events_since_refl.
        split; [reflexivity|]. split; [reflexivity|].
        exists 0%nat, [(variant, x)].
        cbn. split; [reflexivity|]. split; [lia|]. right.
        exists variant, x. auto. }
      destruct x as [code|message].
      * destruct (is_zero code) eqn:Ez.
        -- apply is_zero_true in Ez. subst code.
           destruct (IH (masterContent ++ stream_inf variant) s2)
             as (Hw & Hp & k & tail & Henc & Hend).
           split; [exact Hw|]. split; [exact Hp|]. exists (S k), tail.
           cbn [take map app]. rewrite Henc. split; [reflexivity|].
           destruct (run w _ s2).2 as [content|msg].
           ++ destruct Hend as (-> & -> & ->). cbn. auto.
           ++ destruct Hend as (Hk & Htail). cbn [length]. split; [lia|].
              exact Htail.
        -- apply Hfail; [apply is_zero_exit_ok, Ez|reflexivity].
      * apply Hfail; [discriminate|reflexivity].
Qed.

(** How [createHLSPlaylist] ends. *)
Lemma createHLSPlaylist_run (inputPath outputDir : string)
      (variants : list VideoVariant) (s : State) :
  let r := run w (createHLSPlaylist inputPath outputDir variants) s in
  let evs := events_since s r.1 in
  let manifest := path_join outputDir "master.m3u8" in
  probed evs = []
  /\ exists k tail,
       encodes evs = (map encoded (take k variants) ++ tail)%list
       /\ match r.2 with
          | Resolved p =>
              p = manifest /\ k = length variants /\ tail = []
              /\ write_attempts evs = [(manifest, master_playlist variants, None)]
          | Rejected message =>
              (tail = []
               /\ (write_attempts evs = []
                   \/ (k = length variants
                       /\ write_attempts evs
                          = [(manifest, master_playlist variants, Some message)])))
              \/ (exists v x, variants !! k = Some v /\ tail = [(v, x)]
                              /\ x <> exit_ok
                              /\ message = hls_failure_message v x
                              /\ write_attempts evs = [])
          end.
Proof.
  intros r evs manifest. subst evs r manifest.
  unfold createHLSPlaylist, mbind, Task_bind. cbv zeta.
  rewrite events_since_bind,
    (run_bind w (hls_loop inputPath outputDir variants master_header)).
  destruct (hls_loop_run inputPath outputDir variants master_header s)
    as (Hw & Hp & k & tail & Henc & Hend).
  cbv zeta in Hw, Hp, Henc, Hend.
  rewrite !write_attempts_app, !encodes_app, !probed_app, Hw, Hp, Henc.
  destruct (run w (hls_loop inputPath outputDir variants master_header) s)
    as [s1 [content|message]]; cbn [fst snd] in *.
  - destruct Hend as (-> & -> & ->).
    unfold fs_writeFile.
    rewrite events_since_bind, run_bind.
    match goal with
    | |- context [AwaitFs ?c ?k] =>
        destruct (fs_run w c s1) as (evs1 & m & Hall1 & Hev1 & Hr1)
    end.
    cbv zeta in Hev1, Hr1.
    set (t1 := AwaitFs _ _) in *.
    rewrite Hev1. destruct (run w t1 s1) as [s2 o2]. cbn [fst snd] in *. subst o2.
    rewrite !write_attempts_app, !encodes_app, !probed_app,
      (api_events_attempts _ Hall1), (api_events_encodes _ Hall1),
      (api_events_probed _ Hall1).
    destruct m as [message|];
      cbn [run fst snd write_attempts encodes probed flat_map app];
      rewrite ?events_since_refl;
      cbn [write_attempts encodes probed flat_map app];
      rewrite ?app_nil_r; (split; [reflexivity|]);
      exists (length variants), []; rewrite firstn_all, ?app_nil_r;
      (split; [reflexivity|]).
    + left. split; [reflexivity|]. right. auto.
    + auto.
  - rewrite !app_nil_r. destruct Hend as (Hk & Htail).
    split; [reflexivity|].
    exists k, tail. split; [reflexivity|].
    destruct Htail as [->|(v & x & Hv & -> & Hx & Hm)]; [auto|].
    right. exists v, x. auto.
Qed.

End ManifestStep.

(** ** Steps that can be skipped *)

Section Skip.
Context (w : World) (C : event -> Prop) {B : Type}
        (Q : list event -> outcome B -> Prop).
Hypothesis C_api : forall e, api_event e -> C e.
Hypothesis Q_prefix :
  forall acc evs o, Forall C acc -> Q evs o -> Q (acc ++ evs)%list o.
Hypothesis Q_rejected :
  forall acc message, Forall C acc -> Q acc (Rejected message).

Lemma calm_events {A} (t : Task A) (s : State) :
  emits C t -> Forall C (events_since s (run w t s).1).
Proof.
  intros Ht. eapply Forall_impl; [apply (emits_run w C), Ht|].
  intros e [He|He]; auto.
Qed.

(** A step whose events all satisfy [C] leaves [Q] to the rest. *)
Lemma skip_bind {A} (t : Task A) (f : A -> Task B) (s : State) :
  emits C t ->
  (forall a s1, Q (events_since s1 (run w (f a) s1).1) (run w (f a) s1).2) ->
  Q (events_since s (run w (bind t f) s).1) (run w (bind t f) s).2.
Proof.
  intros Ht Hf. rewrite events_since_bind, run_bind.
  pose proof (calm_events t s Ht) as Hc.
  destruct (run w t s) as [s1 [a|message]]; cbn [fst snd] in *.
  - apply Q_prefix; [exact Hc|apply Hf].
  - rewrite app_nil_r. apply Q_rejected, Hc.
Qed.
End Skip.

Section PipelinePhases.
Context `{PathModule} (w : World) (inputPath outputDir : string)
        (options : Options).
Hypothesis Hcb : callback_quiet options.

Let onProgress := default (fun _ _ => Return tt) (opt_onProgress options).

Lemma callback_emits (C : event -> Prop) p stage :
  (forall e, api_event e -> C e) -> emits C (onProgress p stage).
Proof.
  intros HC. subst onProgress. unfold callback_quiet in Hcb.
  destruct (opt_onProgress options) as [cb|]; simpl; [|exact I].
  eapply emits_weaken; [exact HC|apply Hcb].
Qed.

Lemma quiet_emits {A} (t : Task A) : quiet t -> emits no_manifest_event t.
Proof.
  induction t as [a|m|p k IH|c k IH|c k IH|k IH|id k IH|id j k IH];
    simpl; try tauto.
  - intros Hq r. split; [exact I|]. apply IH, Hq.
  - intros [Hc Hq] r. split; [destruct c; tauto|]. apply IH, Hq.
  - intros [Hc Hq] r. split; [destruct c; tauto|]. apply IH, Hq.
  - intros Hq now. apply IH, Hq.
Qed.

Lemma api_no_manifest e : api_event e -> no_manifest_event e.
Proof. destruct e; simpl; tauto. Qed.

Lemma api_before_probe e : api_event e -> before_probe_event e.
Proof. destruct e; simpl; tauto. Qed.

Lemma before_probe_no_manifest e : before_probe_event e -> no_manifest_event e.
Proof. destruct e; simpl; tauto. Qed.

Lemma manifest_phase_prefix info acc evs o :
  Forall no_manifest_event acc ->
  manifest_phase w inputPath outputDir options info evs o ->
  manifest_phase w inputPath outputDir options info (acc ++ evs)%list o.
Proof.
  intros Hacc (pre & Hpre & Hcase). exists (acc ++ pre)%list.
  split; [apply Forall_app; auto|].
  destruct Hcase as [(m & -> & ->)|(s_h & post & Hev & Hpost & Hend)].
  - left. eauto.
  - right. exists s_h, post. cbv zeta in *. rewrite Hev, <- app_assoc. auto.
Qed.

Lemma manifest_phase_rejected info acc message :
  Forall no_manifest_event acc ->
  manifest_phase w inputPath outputDir options info acc (Rejected message).
Proof. intros Hacc. exists acc. split; [exact Hacc|]. left. eauto. Qed.

Lemma pipeline_phases_prefix acc evs o :
  Forall before_probe_event acc ->
  pipeline_phases w inputPath outputDir options evs o ->
  pipeline_phases w inputPath outputDir options (acc ++ evs)%list o.
Proof.
  intros Hacc [(m & -> & Hall)|(pre & info & rest & -> & Hpre & Hph)].
  - left. exists m. split; [reflexivity|]. apply Forall_app. split; [|exact Hall].
    eapply Forall_impl; [exact Hacc|]. apply before_probe_no_manifest.
  - right. exists (acc ++ pre)%list, info, rest.
    rewrite <- app_assoc. split; [reflexivity|].
    split; [apply Forall_app; auto|exact Hph].
Qed.

Lemma pipeline_phases_rejected acc message :
  Forall before_probe_event acc ->
  pipeline_phases w inputPath outputDir options acc (Rejected message).
Proof.
  intros Hacc. left. exists message. split; [reflexivity|].
  eapply Forall_impl; [exact Hacc|]. apply before_probe_no_manifest.
Qed.

(** The manifest phase of the pipeline. *)
Lemma pipeline_manifest_phase (videoInfo : VideoInfo) (s : State) :
  let variants := generateOptimalVariants (info_width videoInfo)
                    (info_height videoInfo) (info_duration videoInfo) in
  let rest :=
    bind (onProgress 10 "Planning quality variants") (fun _ =>
    bind (if negb (bool_decide (opt_generateThumbnails options = Some false))
          then bind (onProgress 20 "Generating thumbnails") (fun _ =>
               bind (fs_mkdir (path_join outputDir "thumbnails")) (fun _ =>
               generateThumbnails inputPath (path_join outputDir "thumbnails")
                 (thumbnailCount_or_5 options)))
          else Return []) (fun thumbnails =>
    bind (if bool_decide (opt_generatePreview options = Some true)
          then bind (onProgress 30 "Creating preview clip") (fun _ =>
               bind (transcode inputPath (path_join outputDir "preview.mp4"))
                 (fun _ => Return (Some (path_join outputDir "preview.mp4"))))
          else Return None) (fun preview =>
    bind (onProgress 40 "Creating adaptive streaming variants") (fun _ =>
    bind (createHLSPlaylist inputPath outputDir variants) (fun hlsPlaylist =>
    bind (onProgress 100 "Processing complete") (fun _ =>
    Return {| hlsPlaylist := hlsPlaylist; thumbnails := thumbnails;
              preview := preview; variants := variants |})))))) in
  manifest_phase w inputPath outputDir options videoInfo
    (events_since s (run w rest s).1) (run w rest s).2.
Proof.
  intros variants rest. subst rest variants.
  set (variants := generateOptimalVariants _ _ _).
  pose proof (manifest_phase_prefix videoInfo) as Hprefix.
  pose proof (manifest_phase_rejected videoInfo) as Hrej.
  apply (skip_bind w no_manifest_event _ api_no_manifest Hprefix Hrej);
    [apply callback_emits, api_no_manifest|]. intros _ s1.
  apply (skip_bind w no_manifest_event _ api_no_manifest Hprefix Hrej).
  { destruct (negb _); [|exact I].
    apply emits_bind; [apply callback_emits, api_no_manifest|]. intros _.
    apply emits_bind; [apply quiet_emits, quiet_fs_mkdir|]. intros _.
    apply quiet_emits, quiet_generateThumbnails. }
  intros thumbnails s2.
  apply (skip_bind w no_manifest_event _ api_no_manifest Hprefix Hrej).
  { destruct (bool_decide _); [|exact I].
    apply emits_bind; [apply callback_emits, api_no_manifest|]. intros _.
    apply emits_bind; [apply quiet_emits, quiet_transcode|]. intros _. exact I. }
  intros preview s3.
  apply (skip_bind w no_manifest_event _ api_no_manifest Hprefix Hrej);
    [apply callback_emits, api_no_manifest|]. intros _ s4.
  exists []. split; [constructor|]. right.
  rewrite events_since_bind,
    (run_bind w (createHLSPlaylist inputPath outputDir variants)).
  destruct (run w (createHLSPlaylist inputPath outputDir variants) s4)
    as [s5 [p|message]] eqn:Eh; cbn [fst snd].
  - rewrite events_since_bind,
      (run_bind w (onProgress 100 "Processing complete")).
    pose proof (emits_run w api_event _ s5
                  (callback_emits api_event 100 "Processing complete"
                     (fun e He => He))) as Hpost.
    destruct (run w (onProgress 100 "Processing complete") s5)
      as [s6 [[]|message]] eqn:Ec; cbn [fst snd run] in *.
    + exists s4, (events_since s5 s6). cbv zeta. fold variants.
      rewrite Eh. cbn [fst snd].
      rewrite events_since_refl, app_nil_r.
      split; [reflexivity|]. split; [|left; eauto].
      eapply Forall_impl; [exact Hpost|]. intros e [He|He]; exact He.
    + exists s4, (events_since s5 s6). cbv zeta. fold variants.
      rewrite Eh. cbn [fst snd].
      rewrite app_nil_r.
      split; [reflexivity|]. split.
      * eapply Forall_impl; [exact Hpost|]. intros e [He|He]; exact He.
      * right. exists message, s5. split; [reflexivity|].
        fold onProgress. rewrite Ec. reflexivity.
  - exists s4, []. cbv zeta. fold variants.
    rewrite Eh. cbn [fst snd]. rewrite !app_nil_r.
    split; [reflexivity|]. split; [constructor|]. auto.
Qed.

(** The phases of the pipeline. *)
Lemma pipeline_run_phases (s : State) :
  let r := run w (processVideoWithAdaptiveStreaming inputPath outputDir
                    options) s in
  pipeline_phases w inputPath outputDir options (events_since s r.1) r.2.
Proof.
  intros r. subst r.
  unfold processVideoWithAdaptiveStreaming, mbind, Task_bind. cbv zeta.
  fold onProgress.
  apply (skip_bind w before_probe_event _ api_before_probe
           pipeline_phases_prefix pipeline_phases_rejected).
  { intros r. split; [exact I|]. destruct r; exact I. }
  intros _ s1. rewrite run_rethrow.
  apply (skip_bind w before_probe_event _ api_before_probe
           pipeline_phases_prefix pipeline_phases_rejected);
    [apply callback_emits, api_before_probe|].
  intros _ s2.
  rewrite events_since_bind, (run_bind w (probe inputPath)).
  destruct (probe_run w inputPath s2) as (evs0 & r0 & Hall0 & Hev0 & Hr0).
  rewrite Hev0.
  destruct (run w (probe inputPath) s2) as [s3 o3]. cbn [fst snd] in *. subst o3.
  destruct r0 as [videoInfo|message].
  - right. exists evs0, videoInfo. eexists.
    rewrite <- app_assoc. split; [reflexivity|].
    split; [eapply Forall_impl; [exact Hall0|]; apply api_before_probe|].
    apply (pipeline_manifest_phase videoInfo s3).
  - left. exists message. split; [reflexivity|]. rewrite app_nil_r.
    apply Forall_app. split.
    + eapply Forall_impl; [exact Hall0|]. apply api_no_manifest.
    + repeat constructor.
Qed.

End PipelinePhases.

Section PipelineFacts.
Context `{PathModule} (w : World).

Lemma no_manifest_encodes evs : Forall no_manifest_event evs -> encodes evs = [].
Proof.
  apply flat_map_nil_Forall. intros [p r|c r|c r|id j|id r|id r] He; try reflexivity.
  destruct c; simpl in *; tauto.
Qed.

Lemma no_manifest_attempts evs :
  Forall no_manifest_event evs -> write_attempts evs = [].
Proof.
  apply flat_map_nil_Forall. intros [p r|c r|c r|id j|id r|id r] He; try reflexivity.
  destruct c; simpl in *; tauto.
Qed.

Lemma before_probe_probed evs : Forall before_probe_event evs -> probed evs = [].
Proof.
  apply flat_map_nil_Forall. intros [p r|c r|c r|id j|id r|id r] He;
    simpl in *; tauto.
Qed.

Lemma no_attempts_no_writes evs : write_attempts evs = [] -> writes evs = [].
Proof. intros Ha. rewrite writes_of_attempts, Ha. reflexivity. Qed.

Lemma Forall_removelast {A} (P : A -> Prop) (l : list A) :
  Forall P l -> Forall P (removelast l).
Proof.
  induction 1 as [|a l Ha Hl IH]; [constructor|].
  destruct l as [|b l]; [constructor|].
  change (removelast (a :: b :: l)) with (a :: removelast (b :: l)).
  constructor; auto.
Qed.

Lemma encoded_all_ok (variants : list VideoVariant) :
  Forall (fun x : VideoVariant * proc_exit => x.2 = exit_ok) (map encoded variants).
Proof. apply Forall_map, Forall_forall. intros; reflexivity. Qed.

Lemma last_encoded_ok (variants : list VideoVariant) v x :
  last (map encoded variants) = Some (v, x) -> x = exit_ok.
Proof.
  intros Hl. apply last_Some_elem_of, list_elem_of_In, in_map_iff in Hl.
  destruct Hl as (v' & Heq & _). injection Heq as _ <-. reflexivity.
Qed.

(** What the pipeline's events and outcome have to do with each other.
    When it resolves: the plan is that of the first probe's answer, all
    of it was encoded, and the one [writeFile] call wrote the manifest
    of the plan.  When it rejects (and the callback did not throw):
    nothing was written, and if the last encode failed the message is
    that encode's.  In any case all encodes but the last exited with
    code 0. *)
Lemma pipeline_facts (inputPath outputDir : string) (options : Options)
      (s : State) :
  callback_quiet options ->
  let r := run w (processVideoWithAdaptiveStreaming inputPath outputDir
                    options) s in
  let evs := events_since s r.1 in
  let manifest := path_join outputDir "master.m3u8" in
  (forall res, r.2 = Resolved res ->
     exists info rest,
       probed evs = Resolved info :: rest
       /\ Probed inputPath (Resolved info) ∈ evs
       /\ variants res = generateOptimalVariants (info_width info)
                           (info_height info) (info_duration info)
       /\ hlsPlaylist res = manifest
       /\ encodes evs = map encoded (variants res)
       /\ write_attempts evs
          = [(manifest, master_playlist (variants res), None)])
  /\ (callback_total w options ->
      forall message, r.2 = Rejected message ->
        writes evs = []
        /\ forall v x, last (encodes evs) = Some (v, x) -> x <> exit_ok ->
             message = hls_failure_message v x /\ write_attempts evs = [])
  /\ Forall (fun x => x.2 = exit_ok) (removelast (encodes evs)).
Proof.
  intros Hcb r evs manifest.
  pose proof (pipeline_run_phases w inputPath outputDir options Hcb s) as Hph.
  cbv zeta in Hph. fold r in Hph. fold evs in Hph. clearbody evs r.
  destruct Hph as [(m & -> & Hall)|(pre & info & rest & -> & Hpre & Hph)].
  { pose proof (no_manifest_encodes _ Hall) as He.
    pose proof (no_manifest_attempts _ Hall) as Ha.
    rewrite He. split; [intros res Hr; discriminate Hr|].
    split; [|constructor].
    intros _ message _. split; [apply no_attempts_no_writes, Ha|].
    intros v x Hl. discriminate Hl. }
  assert (Hpre_m : Forall no_manifest_event pre).
  { eapply Forall_impl; [exact Hpre|]. apply before_probe_no_manifest. }
  assert (Henc : encodes (pre ++ Probed inputPath (Resolved info) :: rest)
                 = encodes rest).
  { change (Probed inputPath (Resolved info) :: rest)
      with ([Probed inputPath (Resolved info)] ++ rest)%list.
    rewrite !encodes_app, (no_manifest_encodes _ Hpre_m). reflexivity. }
  assert (Hatt : write_attempts (pre ++ Probed inputPath (Resolved info) :: rest)
                 = write_attempts rest).
  { change (Probed inputPath (Resolved info) :: rest)
      with ([Probed inputPath (Resolved info)] ++ rest)%list.
    rewrite !write_attempts_app, (no_manifest_attempts _ Hpre_m). reflexivity. }
  assert (Hprobed : probed (pre ++ Probed inputPath (Resolved info) :: rest)
                    = Resolved info :: probed rest).
  { change (Probed inputPath (Resolved info) :: rest)
      with ([Probed inputPath (Resolved info)] ++ rest)%list.
    rewrite !probed_app, (before_probe_probed _ Hpre). reflexivity. }
  assert (Hin : Probed inputPath (Resolved info)
                ∈ (pre ++ Probed inputPath (Resolved info) :: rest)%list).
  { apply elem_of_app. right. apply list_elem_of_here. }
  rewrite (writes_of_attempts (pre ++ _)), Henc, Hatt.
  destruct Hph as (pre' & Hpre' & [(m & -> & ->)|(s_h & post & Hev & Hpost & Hend)]).
  { rewrite (no_manifest_encodes _ Hpre'), (no_manifest_attempts _ Hpre').
    split; [intros res Hr; discriminate Hr|]. split; [|constructor].
    intros _ message _. split; [reflexivity|]. intros v x Hl. discriminate Hl. }
  cbv zeta in Hev, Hend.
  set (plan := generateOptimalVariants (info_width info) (info_height info)
                 (info_duration info)) in *.
  destruct (createHLSPlaylist_run w inputPath outputDir plan s_h)
    as (_ & k & tail & Henc_h & Hrun).
  cbv zeta in Henc_h, Hrun. fold manifest in Hrun.
  set (rh := run w (createHLSPlaylist inputPath outputDir plan) s_h) in *.
  assert (Henc_r : encodes rest = encodes (events_since s_h rh.1)).
  { rewrite Hev, !encodes_app, (no_manifest_encodes _ Hpre'),
      (api_events_encodes _ Hpost), app_nil_r. reflexivity. }
  assert (Hatt_r : write_attempts rest = write_attempts (events_since s_h rh.1)).
  { rewrite Hev, !write_attempts_app, (no_manifest_attempts _ Hpre'),
      (api_events_attempts _ Hpost), app_nil_r. reflexivity. }
  rewrite Henc_r, Hatt_r, Henc_h.
  destruct rh.2 as [p|message_h].
  - destruct Hrun as (-> & -> & -> & Ha). rewrite Ha, firstn_all, app_nil_r.
    split; [|split; [|apply Forall_removelast, encoded_all_ok]].
    + intros res Hr.
      destruct Hend as [(th & pv & Ho)|(m & s' & Ho & _)]; [|congruence].
      rewrite Ho in Hr. injection Hr as <-. cbn [variants hlsPlaylist].
      exists info, (probed rest). auto 10.
    + intros Htotal message Hr.
      destruct Hend as [(th & pv & Ho)|(m & s' & Ho & Hthrow)]; [congruence|].
      rewrite (Htotal 100 "Processing complete" s') in Hthrow.
      discriminate Hthrow.
  - destruct Hend as [-> ->].
    split; [intros res Hr; discriminate Hr|].
    destruct Hrun as [(-> & Ha)|(v & x & Hv & -> & Hx & Hm & Ha)].
    + rewrite app_nil_r.
      split; [|apply Forall_removelast, encoded_all_ok].
      intros _ message Hr. injection Hr as <-. split.
      * destruct Ha as [->|(_ & ->)]; reflexivity.
      * intros v x Hl Hx. exfalso. apply Hx. eapply last_encoded_ok, Hl.
    + rewrite Ha. split; [|rewrite removelast_last; apply encoded_all_ok].
      intros _ message Hr. injection Hr as <-. split; [reflexivity|].
      intros v' x' Hl _. rewrite last_snoc in Hl. injection Hl as <- <-.
      auto.
Qed.

End PipelineFacts.

Section JobEnd.
Context `{PathModule} (w : World) (jobId : string).



(** A job from submission to its last write: the two entries [addJob]
    stores, the pipeline's run, and one more entry, which says how the
    pipeline ended. *)
Lemma job_end (inputPath outputDir : string) (options : Options) (s : State) :
  let s1 := (addJob w jobId inputPath outputDir options s).1.1 in
  let r := run w (processVideoWithAdaptiveStreaming inputPath outputDir
                    (job_options jobId options)) s1 in
  let s' := run_job w jobId inputPath outputDir options s in
  exists queued processing j,
    status queued = Queued /\ status processing = Processing
    /\ queue s1 !! jobId = Some processing
    /\ history s1
       = (history s ++ [Stored jobId queued; Stored jobId processing])%list
    /\ events_since s s'
       = ([Stored jobId queued; Stored jobId processing]
            ++ events_since s1 r.1 ++ [Stored jobId j])%list
    /\ queue s' = <[jobId := j]> (queue r.1)
    /\ match r.2 with
       | Resolved res =>
           status j = Completed /\ progress j = Some 100
           /\ result j = Some res
       | Rejected message =>
           status j = Error /\ error j = Some message
       end.
Proof.
  intros s1 r s'. subst s' r s1.
  rewrite (run_job_unfold w jobId).
  pose proof (addJob_returns w jobId inputPath outputDir options s) as Hadd.
  cbv zeta in Hadd. rewrite Hadd. cbn [fst snd].
  set (queued := {| status := Queued; progress := Some 0; result := None;
                    error := None; startTime := Some (Date_now w (history s)) |}).
  set (processing := {| status := Processing; progress := Some 0;
                        result := None; error := None;
                        startTime := Some (Date_now w (history s)) |}).
  set (s1 := store jobId processing (store jobId queued s)).
  assert (Hh1 : history s1 = (history s ++ [Stored jobId queued;
                                            Stored jobId processing])%list).
  { subst s1. cbn [store history]. rewrite <- app_assoc. reflexivity. }
  unfold addJob_task. cbn [run].
  rewrite run_try_catch. unfold processJob. rewrite run_try_catch.
  cbn [run]. cbn [store queue]. rewrite lookup_insert_eq.
  cbn [spread status progress result error startTime].
  unfold mbind, Task_bind. rewrite run_bind.
  fold (job_options jobId options). fold queued processing.
  change (store jobId processing (store jobId queued s)) with s1.
  destruct (run_extends w (processVideoWithAdaptiveStreaming inputPath outputDir
                             (job_options jobId options)) s1) as (evs & Hh).
  rewrite (events_since_app s1 _ evs Hh).
  destruct (run w (processVideoWithAdaptiveStreaming inputPath outputDir
                     (job_options jobId options)) s1) as [s2 [res|message]];
    cbn [run fst snd store queue history] in *;
    exists queued, processing; eexists;
    (split; [reflexivity|]); (split; [reflexivity|]);
    (split; [subst s1; cbn [store queue]; apply lookup_insert_eq|]);
    (split; [exact Hh1|]);
    (split; [apply events_since_app; cbn [store history]; rewrite Hh, Hh1, <- !app_assoc; reflexivity|]);
    (split; [reflexivity|]);
    destruct (queue s2 !! jobId); cbn; auto.
Qed.

End JobEnd.

(** ** The pipeline's result and the manifest step *)

(** X2. What the pipeline resolves with, whatever the world did: the
    playlist path is [outputDir/master.m3u8]; the thumbnails are
    [thumbnail_1.jpg] .. [thumbnail_n.jpg] under [outputDir/thumbnails],
    where [n] is [thumbnailCount], or 5 when that is missing or 0, and
    none when thumbnails are switched off; the preview is
    [outputDir/preview.mp4] exactly when [generatePreview] is true; the
    variants are the planner's plan for what the first probe of the run,
    a probe of [inputPath], reported, so never empty.  (The callback
    only touches the registry.) *)
Theorem pipeline_result_shape `{PathModule} (w : World)
        (inputPath outputDir : string) (options : Options) (s : State)
        (res : PipelineResult) :
  callback_quiet options ->
  let r := run w (processVideoWithAdaptiveStreaming inputPath outputDir
                    options) s in
  let evs := events_since s r.1 in
  r.2 = Resolved res ->
  hlsPlaylist res = path_join outputDir "master.m3u8"
  /\ thumbnails res
     = (if thumbnails_enabled options
        then map (thumbnail_path (path_join outputDir "thumbnails"))
               (seq 1 (Z.to_nat (thumbnailCount_or_5 options)))
        else [])
  /\ (opt_generateThumbnails options <> Some false ->
      opt_thumbnailCount options = None \/ opt_thumbnailCount options = Some 0 ->
      length (thumbnails res) = 5%nat)
  /\ preview res
     = (if preview_enabled options
        then Some (path_join outputDir "preview.mp4") else None)
  /\ variants res <> []
  /\ exists info rest,
       probed evs = Resolved info :: rest
       /\ Probed inputPath (Resolved info) ∈ evs
       /\ variants res = generateOptimalVariants (info_width info)
                           (info_height info) (info_duration info).
Proof.
  intros Hcb r evs Hr.
  destruct (pipeline_resolved w inputPath outputDir options s res Hr)
    as (Hpl & Hth & Hpv & _).
  destruct (pipeline_facts w inputPath outputDir options s Hcb) as (Hres & _).
  destruct (Hres res Hr) as (info & rest & Hp & Hin & Hplan & _).
  split; [exact Hpl|]. split; [exact Hth|].
  split; [|split; [exact Hpv|split; [|eauto]]].
  - intros Hen Hcount. rewrite Hth. unfold thumbnails_enabled.
    rewrite bool_decide_eq_false_2 by exact Hen. simpl.
    rewrite length_map, length_seq. unfold thumbnailCount_or_5.
    destruct Hcount as [->| ->]; reflexivity.
  - rewrite Hplan. rewrite plan_cases.
    repeat match goal with
           | |- context [?a >=? ?b] => destruct (Z.geb_spec a b)
           end; discriminate.
Qed.

(** X23. [createHLSPlaylist] encodes the variants in order and stops at
    the first failure, for any list of variants whose numbers are safe
    integers (as the planner's are).  The encodes that ran are those of
    the first [k] variants, all with code 0, followed by at most one
    that failed; it then rejects with that encode's message, and
    [writeFile] is not called.  It resolves only when every variant was
    encoded, then with [outputDir/master.m3u8], after exactly one
    [writeFile] call, fulfilled, on that file with all variants listed
    in order (for no variants, the header alone).  When it rejects, no
    file was written: [writeFile] was not called, or its one call on
    the manifest was itself rejected, with the message
    [createHLSPlaylist] rejects with. *)
Theorem createHLSPlaylist_stops_at_first_failure `{PathModule} (w : World)
        (inputPath outputDir : string) (variants : list VideoVariant)
        (s : State) :
  Forall plain_variant variants ->
  let r := run w (createHLSPlaylist inputPath outputDir variants) s in
  let evs := events_since s r.1 in
  let manifest := path_join outputDir "master.m3u8" in
  (exists k tail,
     encodes evs = (map encoded (take k variants) ++ tail)%list
     /\ (tail = []
         \/ exists v x, variants !! k = Some v /\ tail = [(v, x)]
                        /\ x <> exit_ok
                        /\ r.2 = Rejected (hls_failure_message v x)
                        /\ write_attempts evs = []))
  /\ (forall p, r.2 = Resolved p ->
        p = manifest
        /\ encodes evs = map encoded variants
        /\ write_attempts evs = [(manifest, master_playlist variants, None)])
  /\ (forall message, r.2 = Rejected message ->
        writes evs = []
        /\ (write_attempts evs = []
            \/ (encodes evs = map encoded variants
                /\ write_attempts evs
                   = [(manifest, master_playlist variants, Some message)]))).
Proof.
  intros _ r evs manifest.
  destruct (createHLSPlaylist_run w inputPath outputDir variants s)
    as (_ & k & tail & Henc & Hrun).
  cbv zeta in Henc, Hrun. fold r evs manifest in Henc, Hrun.
  rewrite (writes_of_attempts evs).
  destruct r.2 as [p|message].
  - destruct Hrun as (-> & -> & -> & Ha).
    split; [exists (length variants), []; auto|].
    split; [|intros m Hm; discriminate Hm].
    intros p' Hp. injection Hp as <-.
    rewrite Henc, firstn_all, app_nil_r. auto.
  - destruct Hrun as [(-> & Ha)|(v & x & Hv & -> & Hx & Hm & Ha)].
    + split; [exists k, []; auto|].
      split; [intros p Hp; discriminate Hp|].
      intros m Hm. injection Hm as <-.
      destruct Ha as [Ha|(-> & Ha)]; rewrite Ha; (split; [reflexivity|]); [auto|].
      right. rewrite Henc, firstn_all, app_nil_r. auto.
    + split; [exists k, [(v, x)]; split; [exact Henc|]; right; exists v, x;
              subst message; auto|].
      split; [intros p Hp; discriminate Hp|].
      intros m _. rewrite Ha. auto.
Qed.

Lemma createHLSPlaylist_stops_at_first_failure_witness :
  failed_manifest_run.2 = Rejected "HLS generation failed for 720p"
  /\ writes (events_since fresh failed_manifest_run.1) = []
  /\ write_attempts (events_since fresh failed_manifest_run.1) = [].
Proof.
  assert (Hplain : Forall plain_variant (generateOptimalVariants 1920 1080 600)).
  { repeat constructor; vm_compute; discriminate. }
  assert (Hr : failed_manifest_run.2 = Rejected "HLS generation failed for 720p")
    by (vm_compute; reflexivity).
  destruct (@createHLSPlaylist_stops_at_first_failure posix_join
              (world_with_failing_encode "720p") "in.mp4" "out"
              (generateOptimalVariants 1920 1080 600) fresh Hplain)
    as ((k & tail & Henc & Htail) & _ & Hrej).
  split; [exact Hr|]. split; [apply (Hrej _ Hr)|].
  destruct Htail as [->|(v & x & _ & _ & _ & _ & Ha)]; [|exact Ha].
  exfalso. rewrite app_nil_r in Henc.
  assert (Hex : Exists (fun x : VideoVariant * proc_exit => x.2 <> exit_ok)
                  (encodes (events_since fresh failed_manifest_run.1))).
  { apply Exists_exists.
    exists (ladder_variant (nth 2 qualityConfigs rung_360p), Probe.Close (Some 1)).
    split; [|discriminate]. vm_compute. do 2 right. left. }
  unfold failed_manifest_run in Hex. rewrite Henc in Hex.
  apply Exists_exists in Hex. destruct Hex as (x & Hx & Hne).
  apply list_elem_of_In, in_map_iff in Hx. destruct Hx as (v & <- & _).
  apply Hne. reflexivity.
Defined.

(** ** The job's end *)

Section JobClaims.
Context `{PathModule}.


(** C6 (amended). The last progress value stored for a job is the one
    its entry ends with, and that is 100 when the job ends completed,
    whatever other callers do.  While the job's id is not submitted
    again, the progress values stored for it from submission to its
    last write are non-decreasing. *)
Theorem progress_monotone (w : World) (jobId inputPath outputDir : string)
        (options : Options) (s : State) :
  let s' := run_job w jobId inputPath outputDir options s in
  let evs := events_since s s' in
  (exists job,
     queue s' !! jobId = Some job
     /\ last (progress_trace jobId evs) = Some (progress job)
     /\ (status job = Completed -> progress job = Some 100))
  /\ (single_writer w jobId ->
      exists tr job,
        progress_trace jobId evs = Some <$> tr
        /\ Sorted Z.le tr
        /\ queue s' !! jobId = Some job
        /\ last tr = progress job
        /\ (status job = Completed -> last tr = Some 100)).
Proof.
  intros s' evs. split.
  - destruct (job_end w jobId inputPath outputDir options s)
      as (queued & processing & j & _ & _ & _ & _ & Hev & Hq & Hend).
    cbv zeta in Hev, Hq, Hend. fold s' in Hev, Hq. fold evs in Hev.
    exists j. split; [rewrite Hq; apply lookup_insert_eq|].
    split.
    + rewrite Hev, app_assoc, progress_trace_app. cbn [progress_trace flat_map].
      rewrite String.eqb_refl. cbn [app]. apply last_snoc.
    + intros Hc.
      destruct (run w _ _).2; [tauto|destruct Hend; congruence].
  - intros Hsingle.
    destruct (job_run_spec w jobId Hsingle inputPath outputDir options s)
      as (evs' & j & R).
    fold s' in R. subst evs. rewrite (job_report_since _ _ _ _ _ _ _ R).
    destruct (report_progress _ _ _ _ _ _ _ R) as (tr & Ht & Hs & Hl).
    exists tr, j. rewrite fmap_last in Hl.
    assert (Hlast : last tr = progress j).
    { destruct (last tr); simpl in Hl; congruence. }
    repeat split; auto.
    + eapply report_entry; eauto.
    + intros Hc. rewrite Hlast.
      destruct (report_end _ _ _ _ _ _ _ R) as [(_ & Hp & _)|(He & _)]; congruence.
Qed.

End JobClaims.

(** ** Cancelling while other callers submit *)

Section NeverQueued.
Context (w : World) (jobId : string).




Hypothesis Htransient : queued_is_transient w jobId.




End NeverQueued.

Section JobEmits.
Context `{PathModule} (P : event -> Prop).
Hypothesis P_external :
  forall e, match e with Stored _ _ => False | _ => True end -> P e.




End JobEmits.

Section CancelClaims.
Context `{PathModule}.


Lemma single_writer_transient (w : World) (jobId : string) :
  single_writer w jobId -> queued_is_transient w jobId.
Proof.
  intros Hsingle h.
  assert (Hall : forall id j, OtherWrite id j ∈ others w h -> id <> jobId)
    by (intros id j; apply Hsingle).
  induction (others w h) as [|c calls IH]; [exact I|].
  assert (Hrest : transient_queued jobId calls).
  { apply IH. intros id j Hin. eapply Hall. apply elem_of_cons. right. exact Hin. }
  destruct c as [id|id|id j]; cbn [transient_queued]; try exact Hrest.
  split; [|exact Hrest]. intros Heq. exfalso.
  eapply Hall; [apply list_elem_of_here|exact Heq].
Qed.


End CancelClaims.

(** ** Sample runs of the job's end *)


Lemma pipeline_result_shape_witness :
  exists res,
    (pipeline_run no_options).2 = Resolved res
    /\ hlsPlaylist res = "out/master.m3u8"
    /\ length (thumbnails res) = 5%nat
    /\ preview res = None
    /\ variants res = generateOptimalVariants 1920 1080 600.
Proof.
  assert (Hr : exists res, (pipeline_run no_options).2 = Resolved res)
    by (eexists; vm_compute; reflexivity).
  destruct Hr as [res Hr]. exists res. split; [exact Hr|].
  destruct (@pipeline_result_shape posix_join (calm_world 600 1920 1080 [])
              "in.mp4" "out" no_options fresh res I Hr)
    as (Hpl & _ & Hfive & Hpv & _ & info & rest & Hp & _ & Hplan).
  split; [exact Hpl|]. split; [|split; [exact Hpv|]].
  - apply Hfive; [discriminate|left; reflexivity].
  - assert (Hfirst : exists rest',
              probed (events_since fresh (pipeline_run no_options).1)
              = Resolved {| info_duration := 600; info_width := 1920;
                            info_height := 1080 |} :: rest')
      by (eexists; vm_compute; reflexivity).
    destruct Hfirst as [rest' Hfirst]. unfold pipeline_run in Hfirst.
    rewrite Hp in Hfirst. injection Hfirst as -> _. exact Hplan.
Defined.



Lemma progress_monotone_witness :
  exists tr job,
    progress_trace "job-1" (events_since fresh completed_run) = Some <$> tr
    /\ Sorted Z.le tr
    /\ queue completed_run !! "job-1" = Some job
    /\ last tr = progress job
    /\ (status job = Completed -> last tr = Some 100).
Proof.
  apply (proj2 (@progress_monotone posix_join
                  (calm_world 600 1920 1080 [CallCancel "job-1"; CallGetStatus "job-1"])
                  "job-1" "in.mp4" "out" no_options fresh)).
  apply calm_single_writer.
Defined.

(** C6, on a job whose id is submitted again while it runs: it ends
    completed, and the progress stored falls from 40 back to 0. *)
Lemma progress_falls_back_on_resubmission :
  progress_trace "job-1" (events_since fresh resubmitted_run)
  = Some <$> [0; 0; 5; 10; 20; 40; 0; 0; 100; 100]
  /\ (status <$> getJobStatus "job-1" (queue resubmitted_run)) = Some Completed
  /\ ~ @completed_progress_monotone posix_join world_with_resubmission
         "job-1" "in.mp4" "out" no_options fresh.
Proof.
  assert (Ht : progress_trace "job-1" (events_since fresh resubmitted_run)
               = Some <$> [0; 0; 5; 10; 20; 40; 0; 0; 100; 100])
    by (vm_compute; reflexivity).
  assert (Hj : exists job, queue resubmitted_run !! "job-1" = Some job
                           /\ status job = Completed)
    by (eexists; split; vm_compute; reflexivity).
  split; [exact Ht|]. split; [vm_compute; reflexivity|].
  unfold completed_progress_monotone. fold resubmitted_run. intros Hclaim.
  destruct Hj as (job & Hq & Hs).
  destruct (Hclaim job Hq Hs) as (tr & Htr & Hsorted & _).
  rewrite Ht in Htr. clear Ht Hq Hclaim.
  apply (inj (fmap Some)) in Htr. subst tr.
  repeat match goal with
         | H : Sorted _ (_ :: _) |- _ => inversion H; subst; clear H
         | H : HdRel _ _ (_ :: _) |- _ => inversion H; subst; clear H
         end.
  lia.
Qed.

(** C7, on a run whose second extraction fails: two of the five
    timestamps are requested. *)
Lemma thumbnail_requests_stop_at_failure :
  probed (events_since fresh failed_thumbnail_run.1)
  = [Resolved {| info_duration := 100; info_width := 1920;
                 info_height := 1080 |}]
  /\ length (requested_timestamps (events_since fresh failed_thumbnail_run.1))
     = 2%nat
  /\ ~ @requests_exactly_count posix_join world_with_failing_thumbnail
         "in.mp4" "out" 5 fresh.
Proof.
  assert (Hp : probed (events_since fresh failed_thumbnail_run.1)
               = [Resolved {| info_duration := 100; info_width := 1920;
                              info_height := 1080 |}])
    by (vm_compute; reflexivity).
  assert (Hl : length (requested_timestamps
                         (events_since fresh failed_thumbnail_run.1)) = 2%nat)
    by (vm_compute; reflexivity).
  split; [exact Hp|]. split; [exact Hl|].
  unfold requests_exactly_count. fold failed_thumbnail_run. intros Hclaim.
  destruct (Hclaim _ Hp) as [Hlen _]; [lia|reflexivity|].
  rewrite Hl in Hlen. discriminate Hlen.
Qed.
